(** * FlexType: a shallow embedding of [dist/flextype.cjs.js]

    The development has three layers.

    - [Host]: the fragment of the ECMAScript host the library runs on:
      strings as sequences of UTF-16 code units, IEEE-754 binary64
      numbers, the abstract conversions ([ToPrimitive], [ToNumber],
      [ToString], [ToBoolean]) with their abrupt completions,
      [JSON.parse], and a store for arrays and plain objects.
    - [Flex]: the class [FlexType] and the two factories, one definition
      per method of the source, with the store, the thrown errors and
      the abrupt completions of the host threaded through a small
      state-and-error monad.
    - the properties of the library, proved over these definitions. *)

From Stdlib Require Import ZArith List String Ascii Bool Lia.
Import ListNotations.
Open Scope Z_scope.

(* ===================================================================== *)
(** * Host model                                                          *)
(* ===================================================================== *)

Module Host.

(** ** Strings

    A JavaScript string is a sequence of 16-bit code units. *)

Definition jstring := list Z.

Definition code_unit (c : Z) : Prop := 0 <= c < 65536.

(** The code units of an ASCII literal. *)
Definition lit (s : string) : jstring :=
  map (fun a => Z.of_N (N_of_ascii a)) (list_ascii_of_string s).

Fixpoint jstring_eqb (a b : jstring) : bool :=
  match a, b with
  | [], [] => true
  | x :: a', y :: b' => (x =? y) && jstring_eqb a' b'
  | _, _ => false
  end.

(** [WhiteSpace] and [LineTerminator] code points, the set removed by
    [String.prototype.trim] and skipped by [StringToNumber]. *)
Definition is_whitespace (c : Z) : bool :=
  ((9 <=? c) && (c <=? 13)) || (c =? 32) || (c =? 160) || (c =? 5760)
  || ((8192 <=? c) && (c <=? 8202)) || (c =? 8232) || (c =? 8233)
  || (c =? 8239) || (c =? 8287) || (c =? 12288) || (c =? 65279).

Fixpoint trim_start (s : jstring) : jstring :=
  match s with
  | c :: s' => if is_whitespace c then trim_start s' else s
  | [] => []
  end.

Definition trim_end (s : jstring) : jstring := rev (trim_start (rev s)).

(** [String.prototype.trim] *)
Definition trim (s : jstring) : jstring := trim_end (trim_start s).

(** [String.prototype.toLowerCase], on the code units whose lower-case
    mapping is an ASCII letter: the letters [A]-[Z] and the Kelvin sign
    U+212A. Every other code unit maps to non-ASCII text in the host;
    the model keeps it as it is, which agrees with the host on every
    comparison of the result with an ASCII literal. *)
Definition lower_unit (c : Z) : Z :=
  if (65 <=? c) && (c <=? 90) then c + 32
  else if c =? 8490 then 107
  else c.

Definition toLowerCase (s : jstring) : jstring := map lower_unit s.

Fixpoint startsWith (s p : jstring) {struct p} : bool :=
  match p, s with
  | [], _ => true
  | x :: p', y :: s' => (x =? y) && startsWith s' p'
  | _ :: _, [] => false
  end.

Definition endsWith (s p : jstring) : bool := startsWith (rev s) (rev p).

(** ** Numbers

    A Number is an IEEE-754 binary64 value. A finite non-zero value is
    [(-1)^neg * m * 2^e]; it is canonical when [m] has 53 bits and
    [-1074 <= e <= 971], or when it is subnormal: [m < 2^52] and
    [e = -1074]. *)

Inductive number : Type :=
| NaN
| Inf (neg : bool)
| Zero (neg : bool)
| Fin (neg : bool) (m : Z) (e : Z).

Definition emin : Z := -1074.
Definition emax : Z := 971.

Definition canonical (m e : Z) : bool :=
  ((2 ^ 52 <=? m) && (m <? 2 ^ 53) && (emin <=? e) && (e <=? emax))
  || ((0 <? m) && (m <? 2 ^ 52) && (e =? emin)).

Definition wf_number (x : number) : bool :=
  match x with
  | Fin _ m e => canonical m e
  | _ => true
  end.

Definition number_eqb (x y : number) : bool :=
  match x, y with
  | NaN, NaN => true
  | Inf a, Inf b => Bool.eqb a b
  | Zero a, Zero b => Bool.eqb a b
  | Fin a m e, Fin b m' e' => Bool.eqb a b && (m =? m') && (e =? e')
  | _, _ => false
  end.

(** [pow2 k] is [2^k] for [k >= 0] and [1] below: a positive rational
    [2^k] is the fraction [pow2 k / pow2 (-k)]. *)
Definition pow2 (k : Z) : Z := 2 ^ Z.max 0 k.

(** [ge_pow2 p q k]: the rational [p/q] is at least [2^k]. *)
Definition ge_pow2 (p q k : Z) : bool := q * pow2 k <=? p * pow2 (- k).

(** [floor (log2 (p/q))] for positive [p], [q]. *)
Definition ilog2 (p q : Z) : Z :=
  let d := Z.log2 p - Z.log2 q in
  if ge_pow2 p q d then d else d - 1.

(** Round to nearest, ties to even, of the quotient [m0] with remainder
    [r] out of [den]. *)
Definition round_nearest_even (m0 r den : Z) : Z :=
  match 2 * r ?= den with
  | Lt => m0
  | Gt => m0 + 1
  | Eq => if Z.even m0 then m0 else m0 + 1
  end.

(** The Number value of the positive rational [p/q], with sign [neg]:
    the binary64 value nearest to it. *)
Definition round_rat (neg : bool) (p q : Z) : number :=
  let e := Z.max (ilog2 p q - 52) emin in
  let num := p * pow2 (- e) in
  let den := q * pow2 e in
  let m1 := round_nearest_even (num / den) (num mod den) den in
  if m1 =? 0 then Zero neg
  else
    let '(m2, e2) := if m1 =? 2 ^ 53 then (2 ^ 52, e + 1) else (m1, e) in
    if emax <? e2 then Inf neg else Fin neg m2 e2.

(** The Number value of the signed dyadic [z * 2^e]. *)
Definition round_dyadic (zero_neg : bool) (z e : Z) : number :=
  if z =? 0 then Zero zero_neg
  else round_rat (z <? 0) (Z.abs z * pow2 e) (pow2 (- e)).

Definition of_Z (z : Z) : number := round_dyadic false z 0.

Definition num_neg (x : number) : number :=
  match x with
  | NaN => NaN
  | Inf s => Inf (negb s)
  | Zero s => Zero (negb s)
  | Fin s m e => Fin (negb s) m e
  end.

Definition signed (neg : bool) (m : Z) : Z := if neg then - m else m.

(** Addition: the exact sum of two finite values is a dyadic, which is
    rounded. An exact sum of zero is [+0], except that [-0 + -0] is
    [-0]. *)
Definition num_add (x y : number) : number :=
  match x, y with
  | NaN, _ | _, NaN => NaN
  | Inf a, Inf b => if Bool.eqb a b then Inf a else NaN
  | Inf a, _ => Inf a
  | _, Inf b => Inf b
  | Zero a, Zero b => Zero (a && b)
  | Zero _, Fin _ _ _ => y
  | Fin _ _ _, Zero _ => x
  | Fin a m e, Fin b m' e' =>
      let e0 := Z.min e e' in
      round_dyadic false
        (signed a m * 2 ^ (e - e0) + signed b m' * 2 ^ (e' - e0)) e0
  end.

Definition num_sub (x y : number) : number := num_add x (num_neg y).

Definition num_mul (x y : number) : number :=
  match x, y with
  | NaN, _ | _, NaN => NaN
  | Inf a, Zero _ | Zero _, Inf a => NaN
  | Inf a, Inf b | Inf a, Fin b _ _ | Fin a _ _, Inf b => Inf (xorb a b)
  | Zero a, Zero b | Zero a, Fin b _ _ | Fin a _ _, Zero b => Zero (xorb a b)
  | Fin a m e, Fin b m' e' =>
      round_rat (xorb a b) (m * m' * pow2 (e + e')) (pow2 (- (e + e')))
  end.

Definition num_div (x y : number) : number :=
  match x, y with
  | NaN, _ | _, NaN => NaN
  | Inf _, Inf _ => NaN
  | Zero _, Zero _ => NaN
  | Inf a, Zero b | Inf a, Fin b _ _ => Inf (xorb a b)
  | Fin a _ _, Zero b => Inf (xorb a b)
  | Zero a, Inf b | Zero a, Fin b _ _ | Fin a _ _, Inf b => Zero (xorb a b)
  | Fin a m e, Fin b m' e' =>
      round_rat (xorb a b)
        (m * pow2 e * pow2 (- e')) (m' * pow2 e' * pow2 (- e))
  end.

(** [x < y]; false when either side is [NaN]. *)
Definition dyadic (x : number) : Z * Z :=
  match x with
  | Fin neg m e => (signed neg m, e)
  | _ => (0, 0)
  end.

Definition num_ltb (x y : number) : bool :=
  match x, y with
  | NaN, _ | _, NaN => false
  | Inf a, Inf b => a && negb b
  | Inf a, _ => a
  | _, Inf b => negb b
  | _, _ =>
      let '(z, e) := dyadic x in
      let '(z', e') := dyadic y in
      let e0 := Z.min e e' in
      z * 2 ^ (e - e0) <? z' * 2 ^ (e' - e0)
  end.

Definition is_nan (x : number) : bool :=
  match x with NaN => true | _ => false end.

Definition is_finite (x : number) : bool :=
  match x with NaN | Inf _ => false | _ => true end.

(** [x <= y]; false when either side is [NaN]. *)
Definition num_leb (x y : number) : bool :=
  negb (is_nan x) && negb (is_nan y) && negb (num_ltb y x).

(** [Math.min] and [Math.max] on two Numbers: [NaN] if either is [NaN];
    [-0] is smaller than [+0]. *)
Definition Math_min (a b : number) : number :=
  if is_nan a || is_nan b then NaN
  else if num_ltb b a then b
  else if num_ltb a b then a
  else match b with Zero true => b | _ => a end.

Definition Math_max (a b : number) : number :=
  if is_nan a || is_nan b then NaN
  else if num_ltb a b then b
  else if num_ltb b a then a
  else match b with Zero false => b | _ => a end.

(** Truncation toward zero of a finite Number; [0] for the others, as in
    [ToUint16]. *)
Definition truncate (x : number) : Z :=
  match x with
  | Fin neg m e => signed neg (if 0 <=? e then m * 2 ^ e else m / 2 ^ (- e))
  | _ => 0
  end.

Definition ToUint16 (x : number) : Z := truncate x mod 65536.

(** ** Numeric strings *)

Definition is_digit (c : Z) : bool := (48 <=? c) && (c <=? 57).

Fixpoint span_digits (s : jstring) : jstring * jstring :=
  match s with
  | c :: s' =>
      if is_digit c
      then let '(ds, rest) := span_digits s' in (c :: ds, rest)
      else ([], s)
  | [] => ([], [])
  end.

(** The mathematical value of a sequence of decimal digits. *)
Definition digits_value (ds : jstring) : Z :=
  fold_left (fun acc c => acc * 10 + (c - 48)) ds 0.

(** The Number value of the decimal [M * 10^E], [M >= 0]. *)
Definition decimal_to_number (neg : bool) (M E : Z) : number :=
  if M =? 0 then Zero neg
  else round_rat neg (M * 10 ^ Z.max 0 E) (10 ^ Z.max 0 (- E)).

Definition strip_sign (s : jstring) : bool * jstring :=
  match s with
  | c :: r => if c =? 43 then (false, r)
              else if c =? 45 then (true, r)
              else (false, s)
  | [] => (false, [])
  end.

(** [ExponentPart], or nothing: the text after the digits of a decimal
    literal, up to the end of the string. *)
Definition parse_exponent (s : jstring) : option Z :=
  match s with
  | [] => Some 0
  | c :: r =>
      if (c =? 101) || (c =? 69) then
        let '(neg, r') := strip_sign r in
        let '(ds, rest) := span_digits r' in
        match ds, rest with
        | _ :: _, [] => Some (signed neg (digits_value ds))
        | _, _ => None
        end
      else None
  end.

(** [StrUnsignedDecimalLiteral] other than [Infinity]: the mantissa and
    the decimal exponent of its mathematical value. *)
Definition parse_unsigned_decimal (s : jstring) : option (Z * Z) :=
  let '(ip, r1) := span_digits s in
  let '(fp, r2) := match r1 with
                   | c :: t => if c =? 46 then span_digits t else ([], r1)
                   | [] => ([], [])
                   end in
  match ip ++ fp with
  | [] => None
  | ds =>
      match parse_exponent r2 with
      | Some ex => Some (digits_value ds, ex - Z.of_nat (List.length fp))
      | None => None
      end
  end.

(** The value of a digit in a radix up to 16, if it is one. *)
Definition digit_in_radix (radix c : Z) : option Z :=
  let v := if is_digit c then c - 48
           else if (97 <=? c) && (c <=? 102) then c - 87
           else if (65 <=? c) && (c <=? 70) then c - 55
           else 16 in
  if v <? radix then Some v else None.

Fixpoint radix_value (radix : Z) (s : jstring) (acc : Z) : option Z :=
  match s with
  | [] => Some acc
  | c :: s' =>
      match digit_in_radix radix c with
      | Some v => radix_value radix s' (acc * radix + v)
      | None => None
      end
  end.

(** [NonDecimalIntegerLiteral]: [0x], [0o] or [0b] and at least one
    digit. *)
Definition parse_nondecimal (s : jstring) : option Z :=
  match s with
  | z :: p :: (_ :: _) as ds =>
      if z =? 48 then
        if (p =? 120) || (p =? 88) then radix_value 16 ds 0
        else if (p =? 111) || (p =? 79) then radix_value 8 ds 0
        else if (p =? 98) || (p =? 66) then radix_value 2 ds 0
        else None
      else None
  | _ => None
  end.

(** [StringToNumber]: the abstract operation behind [Number(str)] and
    [isNaN(str)]. White space around the literal is ignored, the empty
    string is [+0], a string that is not a [StrNumericLiteral] is
    [NaN]. *)
Definition StringToNumber (s : jstring) : number :=
  match trim s with
  | [] => Zero false
  | t =>
      match parse_nondecimal t with
      | Some z => round_dyadic false z 0
      | None =>
          let '(neg, u) := strip_sign t in
          if jstring_eqb u (lit "Infinity") then Inf neg
          else match parse_unsigned_decimal u with
               | Some (M, E) => decimal_to_number neg M E
               | None => NaN
               end
      end
  end.

(** ** Number to string

    [Number::toString] writes a finite non-zero Number with the fewest
    significant digits [s] (at a decimal exponent [E]) whose Number value
    is again the Number itself. *)

Fixpoint digits_fuel (fuel : nat) (z : Z) (acc : jstring) : jstring :=
  match fuel with
  | O => acc
  | S f =>
      if z <? 10 then (48 + z) :: acc
      else digits_fuel f (z / 10) ((48 + z mod 10) :: acc)
  end.

(** The decimal digits of [z >= 0]. *)
Definition digits_of (z : Z) : jstring :=
  digits_fuel (S (Z.to_nat (Z.log2 z))) z [].

(** [represents x s E]: the decimal [s * 10^E] reads back as the positive
    Number [x]. *)
Definition represents (x : number) (s E : Z) : bool :=
  number_eqb (decimal_to_number false s E) x.

(** The least [j] from [j0] on with [q <= p * 10^j]. *)
Fixpoint first_scale (fuel : nat) (p q j : Z) : Z :=
  match fuel with
  | O => j
  | S f => if q <=? p * 10 ^ j then j else first_scale f p q (j + 1)
  end.

(** The position [n] of the decimal point of [p/q]:
    [10^(n-1) <= p/q < 10^n]. *)
Definition decimal_position (p q : Z) : Z :=
  if q <=? p then Z.of_nat (List.length (digits_of (p / q)))
  else 1 - first_scale 400 p q 1.

(** The candidates with [k] digits: the two decimals at exponent
    [n - k] around [p/q], those that read back as [x], the nearer first
    (the even one on a tie). *)
Definition candidates (x : number) (p q n k : Z) : list (Z * Z) :=
  let E := n - k in
  let num := p * 10 ^ Z.max 0 (- E) in
  let den := q * 10 ^ Z.max 0 E in
  let lo := num / den in
  let r := num mod den in
  let c_lo := (lo, E) in
  let c_hi := if lo + 1 =? 10 ^ k then (1, E + k) else (lo + 1, E) in
  let ordered :=
    match 2 * r ?= den with
    | Lt => [c_lo; c_hi]
    | Gt => [c_hi; c_lo]
    | Eq => if Z.even lo then [c_lo; c_hi] else [c_hi; c_lo]
    end in
  filter (fun c => (0 <? fst c) && represents x (fst c) (snd c)) ordered.

(** The exact decimal expansion of [m * 2^e]. *)
Definition exact_decimal (m e : Z) : Z * Z :=
  if 0 <=? e then (m * 2 ^ e, 0) else (m * 5 ^ (- e), e).

Fixpoint shortest_from (fuel : nat) (x : number) (p q n k : Z)
    (fallback : Z * Z) : Z * Z :=
  match fuel with
  | O => fallback
  | S f =>
      match candidates x p q n k with
      | c :: _ => c
      | [] => shortest_from f x p q n (k + 1) fallback
      end
  end.

(** The digits [s] and the exponent [E] of the shortest decimal of the
    positive Number [m * 2^e]. Seventeen digits always suffice; the exact
    expansion stands behind the search. *)
Definition shortest (m e : Z) : Z * Z :=
  let p := m * pow2 e in
  let q := pow2 (- e) in
  shortest_from 17 (Fin false m e) p q (decimal_position p q) 1
    (exact_decimal m e).

Definition zeros (n : Z) : jstring := repeat 48 (Z.to_nat n).

(** The text of the decimal with digits [ds] and decimal point at [n]
    (steps 6 to 10 of [Number::toString]). *)
Definition format_decimal (ds : jstring) (n : Z) : jstring :=
  let k := Z.of_nat (List.length ds) in
  if (k <=? n) && (n <=? 21) then ds ++ zeros (n - k)
  else if (0 <? n) && (n <=? 21)
  then firstn (Z.to_nat n) ds ++ 46 :: skipn (Z.to_nat n) ds
  else if (-6 <? n) && (n <=? 0) then 48 :: 46 :: zeros (- n) ++ ds
  else
    let ex := n - 1 in
    let exs := (if ex <? 0 then 45 else 43) :: digits_of (Z.abs ex) in
    match ds with
    | [] => []
    | [d] => d :: 101 :: exs
    | d :: rest => d :: 46 :: rest ++ 101 :: exs
    end.

(** [Number::toString], radix 10. *)
Definition NumberToString (x : number) : jstring :=
  match x with
  | NaN => lit "NaN"
  | Zero _ => lit "0"
  | Inf neg => (if neg then [45] else []) ++ lit "Infinity"
  | Fin neg m e =>
      let '(s, E) := shortest m e in
      let ds := digits_of s in
      (if neg then [45] else [])
        ++ format_decimal ds (E + Z.of_nat (List.length ds))
  end.

(** ** Values and the store

    Arrays and plain objects live in a store and are held by reference,
    so that two values can share one container. The other objects that
    [_inferType] tells apart (dates, regular expressions, maps, sets) and
    functions are opaque: a host object carries the text its [toString]
    returns and, for a date, its time value. Symbols and BigInts are not
    modelled. *)

Inductive host_class : Type := HDate | HRegExp | HMap | HSet | HFunction.

Inductive jsval : Type :=
| VUndefined
| VNull
| VBool (b : bool)
| VNum (n : number)
| VStr (s : jstring)
| VArray (l : nat)
| VObject (l : nat)
| VHost (c : host_class) (text : jstring) (time : number).

Record store : Type := mkStore {
  arrays : list (list jsval);
  objects : list (list (jstring * jsval))
}.

Definition empty_store : store := mkStore [] [].

Definition array_at (h : store) (l : nat) : list jsval :=
  nth l (arrays h) [].

Definition object_at (h : store) (l : nat) : list (jstring * jsval) :=
  nth l (objects h) [].

Fixpoint update_nth {A} (l : list A) (i : nat) (x : A) : list A :=
  match l, i with
  | [], _ => []
  | _ :: l', O => x :: l'
  | y :: l', S i' => y :: update_nth l' i' x
  end.

Definition alloc_array (h : store) (elems : list jsval) : store * jsval :=
  (mkStore (arrays h ++ [elems]) (objects h),
   VArray (List.length (arrays h))).

Definition alloc_object (h : store) (props : list (jstring * jsval))
  : store * jsval :=
  (mkStore (arrays h) (objects h ++ [props]),
   VObject (List.length (objects h))).

Definition write_array (h : store) (l : nat) (elems : list jsval) : store :=
  mkStore (update_nth (arrays h) l elems) (objects h).

Fixpoint lookup_prop (props : list (jstring * jsval)) (key : jstring)
  : option jsval :=
  match props with
  | [] => None
  | (k, v) :: props' =>
      if jstring_eqb k key then Some v else lookup_prop props' key
  end.

(** [CreateDataProperty]: a key already present keeps its place and
    takes the new value. *)
Fixpoint define_prop {A} (props : list (jstring * A)) (key : jstring) (v : A)
  : list (jstring * A) :=
  match props with
  | [] => [(key, v)]
  | (k, w) :: props' =>
      if jstring_eqb k key then (k, v) :: props'
      else (k, w) :: define_prop props' key v
  end.

(** The array index a property key denotes, when it is the canonical
    text of one. *)
Definition array_index (key : jstring) : option nat :=
  match key with
  | [] => None
  | c :: _ =>
      if forallb is_digit key
         && jstring_eqb (digits_of (digits_value key)) key
      then Some (Z.to_nat (digits_value key))
      else None
  end.

(** Property read [container[key]] on an array or a plain object: own
    elements and properties and the [length] of an array; a missing one
    is [undefined]. Members inherited from the prototypes are not
    modelled: a key of a prototype that is no own key reads as
    [undefined] here and as the inherited member in the host. The
    properties of [get] are stated for own keys and for indices, which
    no prototype holds. *)
Definition get_property (h : store) (container : jsval) (key : jstring)
  : jsval :=
  match container with
  | VArray l =>
      match array_index key with
      | Some i => nth i (array_at h l) VUndefined
      | None =>
          if jstring_eqb key (lit "length")
          then VNum (of_Z (Z.of_nat (List.length (array_at h l))))
          else VUndefined
      end
  | VObject l =>
      match lookup_prop (object_at h l) key with
      | Some v => v
      | None => VUndefined
      end
  | _ => VUndefined
  end.

(** ** Conversions *)

Definition ToBoolean (v : jsval) : bool :=
  match v with
  | VUndefined | VNull => false
  | VBool b => b
  | VNum (NaN | Zero _) => false
  | VNum _ => true
  | VStr [] => false
  | VStr _ => true
  | VArray _ | VObject _ | VHost _ _ _ => true
  end.

Fixpoint join (sep : jstring) (parts : list jstring) : jstring :=
  match parts with
  | [] => []
  | [x] => x
  | x :: parts' => x ++ sep ++ join sep parts'
  end.

(** A conversion of an object can be abrupt: the host throws a
    [TypeError], or it calls a function that the object holds as its own
    [toString] or [valueOf]. The model does not run such a function:
    [Calls f] is where it stops, and what [f] returns or does is no
    part of it. *)
Inductive abrupt : Type :=
| TypeError
| Calls (f : jsval).

Inductive completion (A : Type) : Type :=
| Normal (a : A)
| Abrupt (e : abrupt).
Arguments Normal {A} a.
Arguments Abrupt {A} e.

Definition and_then {A B} (c : completion A) (k : A -> completion B)
  : completion B :=
  match c with
  | Normal a => k a
  | Abrupt e => Abrupt e
  end.

(** The results of conversions made from left to right. *)
Fixpoint all_of {A} (cs : list (completion A)) : completion (list A) :=
  match cs with
  | [] => Normal []
  | c :: cs' =>
      and_then c (fun a => and_then (all_of cs') (fun l => Normal (a :: l)))
  end.

Definition IsCallable (v : jsval) : bool :=
  match v with
  | VHost HFunction _ _ => true
  | _ => false
  end.

(** The preferred type of [ToPrimitive]. *)
Inductive hint : Type := HintDefault | HintNumber | HintString.

(** [ToString] and [ToNumber] of a primitive; a container is converted
    by [ToPrimitive] first. *)
Definition primitive_text (p : jsval) : jstring :=
  match p with
  | VUndefined => lit "undefined"
  | VNull => lit "null"
  | VBool b => if b then lit "true" else lit "false"
  | VNum n => NumberToString n
  | VStr s => s
  | _ => []
  end.

Definition primitive_number (p : jsval) : number :=
  match p with
  | VUndefined => NaN
  | VNull => Zero false
  | VBool b => if b then of_Z 1 else of_Z 0
  | VNum n => n
  | VStr s => StringToNumber s
  | _ => NaN
  end.

(** One step of [OrdinaryToPrimitive] on a plain object: the method of
    a name is the own property of that name or, without one, the method
    of [Object.prototype], of which [inherited] is the result when that
    is a primitive. An own property that is not callable is passed
    over; one that is callable is called. *)
Definition method_result (props : list (jstring * jsval)) (name : jstring)
    (inherited : option jsval) : completion (option jsval) :=
  match lookup_prop props name with
  | Some f => if IsCallable f then Abrupt (Calls f) else Normal None
  | None => Normal inherited
  end.

(** [OrdinaryToPrimitive] on a plain object: [toString] then [valueOf]
    for the hint string, [valueOf] then [toString] otherwise.
    [Object.prototype.toString] returns ['[object Object]'] and
    [Object.prototype.valueOf] the object itself, which is no primitive;
    when neither method gives a primitive the host throws a
    [TypeError]. *)
Definition OrdinaryToPrimitive (props : list (jstring * jsval))
    (preferred : hint) : completion jsval :=
  let toString :=
    method_result props (lit "toString") (Some (VStr (lit "[object Object]"))) in
  let valueOf := method_result props (lit "valueOf") None in
  let '(first, second) :=
    match preferred with
    | HintString => (toString, valueOf)
    | _ => (valueOf, toString)
    end in
  and_then first (fun r =>
    match r with
    | Some p => Normal p
    | None =>
        and_then second (fun r' =>
          match r' with
          | Some p => Normal p
          | None => Abrupt TypeError
          end)
    end).

(** [ToString]. An array is the comma-separated text of its elements,
    [null] and [undefined] ones being empty, and an array met again
    while it is being joined is empty too; [joining] holds the arrays in
    progress. A plain object is converted by [OrdinaryToPrimitive]. The
    fuel bounds the nesting of arrays; [ToString] gives as much as the
    store has arrays, which is never exhausted. *)
Fixpoint ToString_fuel (fuel : nat) (h : store) (joining : list nat)
    (v : jsval) : completion jstring :=
  match v with
  | VUndefined | VNull | VBool _ | VNum _ | VStr _ => Normal (primitive_text v)
  | VHost _ text _ => Normal text
  | VObject l =>
      and_then (OrdinaryToPrimitive (object_at h l) HintString)
        (fun p => Normal (primitive_text p))
  | VArray l =>
      if existsb (Nat.eqb l) joining then Normal []
      else
        match fuel with
        | O => Normal []
        | S f =>
            and_then
              (all_of
                 (map (fun e => match e with
                                | VUndefined | VNull => Normal []
                                | _ => ToString_fuel f h (l :: joining) e
                                end)
                    (array_at h l)))
              (fun texts => Normal (join [44] texts))
        end
  end.

Definition ToString (h : store) (v : jsval) : completion jstring :=
  ToString_fuel (S (List.length (arrays h))) h [] v.

(** [ToPrimitive]: an array becomes its text, a plain object what
    [OrdinaryToPrimitive] gives, a date its time value under the hint
    number and its text otherwise, another host object its text. *)
Definition ToPrimitive (h : store) (preferred : hint) (v : jsval)
  : completion jsval :=
  match v with
  | VArray _ => and_then (ToString h v) (fun text => Normal (VStr text))
  | VObject l => OrdinaryToPrimitive (object_at h l) preferred
  | VHost HDate text time =>
      Normal (match preferred with
              | HintNumber => VNum time
              | _ => VStr text
              end)
  | VHost _ text _ => Normal (VStr text)
  | _ => Normal v
  end.

Definition ToNumber (h : store) (v : jsval) : completion number :=
  and_then (ToPrimitive h HintNumber v) (fun p => Normal (primitive_number p)).

(** The binary operators of the language on arbitrary operands: the
    left operand is converted first. *)
Definition js_plus (h : store) (a b : jsval) : completion jsval :=
  and_then (ToPrimitive h HintDefault a) (fun pa =>
  and_then (ToPrimitive h HintDefault b) (fun pb =>
  Normal
    match pa, pb with
    | VStr s, _ => VStr (s ++ primitive_text pb)
    | _, VStr s => VStr (primitive_text pa ++ s)
    | _, _ => VNum (num_add (primitive_number pa) (primitive_number pb))
    end)).

Definition numeric (op : number -> number -> number) (h : store)
    (a b : jsval) : completion jsval :=
  and_then (ToNumber h a) (fun x =>
  and_then (ToNumber h b) (fun y => Normal (VNum (op x y)))).

Definition js_minus : store -> jsval -> jsval -> completion jsval :=
  numeric num_sub.

Definition js_times : store -> jsval -> jsval -> completion jsval :=
  numeric num_mul.

Definition js_divide : store -> jsval -> jsval -> completion jsval :=
  numeric num_div.

(** Strict equality [===]. *)
Definition strict_equals (a b : jsval) : bool :=
  match a, b with
  | VUndefined, VUndefined | VNull, VNull => true
  | VBool x, VBool y => Bool.eqb x y
  | VNum x, VNum y =>
      match x, y with
      | NaN, _ | _, NaN => false
      | Zero _, Zero _ => true
      | _, _ => number_eqb x y
      end
  | VStr x, VStr y => jstring_eqb x y
  | VArray x, VArray y | VObject x, VObject y => Nat.eqb x y
  | _, _ => false
  end.

(** ** JSON.parse

    The text is parsed to a tree, which is then built in the store. A
    text that is not JSON makes [JSON.parse] throw a [SyntaxError]; the
    parser returns [None] for it. *)

#[local] Set Warnings "-register-all".

Inductive json : Type :=
| JNull
| JBool (b : bool)
| JNum (n : number)
| JStr (s : jstring)
| JArr (elems : list json)
| JObj (members : list (jstring * json)).

Definition is_json_ws (c : Z) : bool :=
  (c =? 32) || (c =? 9) || (c =? 10) || (c =? 13).

Fixpoint skip_ws (s : jstring) : jstring :=
  match s with
  | c :: s' => if is_json_ws c then skip_ws s' else s
  | [] => []
  end.

Definition hex4 (a b c d : Z) : option Z :=
  match digit_in_radix 16 a, digit_in_radix 16 b,
        digit_in_radix 16 c, digit_in_radix 16 d with
  | Some x, Some y, Some z, Some w => Some (((x * 16 + y) * 16 + z) * 16 + w)
  | _, _, _, _ => None
  end.

Definition simple_escape (c : Z) : option Z :=
  if (c =? 34) || (c =? 92) || (c =? 47) then Some c
  else if c =? 98 then Some 8
  else if c =? 102 then Some 12
  else if c =? 110 then Some 10
  else if c =? 114 then Some 13
  else if c =? 116 then Some 9
  else None.

(** The characters of a JSON string after its opening quote, and the
    text after its closing quote. *)
Fixpoint parse_string_body (s : jstring) : option (jstring * jstring) :=
  match s with
  | [] => None
  | c :: r =>
      if c =? 34 then Some ([], r)
      else if c =? 92 then
        match r with
        | [] => None
        | e :: r' =>
            if e =? 117 then
              match r' with
              | a :: b :: c' :: d :: r'' =>
                  match hex4 a b c' d, parse_string_body r'' with
                  | Some u, Some (body, rest) => Some (u :: body, rest)
                  | _, _ => None
                  end
              | _ => None
              end
            else
              match simple_escape e, parse_string_body r' with
              | Some u, Some (body, rest) => Some (u :: body, rest)
              | _, _ => None
              end
        end
      else if c <? 32 then None
      else
        match parse_string_body r with
        | Some (body, rest) => Some (c :: body, rest)
        | None => None
        end
  end.

(** A JSON number at the head of [s]: no leading zeros, digits on both
    sides of a decimal point, digits in an exponent. *)
Definition parse_json_number (s : jstring) : option (number * jstring) :=
  let '(neg, s1) := match s with
                    | c :: r => if c =? 45 then (true, r) else (false, s)
                    | [] => (false, [])
                    end in
  let '(ip, r1) := span_digits s1 in
  let int_ok := match ip with
                | [] => false
                | [_] => true
                | c :: _ => negb (c =? 48)
                end in
  let frac := match r1 with
              | c :: t =>
                  if c =? 46 then
                    match span_digits t with
                    | ([], _) => None
                    | (fp, r2) => Some (fp, r2)
                    end
                  else Some ([], r1)
              | [] => Some ([], [])
              end in
  match int_ok, frac with
  | true, Some (fp, r2) =>
      let exp := match r2 with
                 | c :: t =>
                     if (c =? 101) || (c =? 69) then
                       let '(eneg, t') := strip_sign t in
                       match span_digits t' with
                       | ([], _) => None
                       | (ds, r3) => Some (signed eneg (digits_value ds), r3)
                       end
                     else Some (0, r2)
                 | [] => Some (0, [])
                 end in
      match exp with
      | Some (ex, r3) =>
          Some (decimal_to_number neg (digits_value (ip ++ fp))
                  (ex - Z.of_nat (List.length fp)), r3)
      | None => None
      end
  | _, _ => None
  end.

(** The value at the head of [s] and the text after it. Every call
    consumes fuel; [JSON_parse] gives enough for the whole text. *)
Fixpoint parse_value (fuel : nat) (s : jstring) : option (json * jstring) :=
  match fuel with
  | O => None
  | S f =>
      match skip_ws s with
      | [] => None
      | c :: r =>
          if c =? 123 then
            match skip_ws r with
            | c' :: r' =>
                if c' =? 125 then Some (JObj [], r')
                else parse_members f (c' :: r') []
            | [] => None
            end
          else if c =? 91 then
            match skip_ws r with
            | c' :: r' =>
                if c' =? 93 then Some (JArr [], r')
                else parse_elements f (c' :: r') []
            | [] => None
            end
          else if c =? 34 then
            match parse_string_body r with
            | Some (str, rest) => Some (JStr str, rest)
            | None => None
            end
          else if startsWith (c :: r) (lit "true")
          then Some (JBool true, skipn 4 (c :: r))
          else if startsWith (c :: r) (lit "false")
          then Some (JBool false, skipn 5 (c :: r))
          else if startsWith (c :: r) (lit "null")
          then Some (JNull, skipn 4 (c :: r))
          else
            match parse_json_number (c :: r) with
            | Some (n, rest) => Some (JNum n, rest)
            | None => None
            end
      end
  end
with parse_elements (fuel : nat) (s : jstring) (acc : list json)
  : option (json * jstring) :=
  match fuel with
  | O => None
  | S f =>
      match parse_value f s with
      | Some (v, r) =>
          match skip_ws r with
          | c :: r' =>
              if c =? 44 then parse_elements f r' (v :: acc)
              else if c =? 93 then Some (JArr (rev (v :: acc)), r')
              else None
          | [] => None
          end
      | None => None
      end
  end
with parse_members (fuel : nat) (s : jstring) (acc : list (jstring * json))
  : option (json * jstring) :=
  match fuel with
  | O => None
  | S f =>
      match skip_ws s with
      | q :: r0 =>
          if q =? 34 then
            match parse_string_body r0 with
            | Some (key, r1) =>
                match skip_ws r1 with
                | c :: r2 =>
                    if c =? 58 then
                      match parse_value f r2 with
                      | Some (v, r3) =>
                          match skip_ws r3 with
                          | c' :: r4 =>
                              if c' =? 44
                              then parse_members f r4 (define_prop acc key v)
                              else if c' =? 125
                              then Some (JObj (define_prop acc key v), r4)
                              else None
                          | [] => None
                          end
                      | None => None
                      end
                    else None
                | [] => None
                end
            | None => None
            end
          else None
      | [] => None
      end
  end.

Definition JSON_parse_tree (s : jstring) : option json :=
  match parse_value (2 * List.length s + 2) s with
  | Some (j, rest) =>
      match skip_ws rest with
      | [] => Some j
      | _ :: _ => None
      end
  | None => None
  end.

(** Building a tree in the store: the containers of the elements first,
    then the container itself. *)
Fixpoint allocate (h : store) (j : json) : store * jsval :=
  match j with
  | JNull => (h, VNull)
  | JBool b => (h, VBool b)
  | JNum n => (h, VNum n)
  | JStr s => (h, VStr s)
  | JArr elems =>
      let '(h', vs) :=
        (fix go (h : store) (l : list json) : store * list jsval :=
           match l with
           | [] => (h, [])
           | x :: l' =>
               let '(h1, v) := allocate h x in
               let '(h2, vs) := go h1 l' in
               (h2, v :: vs)
           end) h elems in
      alloc_array h' vs
  | JObj members =>
      let '(h', ps) :=
        (fix go (h : store) (l : list (jstring * json))
           : store * list (jstring * jsval) :=
           match l with
           | [] => (h, [])
           | (k, x) :: l' =>
               let '(h1, v) := allocate h x in
               let '(h2, ps) := go h1 l' in
               (h2, (k, v) :: ps)
           end) h members in
      alloc_object h' ps
  end.

(** [JSON.parse]: [None] when it throws. *)
Definition JSON_parse (h : store) (s : jstring) : option (store * jsval) :=
  match JSON_parse_tree s with
  | Some j => Some (allocate h j)
  | None => None
  end.

End Host.

(* ===================================================================== *)
(** * The library                                                         *)
(* ===================================================================== *)

Module Flex.
Import Host.

(** ** Errors and state

    A computation runs on a state and either returns, or throws an
    [Error] of the library with a message, or ends with the abrupt
    completion of a conversion that the host makes for it: the
    [TypeError] of the host, which the library never catches outside
    [JSON.parse], or the call of a function at which the model stops.
    The state of a method is the store; the state of the constructor is
    the instance under construction together with the store. *)

Inductive outcome (A : Type) : Type :=
| Ok (a : A)
| Throw (message : jstring)
| Escapes (e : abrupt).
Arguments Ok {A} a.
Arguments Throw {A} message.
Arguments Escapes {A} e.

Definition M (S A : Type) : Type := S -> outcome A * S.

Definition ret {S A} (a : A) : M S A := fun s => (Ok a, s).

Definition throw {S A} (message : jstring) : M S A :=
  fun s => (Throw message, s).

Definition bind {S A B} (c : M S A) (k : A -> M S B) : M S B :=
  fun s =>
    match c s with
    | (Ok a, s') => k a s'
    | (Throw message, s') => (Throw message, s')
    | (Escapes e, s') => (Escapes e, s')
    end.

(** A conversion made by the host. *)
Definition host {S A} (c : completion A) : M S A :=
  fun s =>
    match c with
    | Normal a => (Ok a, s)
    | Abrupt e => (Escapes e, s)
    end.

Definition read {S} : M S S := fun s => (Ok s, s).
Definition write {S} (s : S) : M S unit := fun _ => (Ok tt, s).

Declare Scope js_scope.
Delimit Scope js_scope with js.
Notation "x <- c ;; k" := (bind c (fun x => k))
  (at level 61, c at next level, right associativity) : js_scope.
Notation "c ;; k" := (bind c (fun _ => k))
  (at level 61, right associativity) : js_scope.
Open Scope js_scope.

(** ** Type tags: the strings [_inferType] returns *)

Inductive tag : Type :=
| TNull | TUndefined | TNan | TArray | TDate | TRegexp | TMap | TSet
| TObject | TString | TNumber | TBoolean | TFunction.

Definition tag_name (t : tag) : jstring :=
  match t with
  | TNull => lit "null"
  | TUndefined => lit "undefined"
  | TNan => lit "nan"
  | TArray => lit "array"
  | TDate => lit "date"
  | TRegexp => lit "regexp"
  | TMap => lit "map"
  | TSet => lit "set"
  | TObject => lit "object"
  | TString => lit "string"
  | TNumber => lit "number"
  | TBoolean => lit "boolean"
  | TFunction => lit "function"
  end.

Definition tag_eqb (a b : tag) : bool :=
  match a, b with
  | TNull, TNull | TUndefined, TUndefined | TNan, TNan | TArray, TArray
  | TDate, TDate | TRegexp, TRegexp | TMap, TMap | TSet, TSet
  | TObject, TObject | TString, TString | TNumber, TNumber
  | TBoolean, TBoolean | TFunction, TFunction => true
  | _, _ => false
  end.

(** The [typeof] operator. *)
Definition typeof (v : jsval) : tag :=
  match v with
  | VUndefined => TUndefined
  | VNull => TObject
  | VBool _ => TBoolean
  | VNum _ => TNumber
  | VStr _ => TString
  | VArray _ | VObject _ => TObject
  | VHost HFunction _ _ => TFunction
  | VHost _ _ _ => TObject
  end.

Definition instanceof (v : jsval) (c : host_class) : bool :=
  match v, c with
  | VHost HDate _ _, HDate | VHost HRegExp _ _, HRegExp
  | VHost HMap _ _, HMap | VHost HSet _ _, HSet
  | VHost HFunction _ _, HFunction => true
  | _, _ => false
  end.

Definition Array_isArray (v : jsval) : bool :=
  match v with VArray _ => true | _ => false end.

Definition is_null (v : jsval) : bool :=
  match v with VNull => true | _ => false end.

Definition is_undefined (v : jsval) : bool :=
  match v with VUndefined => true | _ => false end.

(** [isNaN], [isFinite] and [Number] as global functions, on a
    primitive: the constructor calls them on a Number and on strings.
    The one call on any value, [Number(value)] in [toNumber], is
    [ToNumber]. *)
Definition isNaN (v : jsval) : bool := is_nan (primitive_number v).
Definition isFinite (v : jsval) : bool := is_finite (primitive_number v).
Definition Number (v : jsval) : number := primitive_number v.

(** [_inferType(value)]. The call [isNaN(value)] is made on a value of
    type number only. *)
Definition _inferType (value : jsval) : tag :=
  let type := typeof value in
  if is_null value then TNull
  else if is_undefined value then TUndefined
  else if tag_eqb type TNumber && isNaN value then TNan
  else if tag_eqb type TObject then
    if Array_isArray value then TArray
    else if instanceof value HDate then TDate
    else if instanceof value HRegExp then TRegexp
    else if instanceof value HMap then TMap
    else if instanceof value HSet then TSet
    else type
  else type.

(** ** The class

    The constructor, the methods and the two factories. The snapshot
    [debug] is not embedded: it hands out the history array itself, and
    the history of this model is a value of the instance, not a
    container of the store. *)

Module Options.
Record options : Type := mkOptions {
  stringLock : bool;
  boolLock : bool;
  typeLock : bool
}.
End Options.

(** An options argument: each flag may be left out. *)
Record options_arg : Type := mkOptionsArg {
  arg_stringLock : option bool;
  arg_boolLock : option bool;
  arg_typeLock : option bool
}.

Definition no_options : options_arg := mkOptionsArg None None None.

Definition or_default (o : option bool) (d : bool) : bool :=
  match o with Some b => b | None => d end.

(** [{ stringLock: false, boolLock: false, typeLock: false, ...options }] *)
Definition merge_options (o : options_arg) : Options.options :=
  Options.mkOptions
    (or_default (arg_stringLock o) false)
    (or_default (arg_boolLock o) false)
    (or_default (arg_typeLock o) false).

(** [{ ...this._options }] *)
Definition spread (o : Options.options) : options_arg :=
  mkOptionsArg (Some (Options.stringLock o)) (Some (Options.boolLock o))
    (Some (Options.typeLock o)).

Record FlexType : Type := mkFlexType {
  _initialValue : jsval;
  _name : jstring;
  _options : Options.options;
  _typeHistory : list tag;
  _inferredType : tag;
  _convertedValue : jsval
}.

(** An operand of a method: a raw value or an instance. *)
Inductive operand : Type :=
| Raw (v : jsval)
| Wrapped (f : FlexType).

Definition _unwrap (value : operand) : jsval :=
  match value with
  | Wrapped f => _convertedValue f
  | Raw v => v
  end.

Definition _getName (value : operand) : jstring :=
  match value with
  | Wrapped f => _name f
  | Raw _ => lit "literal"
  end.

(** *** Construction

    The constructor runs on [this], the instance being built, and the
    store. *)

Definition Ctor (A : Type) : Type := M (FlexType * store) A.

Definition get_this : Ctor FlexType := fun s => (Ok (fst s), s).

Definition set_this (this : FlexType) : Ctor unit :=
  fun s => (Ok tt, (this, snd s)).

Definition with_store {A} (f : store -> A * store) : Ctor A :=
  fun s => let '(a, h) := f (snd s) in (Ok a, (fst s, h)).

Definition last_tag (history : list tag) : option tag :=
  match rev history with
  | t :: _ => Some t
  | [] => None
  end.

Definition same_tag (a : option tag) (b : tag) : bool :=
  match a with
  | Some t => tag_eqb t b
  | None => false
  end.

(** Assignments to the fields that change after the first lines of the
    constructor. *)
Definition with_type (this : FlexType) (history : list tag) (t : tag)
  : FlexType :=
  mkFlexType (_initialValue this) (_name this) (_options this) history t
    (_convertedValue this).

Definition with_converted (this : FlexType) (converted : jsval) : FlexType :=
  mkFlexType (_initialValue this) (_name this) (_options this)
    (_typeHistory this) (_inferredType this) converted.

(** [_recordTypeChange(newType)] *)
Definition _recordTypeChange (newType : tag) : Ctor unit :=
  this <- get_this ;;
  let history :=
    if negb (same_tag (last_tag (_typeHistory this)) newType)
    then _typeHistory this ++ [newType]
    else _typeHistory this in
  set_this (with_type this history newType).

Definition bracketed (trimmed : jstring) : bool :=
  (startsWith trimmed (lit "{") && endsWith trimmed (lit "}"))
  || (startsWith trimmed (lit "[") && endsWith trimmed (lit "]")).

(** The end of [_convertString(str)]: the JSON conversion and the final
    [return str], which the number conversion falls through to. *)
Definition _convertString_json (str trimmed : jstring) : Ctor jsval :=
  if bracketed trimmed then
    parsed <- with_store (fun h =>
                match JSON_parse h trimmed with
                | Some (h', json) => (Some json, h')
                | None => (None, h)
                end) ;;
    match parsed with
    | Some json =>
        _recordTypeChange (if Array_isArray json then TArray else TObject) ;;
        ret json
    | None =>
        (* If JSON parsing fails, return the original string *)
        ret (VStr str)
    end
  else ret (VStr str).

(** [_convertString(str)] *)
Definition _convertString (str : jstring) : Ctor jsval :=
  this <- get_this ;;
  if Options.stringLock (_options this) then ret (VStr str)
  else
    let trimmed := trim str in
    if jstring_eqb trimmed [] then ret (VStr str)
    else
      (* Boolean conversion *)
      let lowerTrimmed := toLowerCase trimmed in
      if jstring_eqb lowerTrimmed (lit "true")
      then _recordTypeChange TBoolean ;; ret (VBool true)
      else if jstring_eqb lowerTrimmed (lit "false")
      then _recordTypeChange TBoolean ;; ret (VBool false)
      else
        (* Number conversion *)
        if negb (isNaN (VStr trimmed)) && negb (jstring_eqb trimmed [])
        then
          let num := Number (VStr trimmed) in
          if isFinite (VNum num)
          then _recordTypeChange TNumber ;; ret (VNum num)
          else _convertString_json str trimmed
        else _convertString_json str trimmed.

(** [_convertBoolean(bool)] *)
Definition _convertBoolean (bool : jsval) : Ctor jsval :=
  this <- get_this ;;
  if Options.boolLock (_options this)
  then ret (VNum (if ToBoolean bool then of_Z 1 else of_Z 0))
  else ret bool.

(** [_autoConvert(value)]. A value whose inferred type is ['string'] is a
    string: the type was inferred from it on the line before the call. *)
Definition _autoConvert (value : jsval) : Ctor jsval :=
  this <- get_this ;;
  if Options.typeLock (_options this) then ret value
  else
    match _inferredType this with
    | TString =>
        match value with
        | VStr str => _convertString str
        | _ => ret value
        end
    | TBoolean => _convertBoolean value
    | _ => ret value
    end.

Definition constructor_body (value : jsval) : Ctor unit :=
  converted <- _autoConvert value ;;
  this <- get_this ;;
  set_this (with_converted this converted) ;;
  this <- get_this ;;
  _recordTypeChange (_inferredType this).

(** [new FlexType(value, name, options)]. Every caller in the library
    passes the name; the default ['unknown'] of the parameter is the
    caller's to supply here. *)
Definition new_FlexType (value : jsval) (name : jstring)
    (opts : options_arg) : M store FlexType :=
  fun h =>
    let this :=
      mkFlexType value name (merge_options opts) [] (_inferType value)
        VUndefined in
    match constructor_body value (this, h) with
    | (Ok _, (this', h')) => (Ok this', h')
    | (Throw message, (_, h')) => (Throw message, h')
    | (Escapes e, (_, h')) => (Escapes e, h')
    end.

(** *** Lock methods: each builds a new instance from the initial value *)

Definition strLock (this : FlexType) : M store FlexType :=
  let o := spread (_options this) in
  new_FlexType (_initialValue this) (_name this)
    (mkOptionsArg (Some true) (arg_boolLock o) (arg_typeLock o)).

Definition boolLock (this : FlexType) : M store FlexType :=
  let o := spread (_options this) in
  new_FlexType (_initialValue this) (_name this)
    (mkOptionsArg (arg_stringLock o) (Some true) (arg_typeLock o)).

Definition typeLock (this : FlexType) : M store FlexType :=
  let o := spread (_options this) in
  new_FlexType (_initialValue this) (_name this)
    (mkOptionsArg (arg_stringLock o) (arg_boolLock o) (Some true)).

Definition unlock (this : FlexType) : M store FlexType :=
  new_FlexType (_initialValue this) (_name this)
    (mkOptionsArg (Some false) (Some false) (Some false)).

(** *** Getters and type checkers *)

Definition value (this : FlexType) : jsval := _convertedValue this.
Definition type (this : FlexType) : tag := _inferredType this.
Definition name (this : FlexType) : jstring := _name this.
Definition typeHistory (this : FlexType) : list tag := _typeHistory this.

Definition isLocked (this : FlexType) : bool :=
  Options.stringLock (_options this) || Options.boolLock (_options this)
  || Options.typeLock (_options this).

Definition isString (this : FlexType) := tag_eqb (_inferredType this) TString.
Definition isNumber (this : FlexType) := tag_eqb (_inferredType this) TNumber.
Definition isBoolean (this : FlexType) := tag_eqb (_inferredType this) TBoolean.
Definition isArray (this : FlexType) := tag_eqb (_inferredType this) TArray.
Definition isObject (this : FlexType) := tag_eqb (_inferredType this) TObject.
Definition isNull (this : FlexType) := tag_eqb (_inferredType this) TNull.
Definition isUndefined (this : FlexType) :=
  tag_eqb (_inferredType this) TUndefined.

(** *** Math operations *)

Definition locked_math_message (name : jstring) : jstring :=
  lit "String locked variable '" ++ name
    ++ lit "' cannot be used in mathematical operations".

(** [_mathOperation(operator, other)] *)
Definition _mathOperation (this : FlexType) (operator : jstring)
    (other : operand) : M store FlexType :=
  let otherValue := _unwrap other in
  (* Check for string lock *)
  if Options.stringLock (_options this) && isString this
  then throw (locked_math_message (_name this))
  else
    let val1 := _convertedValue this in
    (* Special handling for boolLock *)
    let val1 :=
      if Options.boolLock (_options this) && isBoolean this
      then VNum (if ToBoolean (value this) then of_Z 1 else of_Z 0)
      else val1 in
    h <- read ;;
    result <-
      (if jstring_eqb operator (lit "+") then host (js_plus h val1 otherValue)
       else if jstring_eqb operator (lit "-")
       then host (js_minus h val1 otherValue)
       else if jstring_eqb operator (lit "*")
       then host (js_times h val1 otherValue)
       else if jstring_eqb operator (lit "/")
       then host (js_divide h val1 otherValue)
       else throw (lit "Unsupported operator: " ++ operator)) ;;
    (* clamping the result to [0, 1] *)
    result <-
      (if Options.boolLock (_options this) && isBoolean this
       then
         one <- host (ToNumber h (VNum (of_Z 1))) ;;
         num <- host (ToNumber h result) ;;
         zero <- host (ToNumber h (VNum (of_Z 0))) ;;
         ret (VNum (Math_max zero (Math_min one num)))
       else ret result) ;;
    new_FlexType result
      (lit "(" ++ _name this ++ lit " " ++ operator ++ lit " "
         ++ _getName other ++ lit ")")
      no_options.

Definition add (this : FlexType) (other : operand) :=
  _mathOperation this (lit "+") other.
Definition subtract (this : FlexType) (other : operand) :=
  _mathOperation this (lit "-") other.
Definition multiply (this : FlexType) (other : operand) :=
  _mathOperation this (lit "*") other.
Definition divide (this : FlexType) (other : operand) :=
  _mathOperation this (lit "/") other.

(** *** String operation *)

(** The code units a loop over [this._convertedValue.length] visits:
    those of a string. *)
Definition code_units (v : jsval) : jstring :=
  match v with
  | VStr s => s
  | _ => []
  end.

(** [String.fromCharCode(x)] *)
Definition String_fromCharCode (h : store) (x : jsval) : completion jstring :=
  and_then (ToNumber h x) (fun n => Normal [ToUint16 n]).

(** The loop of [charShift] over the code units that are left, with the
    text built so far. *)
Fixpoint charShift_loop (h : store) (offset : jsval) (units : jstring)
    (result : jstring) : completion jstring :=
  match units with
  | [] => Normal result
  | charCode :: units' =>
      and_then (js_plus h (VNum (of_Z charCode)) offset) (fun sum =>
      and_then (String_fromCharCode h sum) (fun unit =>
      charShift_loop h offset units' (result ++ unit)))
  end.

(** [charShift(offset)] *)
Definition charShift (this : FlexType) (offset : jsval) : M store FlexType :=
  if negb (isString this)
  then throw (lit "charShift can only be used on string types. Current type: "
                ++ tag_name (_inferredType this))
  else if Options.stringLock (_options this)
  then throw (lit "String locked variable '" ++ _name this
                ++ lit "' cannot use charShift")
  else
    h <- read ;;
    result <-
      host (charShift_loop h offset (code_units (_convertedValue this)) []) ;;
    text <- host (ToString h offset) ;;
    new_FlexType (VStr result)
      (lit "charShift(" ++ _name this ++ lit ", " ++ text ++ lit ")")
      no_options.

(** *** Array and object operations *)

(** [get(property)]. The property is given as its key: a string, or
    the decimal text of an index. *)
Definition get (this : FlexType) (property : jstring) : M store FlexType :=
  if negb (isArray this) && negb (isObject this)
  then throw (lit "get() can only be used on array or object types. "
                ++ lit "Current type: " ++ tag_name (_inferredType this))
  else
    h <- read ;;
    let propValue := get_property h (_convertedValue this) property in
    new_FlexType propValue (_name this ++ lit "." ++ property) no_options.

(** [Array.prototype.push] on the array a reference denotes. *)
Definition array_push (items : list jsval) (container : jsval)
  : M store unit :=
  h <- read ;;
  match container with
  | VArray l => write (write_array h l (array_at h l ++ items))
  | _ => ret tt
  end.

(** [push(...items)]: returns the instance itself. *)
Definition push (this : FlexType) (items : list operand) : M store FlexType :=
  if negb (isArray this)
  then throw (lit "push() can only be used on array types. Current type: "
                ++ tag_name (_inferredType this))
  else
    let unwrappedItems := map (fun item => _unwrap item) items in
    array_push unwrappedItems (_convertedValue this) ;;
    ret this.

(** *** Type conversion methods *)

Definition toString (this : FlexType) : M store FlexType :=
  h <- read ;;
  text <- host (ToString h (_convertedValue this)) ;;
  new_FlexType (VStr text) (lit "String(" ++ _name this ++ lit ")") no_options.

Definition toNumber (this : FlexType) : M store FlexType :=
  h <- read ;;
  number <- host (ToNumber h (_convertedValue this)) ;;
  new_FlexType (VNum number) (lit "Number(" ++ _name this ++ lit ")")
    no_options.

Definition toBoolean (this : FlexType) : M store FlexType :=
  new_FlexType (VBool (ToBoolean (_convertedValue this)))
    (lit "Boolean(" ++ _name this ++ lit ")") no_options.

(** *** The factory *)

(** [flex(name, value, options)] *)
Definition flex (name : jsval) (value : jsval) (opts : options_arg)
  : M store FlexType :=
  match name with
  | VStr name => new_FlexType value name opts
  | _ => throw (lit "Variable name must be a string")
  end.




(** *** set

    The property write [container[key] = v] on the containers of the
    store. On an array the key is an index (below [2^32 - 1]): the write
    replaces the element, or lengthens the array, the elements in
    between reading as [undefined]. On a plain object it defines the
    property, in place when the key is there. The other writes have no
    result here, [None]: a named property of an array and its [length],
    which this store cannot hold, and the key [__proto__] of an object,
    which sets the prototype. The properties of [set] are stated for the
    keys that have a result. *)

Definition write_object (h : store) (l : nat)
    (props : list (jstring * jsval)) : store :=
  mkStore (arrays h) (update_nth (objects h) l props).

Definition array_store (elems : list jsval) (i : nat) (v : jsval)
  : list jsval :=
  if Nat.ltb i (List.length elems) then update_nth elems i v
  else elems ++ repeat VUndefined (i - List.length elems) ++ [v].

Definition put_property (h : store) (container : jsval) (key : jstring)
    (v : jsval) : option store :=
  match container with
  | VArray l =>
      match array_index key with
      | Some i =>
          if Z.of_nat i <? 2 ^ 32 - 1
          then Some (write_array h l (array_store (array_at h l) i v))
          else None
      | None => None
      end
  | VObject l =>
      if jstring_eqb key (lit "__proto__") then None
      else Some (write_object h l (define_prop (object_at h l) key v))
  | _ => None
  end.

(** [set(property, value)]: returns the instance itself. [None] is a
    write outside the store of the model, see [put_property]. *)
Definition set (this : FlexType) (property : jstring) (value : operand)
    (h : store) : option (outcome FlexType * store) :=
  if negb (isArray this) && negb (isObject this)
  then Some (Throw (lit "set() can only be used on array or object types. "
                      ++ lit "Current type: "
                      ++ tag_name (_inferredType this)), h)
  else
    let newValue := _unwrap value in
    match put_property h (_convertedValue this) property newValue with
    | Some h' => Some (Ok this, h')
    | None => None
    end.

End Flex.

(* ===================================================================== *)
(** * The coercion as the specification words it                          *)
(* ===================================================================== *)

Module Spec.
Import Host Flex.

(** "A case-insensitive exact match" of a text with a lower-case
    literal: the same length and, unit by unit, the same up to case. *)
Fixpoint matches_ignoring_case (s literal : jstring) : bool :=
  match s, literal with
  | [], [] => true
  | c :: s', l :: literal' =>
      (lower_unit c =? l) && matches_ignoring_case s' literal'
  | _, _ => false
  end.

(** "The trimmed text parses fully as a finite number." *)
Definition finite_number (trimmed : jstring) : option number :=
  match StringToNumber trimmed with
  | NaN | Inf _ => None
  | n => Some n
  end.

(** "The trimmed text begins and ends with matching braces or
    brackets." *)
Definition delimited_by (s : jstring) (opening closing : Z) : bool :=
  match s with
  | c :: _ => (c =? opening) && (last s 0 =? closing)
  | [] => false
  end.

Definition bracket_delimited (s : jstring) : bool :=
  delimited_by s 123 125 || delimited_by s 91 93.

(** The coercion of a string, in the order of precedence of the
    specification: the converted value, its type tag and the store. *)
Definition coerce_string (str : jstring) (h : store) : jsval * tag * store :=
  let trimmed := trim str in
  match trimmed with
  | [] => (VStr str, TString, h)
  | _ :: _ =>
      if matches_ignoring_case trimmed (lit "true")
      then (VBool true, TBoolean, h)
      else if matches_ignoring_case trimmed (lit "false")
      then (VBool false, TBoolean, h)
      else
        match finite_number trimmed with
        | Some n => (VNum n, TNumber, h)
        | None =>
            if bracket_delimited trimmed then
              match JSON_parse h trimmed with
              | Some (h', VArray l) => (VArray l, TArray, h')
              | Some (h', parsed) => (parsed, TObject, h')
              | None => (VStr str, TString, h)
              end
            else (VStr str, TString, h)
        end
  end.

(** The coercion of any value under given options. *)
Definition coerce (opts : Options.options) (v : jsval) (h : store)
  : jsval * tag * store :=
  if Options.typeLock opts then (v, _inferType v, h)
  else
    match v with
    | VStr str =>
        if Options.stringLock opts then (v, TString, h)
        else coerce_string str h
    | VBool b =>
        if Options.boolLock opts
        then (VNum (if b then of_Z 1 else of_Z 0), TBoolean, h)
        else (v, TBoolean, h)
    | _ => (v, _inferType v, h)
    end.

(** The left operand of a math operation on a boolean under [boolLock],
    and the clamp of its result: [Math.max(0, Math.min(1, result))]. *)
Definition one_or_zero (v : jsval) : jsval :=
  VNum (if ToBoolean v then of_Z 1 else of_Z 0).

Definition clamp01 (result : jsval) : number :=
  Math_max (of_Z 0) (Math_min (of_Z 1) (primitive_number result)).

(** An array or a plain object: the values whose conversion to a
    primitive can be abrupt. *)
Definition container (v : jsval) : bool :=
  match v with
  | VArray _ | VObject _ => true
  | _ => false
  end.

(** The math methods, each with its operator and the operation of the
    language that it applies. *)
Definition math_methods
  : list ((FlexType -> operand -> M store FlexType) * jstring
          * (store -> jsval -> jsval -> completion jsval)) :=
  [(add, lit "+", js_plus); (subtract, lit "-", js_minus);
   (multiply, lit "*", js_times); (divide, lit "/", js_divide)].

(** The special handling of a boolean under [boolLock]. *)
Definition clamps (this : FlexType) : bool :=
  Options.boolLock (_options this) && isBoolean this.

(** What a math method gives when the string lock does not stop it: the
    operation on the value, or on 1 or 0 where the special handling
    applies, whose result is then clamped; the method ends with an
    abrupt conversion of a value. *)
Definition math_result (this : FlexType) (operator : jstring)
    (operation : store -> jsval -> jsval -> completion jsval)
    (other : operand) (h : store) : outcome FlexType * store :=
  let left := if clamps this then one_or_zero (value this) else value this in
  match operation h left (_unwrap other) with
  | Normal result =>
      new_FlexType (if clamps this then VNum (clamp01 result) else result)
        (lit "(" ++ name this ++ lit " " ++ operator ++ lit " "
           ++ _getName other ++ lit ")")
        no_options h
  | Abrupt e => (Escapes e, h)
  end.

(** A Number of the closed range from 0 to 1. *)
Definition in_unit_range (n : number) : bool :=
  num_leb (of_Z 0) n && num_leb n (of_Z 1).

(** "Each math operation clamps the numeric result into the closed
    range [0,1] before wrapping", for every instance under [boolLock]
    whose type is ['boolean'] and every operand. *)
Definition clamps_into_unit_range : Prop :=
  forall (this : FlexType) (other : operand) (h : store),
    Options.boolLock (_options this) = true -> type this = TBoolean ->
    Forall
      (fun method =>
         exists r h' n,
           method this other h = (Ok r, h')
           /\ value r = VNum n /\ in_unit_range n = true)
      [add; subtract; multiply; divide].

Definition is_JObj (j : json) : Prop :=
  match j with JObj _ => True | _ => False end.

Definition is_JArr (j : json) : Prop :=
  match j with JArr _ => True | _ => False end.

(** The value a string coercion yields has the shape its tag names. *)
Definition well_tagged (str : jstring) (cv : jsval) (t : tag) : Prop :=
  match t with
  | TString => cv = VStr str
  | TBoolean => exists b, cv = VBool b
  | TNumber => exists n, cv = VNum n /\ is_finite n = true
  | TArray => exists l, cv = VArray l
  | TObject => exists l, cv = VObject l
  | _ => False
  end.

(** ** The text of a Number *)

(** A sequence of decimal digits. *)
Definition digits (ds : jstring) : Prop :=
  Forall (fun c => is_digit c = true) ds.

(** The characters [Number::toString] writes for a finite Number. *)
Definition plain (c : Z) : bool :=
  is_digit c || (c =? 43) || (c =? 45) || (c =? 46) || (c =? 101).

(** A Number with its sign replaced. *)
Definition with_sign (neg : bool) (x : number) : number :=
  match x with
  | NaN => NaN
  | Inf _ => Inf neg
  | Zero _ => Zero neg
  | Fin _ m e => Fin neg m e
  end.

(** ** The character shift

    [shift_units k s] is the text [charShift] builds from [s] for an
    integer offset [k]: every code unit moved by [k], modulo [2^16]. *)
Definition shift_units (k : Z) (s : jstring) : jstring :=
  map (fun c => (c + k) mod 65536) s.

(** The integer offsets for which [charCode + offset] is exact on every
    code unit. *)
Definition safe_offset (k : Z) : Prop := Z.abs k <= 2 ^ 53 - 65536.

(** A text that no rule of the coercion applies to. *)
Definition keeps_string (s : jstring) : bool :=
  let t := trim s in
  jstring_eqb t []
  || (negb (matches_ignoring_case t (lit "true"))
      && negb (matches_ignoring_case t (lit "false"))
      && match finite_number t with None => true | Some _ => false end
      && (negb (bracket_delimited t)
          || match JSON_parse_tree t with None => true | Some _ => false end)).

Definition hello : jstring := lit "hello".

(** [charShift(k)] then [charShift(-k)] on [flex('x', 'hello')] gives an
    instance whose value is ['hello']. *)
Definition charShift_round_trip (k : Z) : Prop :=
  forall h, exists x y z h1 h2,
    flex (VStr (lit "x")) (VStr hello) no_options h = (Ok x, h)
    /\ charShift x (VNum (of_Z k)) h = (Ok y, h1)
    /\ charShift y (VNum (of_Z (- k))) h1 = (Ok z, h2)
    /\ value z = VStr hello.

(** The integers [from], [from + 1], ... , [n] of them. *)
Fixpoint range (n : nat) (from : Z) : list Z :=
  match n with
  | O => []
  | S n' => from :: range n' (from + 1)
  end.

(** The offsets modulo [2^16]. *)
Definition residues : list Z := range (Z.to_nat 65536) 0.

(** What a conversion that yields the type [t] leaves in [this], an
    instance whose history is still empty: nothing when [t] is the type
    inferred from the raw value, the single entry [t] otherwise. *)
Definition after_conversion (this : FlexType) (t : tag) : FlexType :=
  if tag_eqb t (_inferredType this) then this else with_type this [t] t.

End Spec.

(** ** Instances used as examples: each is what the constructor builds
    from its initial value, name and options in the empty store. *)

Module Examples.
Import Host Flex.

(** [flex('id', '123').strLock()] *)
Definition locked_id : FlexType :=
  mkFlexType (VStr (lit "123")) (lit "id") (Options.mkOptions true false false)
    [TString] TString (VStr (lit "123")).

(** [flex('x', 5, { boolLock: true })] *)
Definition five_boolLocked : FlexType :=
  mkFlexType (VNum (of_Z 5)) (lit "x") (Options.mkOptions false true false)
    [TNumber] TNumber (VNum (of_Z 5)).

(** [flex('x', true).boolLock()] *)
Definition true_boolLocked : FlexType :=
  mkFlexType (VBool true) (lit "x") (Options.mkOptions false true false)
    [TBoolean] TBoolean (VNum (of_Z 1)).

(** The text [{"items":[1]}]. *)
Definition items_text : jstring :=
  [123; 34] ++ lit "items" ++ [34] ++ lit ":[1]}".

(** [flex('flag', false).boolLock()] *)
Definition false_boolLocked : FlexType :=
  mkFlexType (VBool false) (lit "flag") (Options.mkOptions false true false)
    [TBoolean] TBoolean (VNum (of_Z 0)).

(** [flex('n', 42)] *)
Definition forty_two : FlexType :=
  mkFlexType (VNum (of_Z 42)) (lit "n") (Options.mkOptions false false false)
    [TNumber] TNumber (VNum (of_Z 42)).

(** [flex('x', true)] *)
Definition true_unlocked : FlexType :=
  mkFlexType (VBool true) (lit "x") (Options.mkOptions false false false)
    [TBoolean] TBoolean (VBool true).

(** [flex('x', true).boolLock().subtract(1)] *)
Definition true_minus_one : FlexType :=
  mkFlexType (VNum (of_Z 0)) (lit "(x - literal)")
    (Options.mkOptions false false false) [TNumber] TNumber (VNum (of_Z 0)).

(** [flex('x', true).boolLock().subtract(1).toBoolean()] *)
Definition boolean_of_zero : FlexType :=
  mkFlexType (VBool false) (lit "Boolean((x - literal))")
    (Options.mkOptions false false false) [TBoolean] TBoolean (VBool false).

(** A computation run from the empty store, and the value and type of
    the instance it returns. *)
Definition run {A} (c : M store A) : outcome A := fst (c empty_store).

Definition value_and_type (c : M store FlexType) : option (jsval * tag) :=
  match run c with
  | Ok x => Some (value x, type x)
  | _ => None
  end.

End Examples.

(** ** Invariants of instances and of the store

    The predicates in which the properties of the methods are stated,
    and the instances they are run on. *)

Module Laws.
Import Host Flex Spec.

(** The values a type tag stands for. *)
Definition shape (t : tag) (v : jsval) : Prop :=
  match t with
  | TNull => v = VNull
  | TUndefined => v = VUndefined
  | TNan => v = VNum NaN
  | TNumber => exists n, v = VNum n /\ is_nan n = false
  | TString => exists s, v = VStr s
  | TBoolean => exists b, v = VBool b
  | TArray => exists l, v = VArray l
  | TObject => exists l, v = VObject l
  | TDate => exists text time, v = VHost HDate text time
  | TRegexp => exists text time, v = VHost HRegExp text time
  | TMap => exists text time, v = VHost HMap text time
  | TSet => exists text time, v = VHost HSet text time
  | TFunction => exists text time, v = VHost HFunction text time
  end.

(** The value of an instance has the shape of its type, but for a
    boolean under [boolLock], whose value is the number 1 or 0. *)
Definition well_typed (x : FlexType) : Prop :=
  shape (type x) (value x)
  \/ (type x = TBoolean /\ Options.boolLock (_options x) = true
      /\ (value x = VNum (of_Z 1) \/ value x = VNum (of_Z 0))).

(** A history in which no two consecutive entries are equal. *)
Fixpoint no_repeats (history : list tag) : bool :=
  match history with
  | a :: (b :: _) as rest => negb (tag_eqb a b) && no_repeats rest
  | _ => true
  end.

(** A reference to a container that the store holds. *)
Definition live (h : store) (v : jsval) : Prop :=
  match v with
  | VArray l => (l < List.length (arrays h))%nat
  | VObject l => (l < List.length (objects h))%nat
  | _ => True
  end.

(** A store that holds every container of another, unchanged, and
    possibly new ones after them. *)
Definition extends (h h' : store) : Prop :=
  exists new_arrays new_objects,
    arrays h' = arrays h ++ new_arrays
    /\ objects h' = objects h ++ new_objects.

(** The containers of [h] are in [h'] as they were. *)
Definition keeps_containers (h h' : store) : Prop :=
  extends h h'
  /\ (forall l, (l < List.length (arrays h))%nat ->
                array_at h' l = array_at h l)
  /\ (forall l, (l < List.length (objects h))%nat ->
                object_at h' l = object_at h l).

(** The property key of the index [i]: the text of the number. *)
Definition index_key (i : nat) : jstring := digits_of (Z.of_nat i).

(** The keys that an assignment writes as an element or as an own
    property: an index below [2^32 - 1] on an array, and every key but
    [__proto__] on a plain object. *)
Definition writes_own (container : jsval) (key : jstring) : Prop :=
  match container with
  | VArray _ => exists i, array_index key = Some i /\ Z.of_nat i < 2 ^ 32 - 1
  | VObject _ => key <> lit "__proto__"
  | _ => False
  end.

(** The arrays of the store that are not being joined. *)
Definition idle (h : store) (joining : list nat) : nat :=
  List.length
    (filter (fun l => negb (existsb (Nat.eqb l) joining))
       (seq 0 (List.length (arrays h)))).



(** The outcomes of the lock methods on one instance and one store. *)
Definition relocked (this : FlexType) (h : store)
  : list (outcome FlexType * store) :=
  [strLock this h; boolLock this h; typeLock this h; unlock this h].

(** The outcomes of the other methods that return a new instance: the
    math operations, [charShift], [get] and the type conversions. *)
Definition results (this : FlexType) (other : operand) (offset : jsval)
    (property : jstring) (h : store) : list (outcome FlexType * store) :=
  [add this other h; subtract this other h; multiply this other h;
   divide this other h; charShift this offset h; get this property h;
   toString this h; toNumber this h; toBoolean this h].

(** *** Instances and a store to run the methods on *)

Definition unlocked : Options.options := Options.mkOptions false false false.

(** [flex('n', '1e')]: a text that is no number. *)
Definition one_e : FlexType :=
  mkFlexType (VStr (lit "1e")) (lit "n") unlocked [TString] TString
    (VStr (lit "1e")).

(** [flex('x', 'hello')] and [flex('x', 'hello').charShift(1)] *)
Definition hello_x : FlexType :=
  mkFlexType (VStr hello) (lit "x") unlocked [TString] TString (VStr hello).

Definition hello_shifted : FlexType :=
  mkFlexType (VStr (lit "ifmmp")) (lit "charShift(x, 1)") unlocked [TString]
    TString (VStr (lit "ifmmp")).

(** The store after [flex('c', '{"items":[1]}')], the instance [c] it
    returns and the instance [c.get('items')]. *)
Definition items_store : store :=
  mkStore [[VNum (of_Z 1)]] [[(lit "items", VArray 0)]].

Definition items_object : FlexType :=
  mkFlexType (VStr Examples.items_text) (lit "c") unlocked [TObject] TObject
    (VObject 0).

Definition items_list : FlexType :=
  mkFlexType (VArray 0) (lit "c.items") unlocked [TArray] TArray (VArray 0).

(** [flex('j', '[2]').strLock()], and the instance and the store after
    its [unlock()] in [items_store]. *)
Definition locked_list : FlexType :=
  mkFlexType (VStr (lit "[2]")) (lit "j") (Options.mkOptions true false false)
    [TString] TString (VStr (lit "[2]")).

Definition unlocked_list : FlexType :=
  mkFlexType (VStr (lit "[2]")) (lit "j") unlocked [TArray] TArray (VArray 1).

Definition lists_store : store :=
  mkStore [[VNum (of_Z 1)]; [VNum (of_Z 2)]] [[(lit "items", VArray 0)]].

End Laws.

(* ===================================================================== *)
(** * Properties                                                          *)
(* ===================================================================== *)

Import Host Flex Spec Examples.

(** ** Construction *)

Lemma tag_eqb_refl t : tag_eqb t t = true.
Proof. destruct t; reflexivity. Qed.

Lemma tag_eqb_eq a b : tag_eqb a b = true <-> a = b.
Proof.
  split; [destruct a, b; simpl; congruence | intros ->; apply tag_eqb_refl].
Qed.

Lemma jstring_eqb_eq a b : jstring_eqb a b = true <-> a = b.
Proof.
  revert b. induction a as [|x a IH]; intros [|y b]; simpl;
    try (split; congruence).
  rewrite andb_true_iff, Z.eqb_eq, IH. split.
  - intros [-> ->]. reflexivity.
  - intros E. injection E as -> ->. auto.
Qed.

Lemma jstring_eqb_nil s : jstring_eqb s [] = match s with [] => true | _ => false end.
Proof. destruct s; reflexivity. Qed.

Lemma recordTypeChange_fresh this t h :
  _typeHistory this = [] ->
  _recordTypeChange t (this, h) = (Ok tt, (with_type this [t] t, h)).
Proof.
  intros H. unfold _recordTypeChange, bind, get_this, set_this. simpl.
  rewrite H. reflexivity.
Qed.

Lemma recordTypeChange_same this t h :
  _typeHistory this = [t] ->
  _recordTypeChange t (this, h) = (Ok tt, (with_type this [t] t, h)).
Proof.
  intros H. unfold _recordTypeChange, bind, get_this, set_this. simpl.
  rewrite H. simpl. rewrite tag_eqb_refl. reflexivity.
Qed.

Lemma lower_matches s l :
  jstring_eqb (toLowerCase s) l = matches_ignoring_case s l.
Proof.
  revert l. induction s as [|c s IH]; intros [|x l]; simpl; try reflexivity.
  rewrite IH. reflexivity.
Qed.

Lemma last_rev (s : jstring) d : last s d = hd d (rev s).
Proof.
  destruct s as [|c s] using rev_ind; [reflexivity|].
  rewrite last_last, rev_unit. reflexivity.
Qed.

Lemma startsWith_unit s c :
  startsWith s [c] = match s with x :: _ => c =? x | [] => false end.
Proof. destruct s; simpl; [reflexivity|]. apply andb_true_r. Qed.

Lemma bracketed_delimited s : bracketed s = bracket_delimited s.
Proof.
  unfold bracketed, bracket_delimited, delimited_by, endsWith.
  change (rev (lit "}")) with [125]. change (rev (lit "]")) with [93].
  change (lit "{") with [123]. change (lit "[") with [91].
  rewrite !startsWith_unit, !(last_rev s 0).
  destruct s as [|x s]; [reflexivity|].
  destruct (rev (x :: s)) as [|y r] eqn:E.
  - apply (f_equal (@List.length Z)) in E. rewrite length_rev in E. discriminate.
  - simpl. rewrite !(Z.eqb_sym x), !(Z.eqb_sym y). reflexivity.
Qed.

Lemma convertString_json_spec this str trimmed h :
  _typeHistory this = [] -> _inferredType this = TString ->
  _convertString_json str trimmed (this, h) =
    let '(cv, t, h') :=
      if bracket_delimited trimmed then
        match JSON_parse h trimmed with
        | Some (h', VArray l) => (VArray l, TArray, h')
        | Some (h', parsed) => (parsed, TObject, h')
        | None => (VStr str, TString, h)
        end
      else (VStr str, TString, h) in
    (Ok cv, (after_conversion this t, h')).
Proof.
  intros H T. unfold _convertString_json. rewrite bracketed_delimited.
  destruct (bracket_delimited trimmed);
    [|unfold after_conversion; rewrite T; reflexivity].
  unfold bind at 1. unfold with_store. cbn [fst snd].
  unfold after_conversion. rewrite T.
  destruct (JSON_parse h trimmed) as [[h' json]|]; [|reflexivity].
  unfold bind. rewrite recordTypeChange_fresh by assumption.
  destruct json; reflexivity.
Qed.

Lemma convertString_spec this str h :
  _typeHistory this = [] -> _inferredType this = TString ->
  Options.stringLock (_options this) = false ->
  _convertString str (this, h) =
    let '(cv, t, h') := coerce_string str h in
    (Ok cv, (after_conversion this t, h')).
Proof.
  intros H T L. unfold _convertString, coerce_string.
  unfold bind at 1. unfold get_this at 1. cbn [fst snd]. rewrite L.
  rewrite jstring_eqb_nil, !lower_matches.
  assert (K : forall t, t <> TString ->
            after_conversion this t = with_type this [t] t).
  { intros t Ht. unfold after_conversion. rewrite T.
    destruct t; try reflexivity. contradiction. }
  destruct (trim str) as [|c trimmed] eqn:E;
    [unfold after_conversion; rewrite T; reflexivity|].
  destruct (matches_ignoring_case _ (lit "true")).
  { unfold bind. rewrite recordTypeChange_fresh, K by (assumption || discriminate).
    reflexivity. }
  destruct (matches_ignoring_case _ (lit "false")).
  { unfold bind. rewrite recordTypeChange_fresh, K by (assumption || discriminate).
    reflexivity. }
  unfold isNaN, isFinite, Number, finite_number. cbn [primitive_number].
  destruct (StringToNumber (c :: trimmed)); cbn [is_nan is_finite negb andb];
    rewrite ?convertString_json_spec by assumption; try reflexivity;
    unfold bind; rewrite recordTypeChange_fresh, K by (assumption || discriminate);
    reflexivity.
Qed.

Lemma inferType_VNum n : _inferType (VNum n) = if is_nan n then TNan else TNumber.
Proof. destruct n; reflexivity. Qed.

Lemma autoConvert_spec this v h :
  _typeHistory this = [] -> _inferredType this = _inferType v ->
  _autoConvert v (this, h) =
    let '(cv, t, h') := coerce (_options this) v h in
    (Ok cv, (after_conversion this t, h')).
Proof.
  intros H T. unfold _autoConvert, coerce.
  unfold bind at 1. unfold get_this at 1. cbn [fst snd].
  assert (K : forall t, t = _inferType v -> after_conversion this t = this).
  { intros t ->. unfold after_conversion. rewrite T, tag_eqb_refl. reflexivity. }
  destruct (Options.typeLock (_options this)); [rewrite K; reflexivity|].
  rewrite T.
  destruct v as [| |b|n|str|l|l|c text time].
  - rewrite K; reflexivity.
  - rewrite K; reflexivity.
  - change (_inferType (VBool b)) with TBoolean in *. cbv iota.
    unfold _convertBoolean, bind, get_this. cbn [fst snd].
    destruct (Options.boolLock (_options this)); rewrite K by reflexivity;
      destruct b; reflexivity.
  - rewrite K by reflexivity. rewrite inferType_VNum. destruct (is_nan n); reflexivity.
  - change (_inferType (VStr str)) with TString in *. cbv iota.
    destruct (Options.stringLock (_options this)) eqn:L.
    + unfold _convertString, bind, get_this. cbn [fst snd]. rewrite L.
      rewrite K; reflexivity.
    + apply convertString_spec; assumption.
  - rewrite K; reflexivity.
  - rewrite K; reflexivity.
  - rewrite K by reflexivity. destruct c; reflexivity.
Qed.

Theorem new_FlexType_coerce v name o h :
  new_FlexType v name o h =
    let '(cv, t, h') := coerce (merge_options o) v h in
    (Ok (mkFlexType v name (merge_options o) [t] t cv), h').
Proof.
  unfold new_FlexType, constructor_body.
  unfold bind at 1. rewrite autoConvert_spec by reflexivity.
  cbn [_options].
  destruct (coerce (merge_options o) v h) as [[cv t] h'].
  unfold bind, get_this, set_this. cbn [fst snd].
  unfold after_conversion. cbn [_inferredType].
  destruct (tag_eqb t (_inferType v)) eqn:E.
  - apply tag_eqb_eq in E. subst t.
    rewrite recordTypeChange_fresh by reflexivity. reflexivity.
  - rewrite recordTypeChange_same by reflexivity. reflexivity.
Qed.

(** ** The type history

    Every construction leaves exactly one entry in the history: the type
    after coercion. The constructor sets [_inferredType] by assignment
    and calls [_recordTypeChange] only after the conversion, so the type
    inferred from the raw value is never pushed. *)
Lemma typeHistory_singleton v name o h :
  exists x h', new_FlexType v name o h = (Ok x, h')
               /\ typeHistory x = [type x].
Proof.
  rewrite new_FlexType_coerce.
  destruct (coerce (merge_options o) v h) as [[cv t] h'].
  eexists _, _. split; reflexivity.
Qed.

(** C1. The claim asks for a history that starts with the tag inferred
    from the raw input and gains an entry when coercion changes the type,
    so that ['42'] gives a history of length 2. The code does not do
    that: [flex('x', '42')] infers ['string'] from the raw input, coerces
    it to the number 42, and its history is the single entry ['number']. *)
Theorem C1_history_omits_raw_type (h : store) :
  exists x,
    flex (VStr (lit "x")) (VStr (lit "42")) no_options h = (Ok x, h)
    /\ _inferType (VStr (lit "42")) = TString
    /\ value x = VNum (of_Z 42)
    /\ typeHistory x = [TNumber]
    /\ List.length (typeHistory x) = 1%nat.
Proof.
  unfold flex. rewrite new_FlexType_coerce.
  eexists. split; [reflexivity|]. repeat split.
Qed.

(** ** Locks at construction *)

(** C3. Under [typeLock] no coercion is attempted, whatever the value:
    the converted value is the initial value, and the history is the
    single tag inferred from it. *)
Theorem typeLock_skips_coercion (v : jsval) (name : jstring)
    (o : options_arg) (h : store) :
  Options.typeLock (merge_options o) = true ->
  exists x,
    new_FlexType v name o h = (Ok x, h)
    /\ _initialValue x = v
    /\ value x = _initialValue x
    /\ typeHistory x = [_inferType v].
Proof.
  intros L. rewrite new_FlexType_coerce. unfold coerce. rewrite L.
  eexists. repeat split.
Qed.

Lemma typeLock_skips_coercion_witness :
  Options.typeLock (merge_options (mkOptionsArg None None (Some true))) = true
  /\ exists x,
       new_FlexType (VStr (lit "42")) (lit "x")
         (mkOptionsArg None None (Some true)) empty_store = (Ok x, empty_store)
       /\ _initialValue x = VStr (lit "42")
       /\ value x = _initialValue x
       /\ typeHistory x = [_inferType (VStr (lit "42"))].
Proof.
  split; [reflexivity|].
  apply (typeLock_skips_coercion (VStr (lit "42")) (lit "x")
           (mkOptionsArg None None (Some true)) empty_store).
  reflexivity.
Defined.

(** C7. A boolean constructed under [boolLock] (and not under
    [typeLock], which skips every conversion) is stored as the number 1
    or 0, yet its tag stays ['boolean']: [isBoolean()] is true and the
    history is [['boolean']]. *)
Theorem boolLock_keeps_boolean_tag (b : bool) (name : jstring)
    (o : options_arg) (h : store) :
  Options.boolLock (merge_options o) = true ->
  Options.typeLock (merge_options o) = false ->
  exists x,
    new_FlexType (VBool b) name o h = (Ok x, h)
    /\ value x = VNum (if b then of_Z 1 else of_Z 0)
    /\ type x = TBoolean
    /\ isBoolean x = true
    /\ typeHistory x = [TBoolean].
Proof.
  intros B L. rewrite new_FlexType_coerce. unfold coerce. rewrite L, B.
  eexists. repeat split.
Qed.

Lemma boolLock_keeps_boolean_tag_witness :
  Options.boolLock (merge_options (mkOptionsArg None (Some true) None)) = true
  /\ Options.typeLock (merge_options (mkOptionsArg None (Some true) None)) = false
  /\ exists x,
       new_FlexType (VBool true) (lit "flag")
         (mkOptionsArg None (Some true) None) empty_store = (Ok x, empty_store)
       /\ value x = VNum (of_Z 1)
       /\ type x = TBoolean
       /\ isBoolean x = true
       /\ typeHistory x = [TBoolean].
Proof.
  split; [reflexivity|]. split; [reflexivity|].
  apply (boolLock_keeps_boolean_tag true (lit "flag")
           (mkOptionsArg None (Some true) None) empty_store); reflexivity.
Defined.

(** ** Math operations *)

(** C4. On an instance under [stringLock] whose type is ['string'], each
    of [add], [subtract], [multiply] and [divide] throws the error that
    names the instance, for every operand, and leaves the store as it
    was. *)
Theorem stringLock_blocks_math (this : FlexType) (other : operand) (h : store) :
  Options.stringLock (_options this) = true ->
  type this = TString ->
  let failure : outcome FlexType * store :=
    (Throw (lit "String locked variable '" ++ name this
              ++ lit "' cannot be used in mathematical operations"), h) in
  add this other h = failure
  /\ subtract this other h = failure
  /\ multiply this other h = failure
  /\ divide this other h = failure.
Proof.
  intros L T. unfold add, subtract, multiply, divide, _mathOperation, isString.
  unfold type in T. rewrite L, T. repeat split.
Qed.

Lemma stringLock_blocks_math_witness :
  new_FlexType (VStr (lit "123")) (lit "id")
    (mkOptionsArg (Some true) None None) empty_store
    = (Ok locked_id, empty_store)
  /\ Options.stringLock (_options locked_id) = true
  /\ type locked_id = TString
  /\ add locked_id (Raw (VNum (of_Z 1))) empty_store
     = (Throw (lit "String locked variable 'id' cannot be used in "
                 ++ lit "mathematical operations"), empty_store).
Proof.
  split; [reflexivity|]. split; [reflexivity|]. split; [reflexivity|].
  apply (stringLock_blocks_math locked_id (Raw (VNum (of_Z 1))) empty_store);
    reflexivity.
Defined.

Lemma num_ltb_asym x y : num_ltb x y = true -> num_ltb y x = false.
Proof.
  destruct x as [|a|a|a m e], y as [|b|b|b m' e']; simpl;
    try congruence; try (destruct a; simpl; congruence);
    try (destruct b; simpl; congruence);
    try (destruct a, b; simpl; congruence);
    rewrite ?(Z.min_comm e' e), ?(Z.min_comm 0 e), ?(Z.min_comm e' 0);
    rewrite Z.ltb_lt, Z.ltb_ge; lia.
Qed.

(** The clamp of the source: [Math.max(0, Math.min(1, r))]. *)
Lemma clamp_range (r : number) :
  let v := Math_max (of_Z 0) (Math_min (of_Z 1) r) in
  (is_nan r = true /\ v = NaN)
  \/ (is_nan r = false /\ num_leb (of_Z 0) v = true /\ num_leb v (of_Z 1) = true).
Proof.
  intros v. destruct (is_nan r) eqn:N.
  { left. split; [reflexivity|]. destruct r; try discriminate. reflexivity. }
  right. split; [reflexivity|].
  assert (M : exists m, Math_min (of_Z 1) r = m /\ is_nan m = false
                        /\ (m = of_Z 1 \/ num_ltb m (of_Z 1) = true)).
  { unfold Math_min. rewrite N. change (is_nan (of_Z 1)) with false. cbn [orb].
    destruct (num_ltb r (of_Z 1)) eqn:A; [eauto|].
    destruct (num_ltb (of_Z 1) r) eqn:B; [eexists; repeat split; auto|].
    destruct r as [| | [|] |]; try discriminate; eexists; repeat split; auto. }
  destruct M as (m & Hm & Nm & Bm). subst v. rewrite Hm. clear Hm N r.
  assert (L1 : num_leb m (of_Z 1) = true).
  { unfold num_leb. rewrite Nm. destruct Bm as [-> | Bm]; [reflexivity|].
    rewrite (num_ltb_asym _ _ Bm). reflexivity. }
  unfold Math_max. rewrite Nm. change (is_nan (of_Z 0)) with false. cbn [orb].
  destruct (num_ltb (of_Z 0) m) eqn:A.
  { split; [|exact L1]. unfold num_leb. rewrite Nm, (num_ltb_asym _ _ A). reflexivity. }
  destruct (num_ltb m (of_Z 0)) eqn:B; [split; reflexivity|].
  destruct m as [| | [|] |]; split; reflexivity.
Qed.

(** The result of a math operation: a new instance on a numeric value. *)
Lemma new_FlexType_number n name o h :
  new_FlexType (VNum n) name o h =
    (Ok (mkFlexType (VNum n) name (merge_options o) [_inferType (VNum n)]
           (_inferType (VNum n)) (VNum n)), h).
Proof.
  rewrite new_FlexType_coerce. unfold coerce.
  destruct (Options.typeLock _); reflexivity.
Qed.

Ltac eval_literals :=
  repeat match goal with
  | |- context [jstring_eqb (lit ?a) (lit ?b)] =>
      let v := eval vm_compute in (jstring_eqb (lit a) (lit b)) in
      change (jstring_eqb (lit a) (lit b)) with v
  end; cbv iota.

Lemma ToNumber_VNum h n : ToNumber h (VNum n) = Normal n.
Proof. reflexivity. Qed.

(** The result of an operation of the language is a primitive: a string
    or a Number. *)
Lemma operation_primitive h a b r :
  js_plus h a b = Normal r \/ js_minus h a b = Normal r
  \/ js_times h a b = Normal r \/ js_divide h a b = Normal r ->
  ToNumber h r = Normal (primitive_number r).
Proof.
  unfold js_plus, js_minus, js_times, js_divide, numeric.
  intros [E|[E|[E|E]]]; revert E.
  - destruct (ToPrimitive h HintDefault a) as [pa|]; [|discriminate].
    destruct (ToPrimitive h HintDefault b) as [pb|]; [|discriminate].
    cbn [and_then]. intros E. injection E as <-.
    destruct pa, pb; reflexivity.
  - destruct (ToNumber h a); [|discriminate].
    destruct (ToNumber h b); [|discriminate].
    intros E. injection E as <-. reflexivity.
  - destruct (ToNumber h a); [|discriminate].
    destruct (ToNumber h b); [|discriminate].
    intros E. injection E as <-. reflexivity.
  - destruct (ToNumber h a); [|discriminate].
    destruct (ToNumber h b); [|discriminate].
    intros E. injection E as <-. reflexivity.
Qed.

(** [_mathOperation] off the string lock, for an operator that the
    switch knows. *)
Lemma mathOperation_dispatch (this : FlexType) (operator : jstring)
    (operation : store -> jsval -> jsval -> completion jsval)
    (other : operand) (h : store) :
  Options.stringLock (_options this) && isString this = false ->
  (forall a b r, operation h a b = Normal r ->
                 ToNumber h r = Normal (primitive_number r)) ->
  (forall a b,
     (if jstring_eqb operator (lit "+") then host (js_plus h a b)
      else if jstring_eqb operator (lit "-") then host (js_minus h a b)
      else if jstring_eqb operator (lit "*") then host (js_times h a b)
      else if jstring_eqb operator (lit "/") then host (js_divide h a b)
      else throw (lit "Unsupported operator: " ++ operator))
     = (host (operation h a b) : M store jsval)) ->
  _mathOperation this operator other h
  = math_result this operator operation other h.
Proof.
  intros S P D. unfold _mathOperation, math_result, clamps. rewrite S.
  unfold bind at 1. unfold read at 1. cbv beta iota. rewrite D.
  unfold value, name, one_or_zero.
  destruct (operation h _ _) as [result|e] eqn:E;
    unfold bind at 1; unfold host at 1; [|reflexivity].
  destruct (Options.boolLock (_options this) && isBoolean this);
    [|reflexivity].
  unfold bind, host. rewrite !ToNumber_VNum, (P _ _ _ E). reflexivity.
Qed.

(** The four math methods off the string lock. *)
Lemma mathOperation_result (this : FlexType) (other : operand) (h : store) :
  Options.stringLock (_options this) && isString this = false ->
  Forall
    (fun '(method, operator, operation) =>
       method this other h = math_result this operator operation other h)
    math_methods.
Proof.
  intros S. unfold math_methods.
  repeat apply Forall_cons; try apply Forall_nil;
    unfold add, subtract, multiply, divide;
    (apply mathOperation_dispatch;
     [exact S
     |intros a b r E; apply (operation_primitive h a b r); tauto
     |intros a b; eval_literals; reflexivity]).
Qed.

(** What [ToPrimitive] gives is a primitive: no container and no host
    object. *)
Lemma ToPrimitive_primitive h preferred v p :
  ToPrimitive h preferred v = Normal p ->
  match p with
  | VArray _ | VObject _ | VHost _ _ _ => False
  | _ => True
  end.
Proof.
  destruct v as [| |b|n|s|l|l|c text time]; cbn [ToPrimitive];
    try (intros E; injection E as <-; exact I).
  - destruct (ToString h (VArray l)); [|discriminate].
    intros E. injection E as <-. exact I.
  - unfold OrdinaryToPrimitive, method_result.
    destruct (lookup_prop (object_at h l) (lit "toString")) as [f|];
      destruct (lookup_prop (object_at h l) (lit "valueOf")) as [g|];
      destruct preferred;
      repeat match goal with
             | |- context [IsCallable ?x] => destruct (IsCallable x)
             end;
      cbn [and_then]; try discriminate;
      intros E; injection E as <-; exact I.
  - destruct c, preferred; intros E; injection E as <-; exact I.
Qed.

(** A value that is no container converts. *)
Lemma ToPrimitive_no_container h preferred v :
  container v = false ->
  exists p, ToPrimitive h preferred v = Normal p /\ container p = false.
Proof.
  destruct v as [| |b|n|s|l|l|c text time]; try discriminate; intros _;
    try (eexists; split; reflexivity).
  destruct c, preferred; eexists; split; reflexivity.
Qed.

Lemma operation_no_container h a b :
  container a = false -> container b = false ->
  Forall (fun '(_, _, operation) => exists r, operation h a b = Normal r)
    math_methods.
Proof.
  intros A B.
  destruct (ToPrimitive_no_container h HintDefault a A) as (pa & PA & _).
  destruct (ToPrimitive_no_container h HintDefault b B) as (pb & PB & _).
  destruct (ToPrimitive_no_container h HintNumber a A) as (na & NA & _).
  destruct (ToPrimitive_no_container h HintNumber b B) as (nb & NB & _).
  unfold math_methods, js_plus, js_minus, js_times, js_divide, numeric,
    ToNumber.
  repeat constructor; rewrite ?PA, ?PB, ?NA, ?NB; eexists; reflexivity.
Qed.

(** C5, as amended. On an instance under [boolLock] whose type is
    ['boolean'], each math operation takes 1 or 0 for the left operand
    and applies the operator. When the host converts the operand, which
    it does for every operand that is no array and no object, the
    operation returns a new instance on
    [Math.max(0, Math.min(1, result))], a Number between 0 and 1, or
    [NaN] when the result of the operator is not a number; when the
    conversion of the operand is abrupt, the operation ends with it, the
    [TypeError] of the host or the call at which the model stops, and
    the store is as it was. In particular
    [flex('x', true).boolLock().subtract(1)] has the value 0, and
    [toBoolean()] of it the value [false]. *)
Theorem boolLock_math_clamps (this : FlexType) (other : operand) (h : store) :
  Options.boolLock (_options this) = true ->
  type this = TBoolean ->
  let left := one_or_zero (value this) in
  let right := _unwrap other in
  Forall
    (fun '(method, _, operation) =>
       match operation h left right with
       | Normal result =>
           exists r, method this other h = (Ok r, h)
                     /\ value r = VNum (clamp01 result)
                     /\ (clamp01 result = NaN
                         /\ is_nan (primitive_number result) = true
                         \/ in_unit_range (clamp01 result) = true)
       | Abrupt e => method this other h = (Escapes e, h)
       end
       /\ (container right = false ->
           exists r, method this other h = (Ok r, h)))
    math_methods
  /\ (exists x y z w,
        flex (VStr (lit "x")) (VBool true) no_options h = (Ok x, h)
        /\ boolLock x h = (Ok y, h)
        /\ subtract y (Raw (VNum (of_Z 1))) h = (Ok z, h)
        /\ value z = VNum (of_Z 0)
        /\ toBoolean z h = (Ok w, h)
        /\ value w = VBool false).
Proof.
  intros B T left right. unfold type in T.
  assert (S : Options.stringLock (_options this) && isString this = false).
  { unfold isString. rewrite T. apply andb_false_r. }
  assert (C : clamps this = true).
  { unfold clamps, isBoolean. rewrite T, B. reflexivity. }
  assert (R : forall result,
            clamp01 result = NaN /\ is_nan (primitive_number result) = true
            \/ in_unit_range (clamp01 result) = true).
  { intros result. unfold clamp01, in_unit_range.
    destruct (clamp_range (primitive_number result)) as [[N E] | [N [L1 L2]]];
      [left; auto|right]. cbv zeta in L1, L2. rewrite L1, L2. reflexivity. }
  split.
  - pose proof (mathOperation_result this other h S) as M.
    rewrite Forall_forall in *. intros [[method operator] operation] I.
    specialize (M _ I). cbv beta iota in M. rewrite M.
    unfold math_result. rewrite C. fold left. fold right.
    split.
    + destruct (operation h left right) as [result|e]; [|reflexivity].
      rewrite new_FlexType_number. eexists. repeat split. apply R.
    + intros NC.
      pose proof (operation_no_container h left right eq_refl NC) as N.
      rewrite Forall_forall in N. specialize (N _ I). cbv beta iota in N.
      destruct N as (result & ->). rewrite new_FlexType_number.
      eexists. reflexivity.
  - exists true_unlocked, true_boolLocked, true_minus_one, boolean_of_zero.
    split; [unfold flex; rewrite new_FlexType_coerce; reflexivity|].
    split; [unfold boolLock; rewrite new_FlexType_coerce; reflexivity|].
    split.
    { pose proof (mathOperation_result true_boolLocked
                    (Raw (VNum (of_Z 1))) h eq_refl) as M.
      rewrite Forall_forall in M.
      rewrite (M (subtract, lit "-", js_minus)) by (right; left; reflexivity).
      vm_compute. reflexivity. }
    split; [reflexivity|].
    split; [unfold toBoolean; rewrite new_FlexType_coerce; reflexivity|].
    reflexivity.
Qed.

Lemma boolLock_math_clamps_witness :
  new_FlexType (VBool true) (lit "x") (mkOptionsArg None (Some true) None)
    empty_store = (Ok true_boolLocked, empty_store)
  /\ Options.boolLock (_options true_boolLocked) = true
  /\ type true_boolLocked = TBoolean
  /\ exists r, add true_boolLocked (Raw (VNum (StringToNumber (lit "0.5"))))
                 empty_store = (Ok r, empty_store)
               /\ value r = VNum (of_Z 1).
Proof.
  split; [reflexivity|]. split; [reflexivity|]. split; [reflexivity|].
  pose proof (proj1 (boolLock_math_clamps true_boolLocked
                       (Raw (VNum (StringToNumber (lit "0.5")))) empty_store
                       eq_refl eq_refl)) as M.
  rewrite Forall_forall in M.
  destruct (M (add, lit "+", js_plus) (or_introl eq_refl)) as [A _].
  vm_compute in A. destruct A as (r & A & V & _). exists r. auto.
Defined.

(** C5, the claim as stated fails: [flex('flag', false).boolLock()]
    divided by 0 is [NaN], which is no Number of the range from 0 to
    1. *)
Lemma boolLock_math_leaves_unit_range : ~ clamps_into_unit_range.
Proof.
  intros H.
  specialize (H false_boolLocked (Raw (VNum (of_Z 0))) empty_store
                eq_refl eq_refl).
  inversion H as [|? ? _ H1]; subst. inversion H1 as [|? ? _ H2]; subst.
  inversion H2 as [|? ? _ H3]; subst. inversion H3 as [|? ? D _]; subst.
  destruct D as (r & h' & n & D & V & U).
  vm_compute in D. injection D as <- <-.
  injection V as <-. discriminate U.
Qed.

(** C9. The clamp and the 1/0 coercion need [boolLock] and the type
    ['boolean'] together. On every other instance that the string lock
    does not stop, each math operation wraps the plain result of the
    operator on the value as it is: on a number [n] under [boolLock] and
    a numeric operand [k] the value is [n] operator [k], and [5 - 10] is
    [-5]; on a boolean without [boolLock] the language converts the
    boolean and nothing is clamped, [true + 5] is [6]. *)
Theorem boolLock_number_unclamped (this : FlexType) (other : operand)
    (h : store) :
  Options.boolLock (_options this) && isBoolean this = false ->
  Options.stringLock (_options this) && isString this = false ->
  Forall
    (fun '(method, operator, operation) =>
       method this other h
       = match operation h (value this) (_unwrap other) with
         | Normal result =>
             new_FlexType result
               (lit "(" ++ name this ++ lit " " ++ operator ++ lit " "
                  ++ _getName other ++ lit ")")
               no_options h
         | Abrupt e => (Escapes e, h)
         end)
    math_methods
  /\ (forall n k,
        value this = VNum n -> _unwrap other = VNum k ->
        (exists r, subtract this other h = (Ok r, h)
                   /\ value r = VNum (num_sub n k))
        /\ (exists r, add this other h = (Ok r, h)
                      /\ value r = VNum (num_add n k))
        /\ (exists r, multiply this other h = (Ok r, h)
                      /\ value r = VNum (num_mul n k))
        /\ (exists r, divide this other h = (Ok r, h)
                      /\ value r = VNum (num_div n k)))
  /\ (forall b k,
        value this = VBool b -> _unwrap other = VNum k ->
        exists r, add this other h = (Ok r, h)
                  /\ value r = VNum (num_add (if b then of_Z 1 else of_Z 0) k)).
Proof.
  intros I S.
  pose proof (mathOperation_result this other h S) as M.
  unfold math_methods, math_result, clamps in M. rewrite I in M.
  split; [exact M|].
  inversion M as [|? ? Ea M1]; subst. inversion M1 as [|? ? Es M2]; subst.
  inversion M2 as [|? ? Em M3]; subst. inversion M3 as [|? ? Ed _]; subst.
  split.
  - intros n k V O. rewrite Ea, Es, Em, Ed, V, O.
    unfold js_plus, js_minus, js_times, js_divide, numeric.
    cbn [ToPrimitive ToNumber and_then primitive_number].
    rewrite !new_FlexType_number. repeat split; eexists; split; reflexivity.
  - intros b k V O. rewrite Ea, V, O. unfold js_plus.
    cbn [ToPrimitive and_then primitive_number].
    rewrite new_FlexType_number. eexists; split; reflexivity.
Qed.

Lemma boolLock_number_unclamped_witness :
  new_FlexType (VNum (of_Z 5)) (lit "x") (mkOptionsArg None (Some true) None)
    empty_store = (Ok five_boolLocked, empty_store)
  /\ Options.boolLock (_options five_boolLocked) = true
  /\ Options.boolLock (_options five_boolLocked) && isBoolean five_boolLocked
     = false
  /\ Options.stringLock (_options five_boolLocked) && isString five_boolLocked
     = false
  /\ (exists r, subtract five_boolLocked (Raw (VNum (of_Z 10))) empty_store
                = (Ok r, empty_store)
                /\ value r = VNum (of_Z (-5)))
  /\ new_FlexType (VBool true) (lit "x") no_options empty_store
     = (Ok true_unlocked, empty_store)
  /\ Options.boolLock (_options true_unlocked) && isBoolean true_unlocked
     = false
  /\ Options.stringLock (_options true_unlocked) && isString true_unlocked
     = false
  /\ (exists r, add true_unlocked (Raw (VNum (of_Z 5))) empty_store
                = (Ok r, empty_store)
                /\ value r = VNum (of_Z 6)).
Proof.
  split; [reflexivity|]. split; [reflexivity|]. split; [reflexivity|].
  split; [reflexivity|].
  split.
  { exact (proj1 (proj1 (proj2 (boolLock_number_unclamped five_boolLocked
                                  (Raw (VNum (of_Z 10))) empty_store
                                  eq_refl eq_refl))
                   (of_Z 5) (of_Z 10) eq_refl eq_refl)). }
  split; [reflexivity|]. split; [reflexivity|]. split; [reflexivity|].
  exact (proj2 (proj2 (boolLock_number_unclamped true_unlocked
                         (Raw (VNum (of_Z 5))) empty_store eq_refl eq_refl))
           true (of_Z 5) eq_refl eq_refl).
Defined.

(** ** String coercion *)

Lemma parse_members_object fuel : forall s acc j r,
  parse_members fuel s acc = Some (j, r) -> is_JObj j.
Proof.
  induction fuel as [|f IH]; intros s acc j r; simpl; [discriminate|].
  destruct (skip_ws s) as [|q r0]; [discriminate|].
  destruct (q =? 34); [|discriminate].
  destruct (parse_string_body r0) as [[key r1]|]; [|discriminate].
  destruct (skip_ws r1) as [|c r2]; [discriminate|].
  destruct (c =? 58); [|discriminate].
  destruct (parse_value f r2) as [[v r3]|]; [|discriminate].
  destruct (skip_ws r3) as [|c' r4]; [discriminate|].
  destruct (c' =? 44); [apply IH|].
  destruct (c' =? 125); [|discriminate].
  intros E. injection E as <- _. exact I.
Qed.

Lemma parse_elements_array fuel : forall s acc j r,
  parse_elements fuel s acc = Some (j, r) -> is_JArr j.
Proof.
  induction fuel as [|f IH]; intros s acc j r; simpl; [discriminate|].
  destruct (parse_value f s) as [[v r1]|]; [|discriminate].
  destruct (skip_ws r1) as [|c r']; [discriminate|].
  destruct (c =? 44); [apply IH|].
  destruct (c =? 93); [|discriminate].
  intros E. injection E as <- _. exact I.
Qed.

Lemma parse_value_bracket fuel c r j rest :
  parse_value fuel (c :: r) = Some (j, rest) ->
  (c = 123 -> is_JObj j) /\ (c = 91 -> is_JArr j).
Proof.
  destruct fuel as [|f]; [simpl; intros E; discriminate E|].
  intros P. split; intros ->; simpl in P.
  - destruct (skip_ws r) as [|c' r']; [discriminate|].
    destruct (c' =? 125).
    + injection P as <- _. exact I.
    + eapply parse_members_object, P.
  - destruct (skip_ws r) as [|c' r']; [discriminate|].
    destruct (c' =? 93).
    + injection P as <- _. exact I.
    + eapply parse_elements_array, P.
Qed.

Lemma allocate_container h j :
  (is_JObj j -> exists l, snd (allocate h j) = VObject l)
  /\ (is_JArr j -> exists l, snd (allocate h j) = VArray l).
Proof.
  destruct j; simpl; split; try contradiction; intros _.
  - match goal with |- context [let '(_, _) := ?x in _] => destruct x end.
    eexists; reflexivity.
  - match goal with |- context [let '(_, _) := ?x in _] => destruct x end.
    eexists; reflexivity.
Qed.

(** [JSON.parse] of a bracket-delimited text yields a container: an
    array for brackets, an object for braces. *)
Lemma JSON_parse_container h t h' v :
  bracket_delimited t = true ->
  JSON_parse h t = Some (h', v) ->
  (exists l, v = VArray l) \/ (exists l, v = VObject l).
Proof.
  unfold bracket_delimited, delimited_by, JSON_parse, JSON_parse_tree.
  destruct t as [|c r]; [discriminate|].
  intros B. destruct (parse_value _ (c :: r)) as [[j rest]|] eqn:P; [|discriminate].
  destruct (skip_ws rest); [|discriminate].
  intros E. injection E as E. 
  apply parse_value_bracket in P. destruct P as [PO PA].
  apply orb_true_iff in B. destruct B as [B|B]; apply andb_true_iff in B;
    destruct B as [B _]; apply Z.eqb_eq in B.
  - right. destruct (proj1 (allocate_container h j) (PO B)) as [l Hl].
    exists l. rewrite <- Hl, E. reflexivity.
  - left. destruct (proj2 (allocate_container h j) (PA B)) as [l Hl].
    exists l. rewrite <- Hl, E. reflexivity.
Qed.

Lemma coerce_string_well_tagged str h :
  let '(cv, t, _) := coerce_string str h in well_tagged str cv t.
Proof.
  unfold coerce_string. destruct (trim str) as [|c r]; [reflexivity|].
  destruct (matches_ignoring_case _ _); [simpl; eauto|].
  destruct (matches_ignoring_case _ _); [simpl; eauto|].
  unfold finite_number.
  assert (J : let '(cv, t, _) :=
    if bracket_delimited (c :: r)
    then
     match JSON_parse h (c :: r) with
     | Some (h', VArray l) => (VArray l, TArray, h')
     | Some (h', parsed) => (parsed, TObject, h')
     | None => (VStr str, TString, h)
     end
    else (VStr str, TString, h) in well_tagged str cv t).
  { destruct (bracket_delimited (c :: r)) eqn:B; [|reflexivity].
    destruct (JSON_parse h (c :: r)) as [[h' v]|] eqn:P; [|reflexivity].
    destruct (JSON_parse_container _ _ _ _ B P) as [[l ->]|[l ->]]; simpl; eauto. }
  destruct (StringToNumber (c :: r)); try exact J; simpl; eauto.
Qed.

(** C2. With [stringLock] and [typeLock] off, the construction from a
    string never throws and yields what [coerce_string] describes: the
    trimmed text decides, in this order: empty, the string itself;
    [true] or [false] in any case, the boolean; a finite number, that
    number; text in matching braces or brackets, the parsed object or
    array, or the original string when it does not parse; otherwise the
    string itself. *)
Theorem string_coercion_precedence (str name : jstring) (o : options_arg)
    (h : store) :
  Options.stringLock (merge_options o) = false ->
  Options.typeLock (merge_options o) = false ->
  exists x h',
    new_FlexType (VStr str) name o h = (Ok x, h')
    /\ (value x, type x, h') = coerce_string str h
    /\ well_tagged str (value x) (type x).
Proof.
  intros S T. rewrite new_FlexType_coerce. unfold coerce. rewrite S, T.
  pose proof (coerce_string_well_tagged str h) as W.
  destruct (coerce_string str h) as [[cv t] h'].
  eexists _, _. repeat split. exact W.
Qed.

Lemma string_coercion_precedence_witness :
  Options.stringLock (merge_options no_options) = false
  /\ Options.typeLock (merge_options no_options) = false
  /\ exists x h',
       new_FlexType (VStr (lit " [1, 2] ")) (lit "x") no_options empty_store
       = (Ok x, h')
       /\ (value x, type x, h')
          = (VArray 0, TArray, mkStore [[VNum (of_Z 1); VNum (of_Z 2)]] [])
       /\ well_tagged (lit " [1, 2] ") (value x) (type x).
Proof.
  split; [reflexivity|]. split; [reflexivity|].
  exact (string_coercion_precedence (lit " [1, 2] ") (lit "x") no_options
           empty_store eq_refl eq_refl).
Defined.

(** ** Shared containers *)

Lemma update_nth_app {A} (l : list A) x y r :
  update_nth (l ++ x :: r) (List.length l) y = l ++ y :: r.
Proof. induction l as [|a l IH]; simpl; [reflexivity|]. rewrite IH. reflexivity. Qed.

Lemma update_nth_same {A} (l : list A) i y d :
  (i < List.length l)%nat -> nth i (update_nth l i y) d = y.
Proof.
  revert i. induction l as [|a l IH]; intros [|i] H; simpl in *; try lia; [reflexivity|].
  apply IH. lia.
Qed.

Lemma array_at_write h l elems :
  (l < List.length (arrays h))%nat -> array_at (write_array h l elems) l = elems.
Proof. intros H. unfold array_at, write_array. simpl. apply update_nth_same, H. Qed.

Lemma new_FlexType_array l name o h :
  new_FlexType (VArray l) name o h =
    (Ok (mkFlexType (VArray l) name (merge_options o) [TArray] TArray (VArray l)), h).
Proof.
  rewrite new_FlexType_coerce. unfold coerce.
  destruct (Options.typeLock _); reflexivity.
Qed.

(** [get] of a property that holds an array returns an instance on the
    same array; nothing is copied and the store is untouched. *)
Lemma get_shares_array this key l h :
  isArray this || isObject this = true ->
  get_property h (value this) key = VArray l ->
  exists r, get this key h = (Ok r, h)
            /\ value r = VArray l /\ type r = TArray.
Proof.
  intros T P. unfold get. rewrite <- negb_orb, T. cbn [negb].
  unfold bind, read. unfold value in P. rewrite P, new_FlexType_array.
  eexists. repeat split.
Qed.

(** [push] appends to the array the instance refers to, in the store. *)
Lemma push_appends this l items h :
  type this = TArray -> value this = VArray l ->
  push this items h
  = (Ok this, write_array h l (array_at h l ++ map _unwrap items)).
Proof.
  intros T V. unfold push, isArray. unfold type in T. unfold value in V.
  rewrite T, V. reflexivity.
Qed.

Lemma items_tree :
  JSON_parse_tree items_text
  = Some (JObj [(lit "items", JArr [JNum (of_Z 1)])]).
Proof. vm_compute. reflexivity. Qed.

Lemma coerce_string_json str h tree :
  negb (jstring_eqb (trim str) [])
  && negb (matches_ignoring_case (trim str) (lit "true"))
  && negb (matches_ignoring_case (trim str) (lit "false"))
  && match finite_number (trim str) with None => true | Some _ => false end
  && bracket_delimited (trim str) = true ->
  JSON_parse_tree (trim str) = Some tree ->
  coerce_string str h =
    let '(h', v) := allocate h tree in
    (v, if Array_isArray v then TArray else TObject, h').
Proof.
  intros C P. unfold coerce_string, JSON_parse. rewrite P.
  rewrite !andb_true_iff, !negb_true_iff in C.
  destruct C as ((((C1 & C2) & C3) & C4) & C5).
  rewrite C2, C3, C5. rewrite jstring_eqb_nil in C1.
  destruct (trim str); [discriminate|].
  destruct (finite_number _); [discriminate|].
  destruct (allocate h tree) as [h' v]. destruct v; reflexivity.
Qed.

Lemma flex_items h :
  flex (VStr (lit "c")) (VStr items_text) no_options h =
    (Ok (mkFlexType (VStr items_text) (lit "c") (merge_options no_options)
           [TObject] TObject (VObject (List.length (objects h)))),
     mkStore (arrays h ++ [[VNum (of_Z 1)]])
       (objects h ++ [[(lit "items", VArray (List.length (arrays h)))]])).
Proof.
  unfold flex. rewrite new_FlexType_coerce.
  unfold coerce.
  cbn [Options.typeLock Options.stringLock merge_options no_options
       or_default arg_typeLock arg_stringLock].
  rewrite (coerce_string_json items_text h
             (JObj [(lit "items", JArr [JNum (of_Z 1)])]));
    [reflexivity | vm_compute; reflexivity | vm_compute; reflexivity].
Qed.

(** C8. [get] returns an instance on the very container the property
    holds. From [flex('c', '{"items":[1]}')] in any store: [get('items')]
    gives an instance [i] on the array, [i.push(2)] appends to it, and a
    second [get('items')] on the original instance gives the same array,
    now [[1, 2]]. The original instance keeps its type ['object'] and its
    history. *)
Theorem get_push_aliasing (h : store) :
  exists c i j h1 h2 l,
    flex (VStr (lit "c")) (VStr items_text) no_options h = (Ok c, h1)
    /\ get c (lit "items") h1 = (Ok i, h1)
    /\ value i = VArray l
    /\ array_at h1 l = [VNum (of_Z 1)]
    /\ push i [Raw (VNum (of_Z 2))] h1 = (Ok i, h2)
    /\ get c (lit "items") h2 = (Ok j, h2)
    /\ value j = VArray l
    /\ array_at h2 l = [VNum (of_Z 1); VNum (of_Z 2)]
    /\ type c = TObject
    /\ typeHistory c = [TObject].
Proof.
  set (l := List.length (arrays h)).
  set (h1 := mkStore (arrays h ++ [[VNum (of_Z 1)]])
       (objects h ++ [[(lit "items", VArray l)]])).
  set (c := mkFlexType (VStr items_text) (lit "c") (merge_options no_options)
           [TObject] TObject (VObject (List.length (objects h)))).
  assert (A1 : array_at h1 l = [VNum (of_Z 1)]).
  { unfold array_at, h1, l. cbn [arrays]. apply nth_middle. }
  assert (P1 : forall elems,
             get_property (mkStore elems (objects h1)) (value c) (lit "items")
             = VArray l).
  { intros elems. unfold get_property, c, value, object_at, h1.
    cbn [_convertedValue objects].
    rewrite nth_middle. reflexivity. }
  destruct (get_shares_array c (lit "items") l h1 eq_refl (P1 (arrays h1)))
    as (i & Gi & Vi & Ti).
  pose proof (push_appends i l [Raw (VNum (of_Z 2))] h1 Ti Vi) as Pu.
  rewrite A1 in Pu. cbn [map _unwrap app] in Pu.
  set (h2 := write_array h1 l [VNum (of_Z 1); VNum (of_Z 2)]) in *.
  destruct (get_shares_array c (lit "items") l h2 eq_refl (P1 (arrays h2)))
    as (j & Gj & Vj & Tj).
  exists c, i, j, h1, h2, l.
  split; [apply flex_items|].
  repeat split; auto.
  apply array_at_write. unfold h1, l. cbn [arrays]. rewrite length_app. simpl. lia.
Qed.

(** ** Arithmetic of the Number model *)

Lemma pow2_pos k : 0 < pow2 k.
Proof. unfold pow2. apply Z.pow_pos_nonneg; lia. Qed.

(** [pow2 k / pow2 (-k)] is [2^k]: scaled by [2^N] to stay in the integers. *)
Lemma pow2_scaled k N :
  0 <= N -> 0 <= k + N -> pow2 k * 2 ^ N = 2 ^ (k + N) * pow2 (- k).
Proof.
  intros HN HK. unfold pow2.
  destruct (Z.le_ge_cases 0 k) as [H|H].
  - rewrite (Z.max_r 0 k), (Z.max_l 0 (- k)) by lia.
    rewrite Z.pow_0_r, Z.mul_1_r, <- Z.pow_add_r by lia. reflexivity.
  - rewrite (Z.max_l 0 k), (Z.max_r 0 (- k)) by lia.
    rewrite Z.pow_0_r, Z.mul_1_l, <- Z.pow_add_r by lia. f_equal. lia.
Qed.

Section Ratio.
Variables p q : Z.
Hypothesis Hp : 0 < p.
Hypothesis Hq : 0 < q.

Lemma ge_pow2_scaled k N :
  0 <= N -> 0 <= k + N ->
  (ge_pow2 p q k = true <-> q * 2 ^ (k + N) <= p * 2 ^ N).
Proof.
  intros HN HK. unfold ge_pow2. rewrite Z.leb_le.
  pose proof (pow2_scaled k N HN HK) as E.
  pose proof (pow2_pos (- k)) as P1.
  assert (P2 : 0 < 2 ^ N) by (apply Z.pow_pos_nonneg; lia).
  split; intros H.
  - apply (Z.mul_le_mono_pos_r _ _ (pow2 (- k))); [assumption|].
    replace (q * 2 ^ (k + N) * pow2 (- k)) with (q * (2 ^ (k + N) * pow2 (- k))) by ring.
    rewrite <- E.
    replace (q * (pow2 k * 2 ^ N)) with (q * pow2 k * 2 ^ N) by ring.
    replace (p * 2 ^ N * pow2 (- k)) with (p * pow2 (- k) * 2 ^ N) by ring.
    apply Z.mul_le_mono_nonneg_r; lia.
  - apply (Z.mul_le_mono_pos_r _ _ (2 ^ N)); [assumption|].
    replace (q * pow2 k * 2 ^ N) with (q * (pow2 k * 2 ^ N)) by ring.
    rewrite E.
    replace (q * (2 ^ (k + N) * pow2 (- k))) with (q * 2 ^ (k + N) * pow2 (- k)) by ring.
    replace (p * pow2 (- k) * 2 ^ N) with (p * 2 ^ N * pow2 (- k)) by ring.
    apply Z.mul_le_mono_nonneg_r; lia.
Qed.

Lemma ge_pow2_mono k k' :
  k <= k' -> ge_pow2 p q k' = true -> ge_pow2 p q k = true.
Proof.
  intros Hk H.
  set (N := Z.abs k + Z.abs k').
  rewrite (ge_pow2_scaled k' N) in H by lia.
  rewrite (ge_pow2_scaled k N) by lia.
  assert (2 ^ (k + N) <= 2 ^ (k' + N)) by (apply Z.pow_le_mono_r; lia).
  nia.
Qed.

(** [ilog2] is the exponent [E] with [2^E <= p/q < 2^(E+1)]. *)
Lemma ilog2_unique E :
  ge_pow2 p q E = true -> ge_pow2 p q (E + 1) = false -> ilog2 p q = E.
Proof.
  intros G1 G2. unfold ilog2.
  set (lp := Z.log2 p). set (lq := Z.log2 q). set (d := lp - lq).
  pose proof (Z.log2_spec p Hp) as [Lp Up].
  pose proof (Z.log2_spec q Hq) as [Lq Uq].
  pose proof (Z.log2_nonneg p). pose proof (Z.log2_nonneg q).
  fold lp lq in Lp, Up, Lq, Uq, H, H0.
  set (N := Z.abs d + Z.abs E + lp + lq + 2).
  assert (GL : ge_pow2 p q (d - 1) = true).
  { rewrite (ge_pow2_scaled (d - 1) N) by lia.
    replace (d - 1 + N) with ((N - lq - 1) + lp) by lia.
    replace N with ((N - lq - 1) + Z.succ lq) at 2 by lia.
    rewrite !Z.pow_add_r by lia.
    assert (0 < 2 ^ (N - lq - 1)) by (apply Z.pow_pos_nonneg; lia).
    assert (q * 2 ^ lp <= p * 2 ^ Z.succ lq).
    { transitivity (2 ^ Z.succ lq * 2 ^ lp); [nia|]. 
      assert (0 < 2 ^ Z.succ lq) by (apply Z.pow_pos_nonneg; lia). nia. }
    nia. }
  assert (GU : ge_pow2 p q (d + 1) = false).
  { apply not_true_is_false. rewrite (ge_pow2_scaled (d + 1) N) by lia.
    replace (d + 1 + N) with ((N - lq) + Z.succ lp) by lia.
    replace N with ((N - lq) + lq) at 2 by lia.
    rewrite !Z.pow_add_r by lia.
    assert (0 < 2 ^ (N - lq)) by (apply Z.pow_pos_nonneg; lia).
    assert (p * 2 ^ lq < q * 2 ^ Z.succ lp).
    { apply Z.lt_le_trans with (2 ^ Z.succ lp * 2 ^ lq); [|nia].
      assert (0 < 2 ^ lq) by (apply Z.pow_pos_nonneg; lia). nia. }
    nia. }
  assert (E1 : d - 1 <= E).
  { destruct (Z_lt_le_dec E (d - 1)) as [C|C]; [|exact C].
    rewrite (ge_pow2_mono (E + 1) (d - 1)) in G2 by (lia || assumption).
    discriminate. }
  assert (E2 : E <= d).
  { destruct (Z_lt_le_dec d E) as [C|C]; [|exact C].
    rewrite (ge_pow2_mono (d + 1) E) in GU by (lia || assumption).
    discriminate. }
  destruct (ge_pow2 p q d) eqn:G.
  - destruct (Z.eq_dec E d) as [->|NE]; [reflexivity|].
    replace (E + 1) with d in G2 by lia. congruence.
  - destruct (Z.eq_dec E d) as [->|NE]; [congruence|]. lia.
Qed.

(** Rounding is exact on the values of the format. *)
Theorem round_rat_exact neg m e :
  canonical m e = true ->
  p * pow2 (- e) = m * (q * pow2 e) ->
  round_rat neg p q = Fin neg m e.
Proof.
  intros C R.
  assert (Hm : 0 < m /\ m < 2 ^ 53 /\ emin <= e <= emax
               /\ Z.max (Z.log2 m + e - 52) emin = e).
  { unfold canonical in C. apply orb_true_iff in C. destruct C as [C|C].
    - rewrite !andb_true_iff, !Z.leb_le, Z.ltb_lt in C.
      destruct C as (((C1 & C2) & C3) & C4).
      assert (Z.log2 m = 52) by (apply Z.log2_unique; lia).
      unfold emin, emax in *. lia.
    - rewrite !andb_true_iff, !Z.ltb_lt, Z.eqb_eq in C.
      destruct C as ((C1 & C2) & C3).
      assert (Z.log2 m < 52) by (apply Z.log2_lt_pow2; lia).
      unfold emin, emax in *. lia. }
  destruct Hm as (M0 & M1 & Ee & Emax).
  set (L := Z.log2 m). fold L in Emax.
  pose proof (Z.log2_spec m M0) as [Lm Um]. fold L in Lm, Um.
  pose proof (Z.log2_nonneg m) as L0. fold L in L0.
  assert (I : ilog2 p q = L + e).
  { set (N := Z.abs e + L + 2).
    assert (Rs : p * 2 ^ N = m * q * 2 ^ (e + N)).
    { pose proof (pow2_scaled e N ltac:(lia) ltac:(lia)) as S.
      pose proof (pow2_pos (- e)) as P1.
      apply (Z.mul_cancel_r _ _ (pow2 (- e))); [lia|].
      replace (p * 2 ^ N * pow2 (- e)) with (p * pow2 (- e) * 2 ^ N) by ring.
      rewrite R.
      replace (m * q * 2 ^ (e + N) * pow2 (- e))
        with (m * q * (2 ^ (e + N) * pow2 (- e))) by ring.
      rewrite <- S. ring. }
    assert (P2 : 0 < 2 ^ (e + N)) by (apply Z.pow_pos_nonneg; lia).
    apply ilog2_unique.
    - rewrite (ge_pow2_scaled (L + e) N) by lia. rewrite Rs.
      replace (L + e + N) with (L + (e + N)) by lia.
      rewrite Z.pow_add_r by lia. nia.
    - apply not_true_is_false. rewrite (ge_pow2_scaled (L + e + 1) N) by lia.
      rewrite Rs. replace (L + e + 1 + N) with (Z.succ L + (e + N)) by lia.
      rewrite Z.pow_add_r by lia. nia. }
  unfold round_rat. rewrite I, Emax.
  pose proof (pow2_pos e) as P1.
  assert (D : 0 < q * pow2 e) by lia.
  rewrite R. rewrite Z.div_mul, Z_mod_mult by lia.
  unfold round_nearest_even.
  replace (2 * 0 ?= q * pow2 e) with Lt by (symmetry; apply Z.compare_lt_iff; lia).
  replace (m =? 0) with false by (symmetry; apply Z.eqb_neq; lia).
  replace (m =? 2 ^ 53) with false by (symmetry; apply Z.eqb_neq; lia).
  replace (emax <? e) with false by (symmetry; apply Z.ltb_ge; lia).
  reflexivity.
Qed.
End Ratio.

(** *** Integers below [2^53] are Numbers, and their sums are exact *)

Lemma pow2_nonpos k : k <= 0 -> pow2 k = 1.
Proof. intros H. unfold pow2. rewrite Z.max_l by lia. reflexivity. Qed.

Lemma pow2_nonneg k : 0 <= k -> pow2 k = 2 ^ k.
Proof. intros H. unfold pow2. rewrite Z.max_r by lia. reflexivity. Qed.

Lemma int_canonical w :
  0 < w < 2 ^ 53 ->
  canonical (w * 2 ^ (52 - Z.log2 w)) (Z.log2 w - 52) = true
  /\ 0 <= Z.log2 w <= 52.
Proof.
  intros [W0 W1].
  pose proof (Z.log2_spec w W0) as [Lw Uw].
  pose proof (Z.log2_nonneg w) as L0.
  assert (L1 : Z.log2 w < 53) by (apply Z.log2_lt_pow2; lia).
  split; [|lia].
  set (L := Z.log2 w) in *.
  assert (P : 0 < 2 ^ (52 - L)) by (apply Z.pow_pos_nonneg; lia).
  assert (A : 2 ^ 52 = 2 ^ L * 2 ^ (52 - L)).
  { rewrite <- Z.pow_add_r by lia. f_equal. lia. }
  assert (B : 2 ^ 53 = 2 ^ Z.succ L * 2 ^ (52 - L)).
  { rewrite <- Z.pow_add_r by lia. f_equal. lia. }
  unfold canonical. apply orb_true_iff. left.
  rewrite !andb_true_iff, !Z.leb_le, Z.ltb_lt. unfold emin, emax.
  repeat split; try lia; [rewrite A | rewrite B]; nia.
Qed.

Lemma round_rat_int neg w c :
  0 < w < 2 ^ 53 -> 0 < c ->
  round_rat neg (w * c) c
  = Fin neg (w * 2 ^ (52 - Z.log2 w)) (Z.log2 w - 52).
Proof.
  intros W C. destruct (int_canonical w W) as [K L].
  apply round_rat_exact; try assumption; [nia|].
  rewrite (pow2_nonpos (Z.log2 w - 52)), pow2_nonneg by lia.
  replace (- (Z.log2 w - 52)) with (52 - Z.log2 w) by lia. ring.
Qed.

Lemma of_Z_int z :
  z <> 0 -> Z.abs z < 2 ^ 53 ->
  of_Z z = Fin (z <? 0) (Z.abs z * 2 ^ (52 - Z.log2 (Z.abs z)))
             (Z.log2 (Z.abs z) - 52).
Proof.
  intros Z0 Z1. unfold of_Z, round_dyadic.
  replace (z =? 0) with false by (symmetry; apply Z.eqb_neq; assumption).
  change (pow2 0) with 1. change (pow2 (- 0)) with 1.
  apply round_rat_int; lia.
Qed.

Lemma signed_abs (z : Z) : signed (z <? 0) (Z.abs z) = z.
Proof. unfold signed. destruct (Z.ltb_spec z 0); lia. Qed.

Lemma signed_mul neg m c : signed neg (m * c) = signed neg m * c.
Proof. destruct neg; simpl; ring. Qed.

Lemma truncate_of_Z z : Z.abs z < 2 ^ 53 -> truncate (of_Z z) = z.
Proof.
  intros Z1. destruct (Z.eq_dec z 0) as [->|Z0]; [reflexivity|].
  rewrite of_Z_int by assumption.
  destruct (int_canonical (Z.abs z) ltac:(lia)) as [_ L].
  set (w := Z.abs z) in *. set (l := Z.log2 w) in *. unfold truncate.
  rewrite <- (signed_abs z) at 2. fold w. f_equal.
  destruct (Z.leb_spec 0 (l - 52)).
  - replace (l - 52) with 0 by lia. replace (52 - l) with 0 by lia. simpl. lia.
  - replace (- (l - 52)) with (52 - l) by lia.
    apply Z.div_mul. apply Z.pow_nonzero; lia.
Qed.

Lemma num_add_of_Z a b :
  Z.abs a < 2 ^ 53 -> Z.abs b < 2 ^ 53 -> Z.abs (a + b) < 2 ^ 53 ->
  num_add (of_Z a) (of_Z b) = of_Z (a + b).
Proof.
  intros A B S.
  destruct (Z.eq_dec a 0) as [->|A0].
  { destruct (Z.eq_dec b 0) as [->|B0]; [reflexivity|].
    rewrite Z.add_0_l. rewrite (of_Z_int b) by assumption. reflexivity. }
  destruct (Z.eq_dec b 0) as [->|B0].
  { rewrite Z.add_0_r. rewrite (of_Z_int a) by assumption. reflexivity. }
  rewrite (of_Z_int a), (of_Z_int b) by assumption.
  destruct (int_canonical (Z.abs a) ltac:(lia)) as [_ La].
  destruct (int_canonical (Z.abs b) ltac:(lia)) as [_ Lb].
  set (la := Z.log2 (Z.abs a)) in *. set (lb := Z.log2 (Z.abs b)) in *.
  unfold num_add.
  set (e0 := Z.min (la - 52) (lb - 52)).
  rewrite !signed_mul, !signed_abs.
  assert (E : a * 2 ^ (52 - la) * 2 ^ (la - 52 - e0)
              + b * 2 ^ (52 - lb) * 2 ^ (lb - 52 - e0)
              = (a + b) * 2 ^ (- e0)).
  { rewrite <- !Z.mul_assoc, <- !Z.pow_add_r by lia.
    replace (52 - la + (la - 52 - e0)) with (- e0) by lia.
    replace (52 - lb + (lb - 52 - e0)) with (- e0) by lia. ring. }
  rewrite E. clear E.
  assert (P : 0 < 2 ^ (- e0)) by (apply Z.pow_pos_nonneg; lia).
  unfold round_dyadic.
  destruct (Z.eq_dec (a + b) 0) as [S0|S0].
  { rewrite S0. reflexivity. }
  replace ((a + b) * 2 ^ (- e0) =? 0) with false
    by (symmetry; apply Z.eqb_neq; nia).
  replace ((a + b) * 2 ^ (- e0) <? 0) with (a + b <? 0)
    by (destruct (Z.ltb_spec (a + b) 0); symmetry;
        [apply Z.ltb_lt | apply Z.ltb_ge]; nia).
  rewrite Z.abs_mul, (Z.abs_eq (2 ^ (- e0))) by lia.
  rewrite (pow2_nonpos e0), pow2_nonneg, Z.mul_1_r by lia.
  rewrite round_rat_int by lia.
  rewrite of_Z_int by assumption. reflexivity.
Qed.

(** ** charShift *)

Lemma keeps_string_coerce s h :
  keeps_string s = true -> coerce_string s h = (VStr s, TString, h).
Proof.
  unfold keeps_string, coerce_string, JSON_parse. rewrite jstring_eqb_nil.
  destruct (trim s) as [|c t]; [reflexivity|]. cbn [orb].
  rewrite !andb_true_iff, !negb_true_iff.
  intros (((A & B) & C) & D). rewrite A, B.
  destruct (finite_number (c :: t)); [discriminate|].
  destruct (bracket_delimited (c :: t)); [|reflexivity].
  destruct (JSON_parse_tree (c :: t)); [discriminate|reflexivity].
Qed.

Lemma hello_shifts_keep_string :
  forallb (fun r => (r =? 65481) || keeps_string (shift_units r hello)) residues
  = true.
Proof. vm_compute. reflexivity. Qed.

Lemma in_range n : forall from r,
  from <= r < from + Z.of_nat n -> In r (range n from).
Proof.
  induction n as [|n IH]; intros from r H; [lia|]. simpl.
  destruct (Z.eq_dec from r) as [E|E]; [left; exact E|].
  right. apply IH. lia.
Qed.

Lemma shift_units_mod k s : shift_units (k mod 65536) s = shift_units k s.
Proof.
  unfold shift_units. apply map_ext. intros c.
  apply Zplus_mod_idemp_r.
Qed.

Lemma shift_units_back k s :
  Forall code_unit s -> shift_units (- k) (shift_units k s) = s.
Proof.
  unfold shift_units. induction 1 as [|c s C _ IH]; simpl; [reflexivity|].
  rewrite IH. f_equal. unfold code_unit in C.
  rewrite Zplus_mod_idemp_l. replace (c + k + - k) with c by ring.
  apply Z.mod_small. exact C.
Qed.

Lemma shift_units_code_unit k s : Forall code_unit (shift_units k s).
Proof.
  unfold shift_units. apply Forall_map, Forall_forall. intros c _.
  apply Z.mod_pos_bound. reflexivity.
Qed.

Lemma fromCharCode_shift h c k :
  code_unit c -> safe_offset k ->
  and_then (js_plus h (VNum (of_Z c)) (VNum (of_Z k))) (String_fromCharCode h)
  = Normal [(c + k) mod 65536].
Proof.
  unfold code_unit, safe_offset. intros C K.
  unfold String_fromCharCode, js_plus, ToNumber.
  cbn [ToPrimitive and_then primitive_number].
  rewrite num_add_of_Z by lia.
  unfold ToUint16. rewrite truncate_of_Z by lia. reflexivity.
Qed.

Lemma loop_shift h k s : forall acc,
  Forall code_unit s -> safe_offset k ->
  charShift_loop h (VNum (of_Z k)) s acc = Normal (acc ++ shift_units k s).
Proof.
  induction s as [|c s IH]; intros acc F K; cbn [charShift_loop].
  - simpl. rewrite app_nil_r. reflexivity.
  - inversion F as [|? ? C F']; subst.
    pose proof (fromCharCode_shift h c k C K) as E.
    destruct (js_plus h (VNum (of_Z c)) (VNum (of_Z k))) as [sum|e];
      [|discriminate E].
    cbn [and_then] in *. rewrite E. cbn [and_then].
    rewrite IH by assumption. rewrite <- app_assoc. reflexivity.
Qed.

(** [charShift] on an unlocked string, for an integer offset in the safe
    range: a new instance on the shifted text. *)
Lemma charShift_string this s k h :
  type this = TString -> Options.stringLock (_options this) = false ->
  value this = VStr s -> Forall code_unit s -> safe_offset k ->
  charShift this (VNum (of_Z k)) h
  = new_FlexType (VStr (shift_units k s))
      (lit "charShift(" ++ _name this ++ lit ", "
         ++ NumberToString (of_Z k) ++ lit ")")
      no_options h.
Proof.
  intros T L V F K. unfold type in T. unfold value in V.
  unfold charShift, isString. rewrite T, L, V. cbn [negb tag_eqb code_units].
  unfold bind, read. rewrite loop_shift by assumption. reflexivity.
Qed.

Lemma new_FlexType_kept_string s name h :
  keeps_string s = true ->
  new_FlexType (VStr s) name no_options h
  = (Ok (mkFlexType (VStr s) name (merge_options no_options)
           [TString] TString (VStr s)), h).
Proof.
  intros K. rewrite new_FlexType_coerce. unfold coerce.
  cbn [Options.typeLock Options.stringLock merge_options no_options
       or_default arg_typeLock arg_stringLock].
  rewrite keeps_string_coerce by assumption. reflexivity.
Qed.

Lemma hello_code_units : Forall code_unit hello.
Proof. repeat constructor; unfold code_unit; simpl; lia. Qed.

Lemma safe_offset_opp k : safe_offset k -> safe_offset (- k).
Proof. unfold safe_offset. lia. Qed.

(** C6, as amended. For an integer offset [k] that keeps
    [charCode + k] exact and is not congruent to [-55] modulo [2^16],
    [charShift(k)] then [charShift(-k)] on [flex('x', 'hello')] gives
    back ['hello']: the shifted text stays a string, and the shifts of
    the code units cancel modulo [2^16]. *)
Theorem charShift_round_trip_hello (k : Z) :
  safe_offset k -> k mod 65536 <> 65481 -> charShift_round_trip k.
Proof.
  intros K R h.
  assert (S : keeps_string (shift_units k hello) = true).
  { pose proof hello_shifts_keep_string as B.
    rewrite forallb_forall in B.
    specialize (B (k mod 65536)).
    rewrite shift_units_mod in B.
    assert (I : In (k mod 65536) residues).
    { unfold residues. apply in_range.
      pose proof (Z.mod_pos_bound k 65536 ltac:(lia)). lia. }
    specialize (B I). apply orb_true_iff in B. destruct B as [B|B]; [|exact B].
    apply Z.eqb_eq in B. contradiction. }
  eexists _, _, _, h, h.
  split; [unfold flex; apply new_FlexType_kept_string; reflexivity|].
  split.
  { rewrite (charShift_string _ hello k h)
      by first [reflexivity | apply hello_code_units | assumption].
    apply new_FlexType_kept_string, S. }
  split.
  { rewrite (charShift_string _ (shift_units k hello) (- k) h)
      by first [reflexivity | apply shift_units_code_unit
               | apply safe_offset_opp, K].
    rewrite shift_units_back by apply hello_code_units.
    apply new_FlexType_kept_string. reflexivity. }
  reflexivity.
Qed.

Lemma charShift_round_trip_hello_witness :
  safe_offset 1 /\ 1 mod 65536 <> 65481 /\ charShift_round_trip 1.
Proof.
  split; [unfold safe_offset; simpl; lia|].
  split; [discriminate|].
  apply (charShift_round_trip_hello 1); [unfold safe_offset; simpl; lia|discriminate].
Defined.

(** C6, the claim as stated fails at [k = -55]: the shifted text is
    ['1.558'], which the constructor coerces to a number, and
    [charShift(55)] on a number throws. *)
Lemma charShift_round_trip_fails_at_minus_55 : ~ charShift_round_trip (-55).
Proof.
  intros H. destruct (H empty_store) as (x & y & z & h1 & h2 & X & Y & Z & V).
  vm_compute in X. injection X as <-.
  vm_compute in Y. injection Y as <- <-.
  vm_compute in Z. discriminate Z.
Qed.

(** Every offset congruent to [-55] fails in the same way. *)
Lemma charShift_round_trip_fails_in_class (k : Z) :
  safe_offset k -> k mod 65536 = 65481 -> ~ charShift_round_trip k.
Proof.
  intros K R H. destruct (H empty_store) as (x & y & z & h1 & h2 & X & Y & Z & _).
  unfold flex in X. rewrite new_FlexType_kept_string in X by reflexivity.
  injection X as <-.
  rewrite (charShift_string _ hello k empty_store) in Y
    by first [reflexivity | apply hello_code_units | assumption].
  rewrite <- shift_units_mod, R in Y.
  rewrite new_FlexType_coerce in Y.
  change (shift_units 65481 hello) with (lit "1.558") in Y.
  change (coerce (merge_options no_options) (VStr (lit "1.558")) empty_store)
    with (VNum (StringToNumber (lit "1.558")), TNumber, empty_store) in Y.
  cbv beta iota in Y. injection Y as <- <-.
  unfold charShift in Z. cbn [isString _inferredType tag_eqb negb] in Z.
  unfold throw in Z. discriminate Z.
Qed.

(** Beyond the safe range the sum [charCode + k] is rounded: at
    [k = 2^60] every code unit becomes 0 and stays 0 on the way back. *)
Lemma charShift_round_trip_fails_at_2_60 : ~ charShift_round_trip (2 ^ 60).
Proof.
  intros H. destruct (H empty_store) as (x & y & z & h1 & h2 & X & Y & Z & V).
  vm_compute in X. injection X as <-.
  vm_compute in Y. injection Y as <- <-.
  vm_compute in Z. injection Z as <- <-.
  discriminate V.
Qed.

(** ** Number to string and back *)

(** *** Decimal digits *)

Lemma is_digit_range c : is_digit c = true <-> 48 <= c <= 57.
Proof. unfold is_digit. rewrite andb_true_iff, !Z.leb_le. tauto. Qed.

Lemma fold_digits ds : forall acc,
  fold_left (fun a c => a * 10 + (c - 48)) ds acc
  = acc * 10 ^ Z.of_nat (List.length ds) + digits_value ds.
Proof.
  unfold digits_value. induction ds as [|c ds IH]; intros acc.
  - simpl. lia.
  - cbn [fold_left List.length]. rewrite IH, (IH (0 * 10 + (c - 48))).
    rewrite Nat2Z.inj_succ, Z.pow_succ_r by lia. ring.
Qed.

Lemma digits_value_app a b :
  digits_value (a ++ b)
  = digits_value a * 10 ^ Z.of_nat (List.length b) + digits_value b.
Proof.
  unfold digits_value at 1. rewrite fold_left_app, fold_digits. reflexivity.
Qed.

Lemma digits_value_zeros n : digits_value (zeros n) = 0.
Proof.
  unfold zeros. induction (Z.to_nat n) as [|k IH]; [reflexivity|].
  change (repeat 48 (S k)) with ([48] ++ repeat 48 k).
  rewrite digits_value_app, IH. reflexivity.
Qed.

Lemma zeros_digits n : digits (zeros n).
Proof. unfold zeros, digits. apply Forall_forall. intros c H.
  apply repeat_spec in H. subst c. reflexivity. Qed.

Lemma zeros_length n : 0 <= n -> Z.of_nat (List.length (zeros n)) = n.
Proof. intros H. unfold zeros. rewrite repeat_length. lia. Qed.

Lemma digits_fuel_step f z acc :
  digits_fuel (S f) z acc
  = if z <? 10 then (48 + z) :: acc
    else digits_fuel f (z / 10) ((48 + z mod 10) :: acc).
Proof. reflexivity. Qed.

Lemma digits_fuel_spec f : forall z acc,
  0 <= z < 2 ^ Z.of_nat (S f) ->
  exists ds, digits_fuel (S f) z acc = ds ++ acc /\ ds <> [] /\ digits ds
             /\ digits_value ds = z.
Proof.
  induction f as [|f IH]; intros z acc H.
  - change (2 ^ Z.of_nat 1) with 2 in H. simpl.
    replace (z <? 10) with true by (symmetry; apply Z.ltb_lt; lia).
    exists [48 + z].
    repeat split; [discriminate| |unfold digits_value; cbn [fold_left]; lia].
    constructor; [apply is_digit_range; lia|constructor].
  - rewrite digits_fuel_step. destruct (Z.ltb_spec z 10) as [L|L].
    + exists [48 + z].
      repeat split; [discriminate| |unfold digits_value; cbn [fold_left]; lia].
      constructor; [apply is_digit_range; lia|constructor].
    + destruct (IH (z / 10) ((48 + z mod 10) :: acc)) as (ds & E & N & D & V).
      { split; [apply Z.div_pos; lia|].
        apply Z.div_lt_upper_bound; [lia|].
        rewrite (Nat2Z.inj_succ (S f)), Z.pow_succ_r in H by lia. lia. }
      exists (ds ++ [48 + z mod 10]).
      rewrite E, <- app_assoc. split; [reflexivity|].
      split; [destruct ds; discriminate|].
      pose proof (Z.mod_pos_bound z 10 ltac:(lia)).
      split.
      * apply Forall_app. split; [exact D|].
        constructor; [apply is_digit_range; lia|constructor].
      * rewrite digits_value_app, V. unfold digits_value.
        cbn [fold_left List.length]. change (Z.of_nat 1) with 1.
        pose proof (Z.div_mod z 10 ltac:(lia)). lia.
Qed.

Lemma digits_of_spec z :
  0 <= z ->
  digits_of z <> [] /\ digits (digits_of z) /\ digits_value (digits_of z) = z.
Proof.
  intros H. unfold digits_of.
  destruct (digits_fuel_spec (Z.to_nat (Z.log2 z)) z []) as (ds & E & N & D & V).
  { split; [exact H|]. rewrite Nat2Z.inj_succ, Z2Nat.id by apply Z.log2_nonneg.
    destruct (Z.eq_dec z 0) as [->|]; [reflexivity|].
    apply Z.log2_spec. lia. }
  rewrite E, app_nil_r. auto.
Qed.

Lemma span_digits_app ds rest :
  digits ds ->
  match rest with c :: _ => is_digit c = false | [] => True end ->
  span_digits (ds ++ rest) = (ds, rest).
Proof.
  intros D R. induction D as [|c ds C D IH]; cbn [app span_digits].
  - destruct rest as [|c r]; [reflexivity|]. cbn [span_digits].
    rewrite R. reflexivity.
  - rewrite C, IH. reflexivity.
Qed.

Lemma span_digits_all ds : digits ds -> span_digits ds = (ds, []).
Proof.
  intros D. rewrite <- (app_nil_r ds) at 1. apply span_digits_app; [exact D|exact I].
Qed.

(** *** Reading back the text of a decimal *)

Lemma parse_exponent_nil : parse_exponent [] = Some 0.
Proof. reflexivity. Qed.

Lemma parse_exponent_digits_of ex :
  parse_exponent
    (101 :: (if ex <? 0 then 45 else 43) :: digits_of (Z.abs ex))
  = Some ex.
Proof.
  destruct (digits_of_spec (Z.abs ex) ltac:(lia)) as (N & D & V).
  unfold parse_exponent. cbn [Z.eqb orb Pos.eqb].
  assert (S : strip_sign ((if ex <? 0 then 45 else 43) :: digits_of (Z.abs ex))
              = (ex <? 0, digits_of (Z.abs ex))).
  { destruct (ex <? 0); reflexivity. }
  rewrite S, span_digits_all by exact D.
  destruct (digits_of (Z.abs ex)) as [|c r] eqn:E; [contradiction|].
  rewrite V. f_equal. apply signed_abs.
Qed.

Lemma digits_firstn_skipn n ds :
  digits ds -> digits (firstn n ds) /\ digits (skipn n ds).
Proof.
  unfold digits. intros D. rewrite <- (firstn_skipn n ds) in D.
  apply Forall_app in D. exact D.
Qed.

(** The text [format_decimal] writes for the digits [ds] with the
    decimal point at [n] reads back as the decimal [ds * 10^(n - k)]. *)
Lemma parse_format_decimal neg ds n :
  ds <> [] -> digits ds -> 0 < digits_value ds ->
  exists M E,
    parse_unsigned_decimal (format_decimal ds n) = Some (M, E)
    /\ decimal_to_number neg M E
       = decimal_to_number neg (digits_value ds)
           (n - Z.of_nat (List.length ds)).
Proof.
  intros N D V. unfold format_decimal.
  set (k := Z.of_nat (List.length ds)).
  destruct ((k <=? n) && (n <=? 21)) eqn:S1.
  { (* digits and zeros *)
    apply andb_true_iff in S1. destruct S1 as [S1 _]. apply Z.leb_le in S1.
    unfold parse_unsigned_decimal.
    rewrite span_digits_all
      by (apply Forall_app; split; [exact D|apply zeros_digits]).
    rewrite app_nil_r.
    destruct (ds ++ zeros (n - k)) as [|c r] eqn:E;
      [destruct ds; discriminate|]. rewrite <- E. clear E c r.
    cbn [parse_exponent List.length].
    eexists _, _. split; [reflexivity|].
    rewrite digits_value_app, digits_value_zeros, zeros_length, Z.add_0_r by lia.
    unfold decimal_to_number.
    assert (P : 0 < 10 ^ (n - k)) by (apply Z.pow_pos_nonneg; lia).
    replace (digits_value ds * 10 ^ (n - k) =? 0) with false
      by (symmetry; apply Z.eqb_neq; nia).
    replace (digits_value ds =? 0) with false
      by (symmetry; apply Z.eqb_neq; lia).
    change (Z.of_nat 0) with 0. change (0 - 0) with 0.
    rewrite (Z.max_r 0 (n - k)), (Z.max_l 0 (- (n - k))) by lia.
    change (Z.max 0 0) with 0. change (Z.max 0 (- 0)) with 0.
    rewrite Z.pow_0_r, Z.mul_1_r. reflexivity. }
  destruct ((0 <? n) && (n <=? 21)) eqn:S2.
  { (* digits around a decimal point *)
    apply andb_true_iff in S2. destruct S2 as [S2 S2']. apply Z.ltb_lt in S2.
    apply Z.leb_le in S2'.
    assert (K : n < k).
    { apply andb_false_iff in S1. destruct S1 as [S1|S1];
        [apply Z.leb_gt in S1; exact S1 | apply Z.leb_gt in S1; lia]. }
    unfold parse_unsigned_decimal.
    rewrite span_digits_app
      by first [apply (digits_firstn_skipn (Z.to_nat n) ds D) | reflexivity].
    cbn [Z.eqb Pos.eqb].
    rewrite span_digits_all by apply (digits_firstn_skipn (Z.to_nat n) ds D).
    rewrite firstn_skipn.
    assert (L : Z.of_nat (List.length (skipn (Z.to_nat n) ds)) = k - n)
      by (rewrite length_skipn; subst k; lia).
    revert L. generalize (skipn (Z.to_nat n) ds). intros tail L.
    destruct ds as [|c r]; [contradiction|].
    cbn [parse_exponent]. eexists _, _. split; [reflexivity|].
    f_equal. lia. }
  destruct ((-6 <? n) && (n <=? 0)) eqn:S3.
  { (* leading zeros *)
    apply andb_true_iff in S3. destruct S3 as [_ S3]. apply Z.leb_le in S3.
    unfold parse_unsigned_decimal.
    change (48 :: 46 :: zeros (- n) ++ ds)
      with ([48] ++ 46 :: zeros (- n) ++ ds).
    rewrite span_digits_app by (try reflexivity; repeat constructor).
    cbn [Z.eqb Pos.eqb].
    rewrite span_digits_all
      by (apply Forall_app; split; [apply zeros_digits|exact D]).
    cbn [app parse_exponent]. eexists _, _. split; [reflexivity|].
    change (48 :: zeros (- n) ++ ds) with (([48] ++ zeros (- n)) ++ ds).
    rewrite digits_value_app, digits_value_app, digits_value_zeros.
    change (digits_value [48]) with 0.
    rewrite length_app, Nat2Z.inj_add, zeros_length by lia.
    f_equal; subst k; lia. }
  (* exponent *)
  destruct ds as [|d rest]; [contradiction|].
  inversion D as [|? ? Dd Drest]; subst.
  destruct rest as [|d' rest'].
  - unfold parse_unsigned_decimal.
    change (d :: 101 :: ?x) with ([d] ++ 101 :: x).
    rewrite span_digits_app by (try reflexivity; repeat constructor; exact Dd).
    cbn [Z.eqb Pos.eqb app].
    rewrite parse_exponent_digits_of.
    eexists _, _. split; [reflexivity|].
    f_equal. subst k. cbn [List.length]. lia.
  - unfold parse_unsigned_decimal.
    set (rest := d' :: rest') in *.
    change (d :: 46 :: ?x) with ([d] ++ 46 :: x).
    rewrite span_digits_app by (try reflexivity; repeat constructor; exact Dd).
    cbn [Z.eqb Pos.eqb].
    rewrite span_digits_app by (try reflexivity; exact Drest).
    cbn [app].
    rewrite parse_exponent_digits_of.
    eexists _, _. split; [reflexivity|].
    f_equal. subst k rest. cbn [List.length]. lia.
Qed.

(** *** The shortest decimal reads back *)

Lemma number_eqb_eq x y : number_eqb x y = true <-> x = y.
Proof.
  split.
  - destruct x, y; simpl; try discriminate; try reflexivity.
    + intros H. apply eqb_prop in H. congruence.
    + intros H. apply eqb_prop in H. congruence.
    + rewrite !andb_true_iff, !Z.eqb_eq. intros [[H ->] ->].
      apply eqb_prop in H. congruence.
  - intros <-. destruct x; simpl; rewrite ?eqb_reflx, ?Z.eqb_refl; reflexivity.
Qed.

Lemma exact_decimal_represents m e :
  canonical m e = true ->
  0 < fst (exact_decimal m e)
  /\ represents (Fin false m e) (fst (exact_decimal m e))
       (snd (exact_decimal m e)) = true.
Proof.
  intros C.
  assert (M : 0 < m).
  { unfold canonical in C. apply orb_true_iff in C.
    rewrite !andb_true_iff, !Z.leb_le, !Z.ltb_lt in C.
    destruct C as [(((C & _) & _) & _) | ((C & _) & _)]; lia. }
  unfold exact_decimal, represents. rewrite number_eqb_eq.
  unfold decimal_to_number.
  destruct (Z.leb_spec 0 e) as [E|E]; cbn [fst snd].
  - assert (P : 0 < 2 ^ e) by (apply Z.pow_pos_nonneg; lia).
    split; [nia|].
    replace (m * 2 ^ e =? 0) with false by (symmetry; apply Z.eqb_neq; nia).
    change (10 ^ Z.max 0 0) with 1. change (10 ^ Z.max 0 (- 0)) with 1.
    apply round_rat_exact; try exact C; try nia.
    rewrite (pow2_nonpos (- e)), (pow2_nonneg e) by lia. ring.
  - assert (P : 0 < 5 ^ (- e)) by (apply Z.pow_pos_nonneg; lia).
    split; [nia|].
    replace (m * 5 ^ (- e) =? 0) with false by (symmetry; apply Z.eqb_neq; nia).
    rewrite (Z.max_l 0 e), (Z.max_r 0 (- e)), Z.pow_0_r, Z.mul_1_r by lia.
    assert (Q : 10 ^ (- e) = 2 ^ (- e) * 5 ^ (- e))
      by (rewrite <- Z.pow_mul_l; reflexivity).
    assert (Q' : 0 < 2 ^ (- e)) by (apply Z.pow_pos_nonneg; lia).
    apply round_rat_exact; try exact C; try nia.
    rewrite (pow2_nonpos e), (pow2_nonneg (- e)), Q by lia. ring.
Qed.

Lemma filter_head {A} (f : A -> bool) l c r :
  filter f l = c :: r -> f c = true.
Proof.
  intros H. assert (I : In c (filter f l)) by (rewrite H; left; reflexivity).
  apply filter_In in I. apply I.
Qed.

Lemma shortest_from_represents fuel x p q n : forall k fallback,
  0 < fst fallback /\ represents x (fst fallback) (snd fallback) = true ->
  let c := shortest_from fuel x p q n k fallback in
  0 < fst c /\ represents x (fst c) (snd c) = true.
Proof.
  induction fuel as [|f IH]; intros k fallback F; simpl; [exact F|].
  destruct (candidates x p q n k) as [|c r] eqn:E; [apply IH, F|].
  unfold candidates in E. apply filter_head in E.
  apply andb_true_iff in E. destruct E as [E1 E2].
  apply Z.ltb_lt in E1. auto.
Qed.

Lemma shortest_represents m e :
  canonical m e = true ->
  0 < fst (shortest m e)
  /\ decimal_to_number false (fst (shortest m e)) (snd (shortest m e))
     = Fin false m e.
Proof.
  intros C. unfold shortest.
  destruct (shortest_from_represents 17 (Fin false m e) (m * pow2 e)
              (pow2 (- e)) (decimal_position (m * pow2 e) (pow2 (- e))) 1
              (exact_decimal m e) (exact_decimal_represents m e C)) as [P R].
  split; [exact P|]. apply number_eqb_eq, R.
Qed.

Lemma round_rat_sign neg p q :
  round_rat neg p q = with_sign neg (round_rat false p q).
Proof.
  unfold round_rat.
  destruct (_ =? 0); [reflexivity|].
  destruct (_ =? 2 ^ 53); destruct (emax <? _); reflexivity.
Qed.

Lemma decimal_to_number_sign neg M E :
  decimal_to_number neg M E = with_sign neg (decimal_to_number false M E).
Proof.
  unfold decimal_to_number. destruct (M =? 0); [reflexivity|].
  apply round_rat_sign.
Qed.

(** *** The text of a Number *)

Lemma plain_cases c :
  plain c = true -> 48 <= c <= 57 \/ c = 43 \/ c = 45 \/ c = 46 \/ c = 101.
Proof.
  unfold plain. rewrite !orb_true_iff, is_digit_range, !Z.eqb_eq. tauto.
Qed.

Lemma digit_plain c : is_digit c = true -> plain c = true.
Proof. intros H. unfold plain. rewrite H. reflexivity. Qed.

Lemma digits_plain ds : digits ds -> Forall (fun c => plain c = true) ds.
Proof. apply Forall_impl. exact digit_plain. Qed.

Lemma plain_not_whitespace c : plain c = true -> is_whitespace c = false.
Proof.
  intros H. apply plain_cases in H. unfold is_whitespace.
  repeat match goal with
  | |- context [?a <=? ?b] => destruct (Z.leb_spec a b); try lia
  | |- context [?a =? ?b] => destruct (Z.eqb_spec a b); try lia
  end; reflexivity.
Qed.

Lemma trim_start_id s :
  match s with c :: _ => is_whitespace c = false | [] => True end ->
  trim_start s = s.
Proof. destruct s as [|c r]; [reflexivity|]. simpl. intros ->. reflexivity. Qed.

Lemma trim_plain s : Forall (fun c => plain c = true) s -> trim s = s.
Proof.
  intros F. unfold trim, trim_end.
  rewrite (trim_start_id s)
    by (destruct F; [exact I|apply plain_not_whitespace; assumption]).
  apply Forall_rev in F.
  rewrite (trim_start_id (rev s))
    by (destruct F; [exact I|apply plain_not_whitespace; assumption]).
  apply rev_involutive.
Qed.

Lemma parse_nondecimal_plain s :
  Forall (fun c => plain c = true) s -> parse_nondecimal s = None.
Proof.
  intros F. destruct s as [|z [|p [|d ds]]]; try reflexivity.
  inversion F as [|? ? _ F']; subst. inversion F' as [|? ? P _]; subst.
  apply plain_cases in P. unfold parse_nondecimal.
  destruct (z =? 48); [|reflexivity].
  repeat match goal with
  | |- context [p =? ?b] => destruct (Z.eqb_spec p b); try lia
  end; reflexivity.
Qed.

Lemma format_decimal_plain ds n :
  digits ds -> Forall (fun c => plain c = true) (format_decimal ds n).
Proof.
  intros D. pose proof (digits_plain ds D) as P.
  destruct (digits_firstn_skipn (Z.to_nat n) ds D) as [D1 D2].
  unfold format_decimal.
  destruct ((_ <=? n) && _).
  { apply Forall_app. split; [exact P|apply digits_plain, zeros_digits]. }
  destruct ((0 <? n) && _).
  { apply Forall_app. split; [apply digits_plain, D1|].
    constructor; [reflexivity|apply digits_plain, D2]. }
  destruct ((-6 <? n) && _).
  { repeat (constructor; [reflexivity|]).
    apply Forall_app. split; [apply digits_plain, zeros_digits|exact P]. }
  assert (X : Forall (fun c => plain c = true)
                (101 :: (if n - 1 <? 0 then 45 else 43)
                     :: digits_of (Z.abs (n - 1)))).
  { constructor; [reflexivity|].
    constructor; [destruct (n - 1 <? 0); reflexivity|].
    apply digits_plain, digits_of_spec. lia. }
  destruct ds as [|d [|d' rest]]; [constructor| |].
  - inversion P; subst. constructor; assumption.
  - inversion P as [|? ? Pd Prest]; subst.
    constructor; [assumption|]. constructor; [reflexivity|].
    apply Forall_app. split; assumption.
Qed.

Lemma format_decimal_head ds n :
  ds <> [] -> digits ds ->
  exists d rest, format_decimal ds n = d :: rest /\ is_digit d = true.
Proof.
  intros N D. destruct ds as [|d ds']; [contradiction|].
  inversion D as [|? ? Dd _]; subst.
  unfold format_decimal.
  destruct ((_ <=? n) && _); [eexists _, _; split; [reflexivity|exact Dd]|].
  destruct ((0 <? n) && _) eqn:S2.
  { apply andb_true_iff in S2. destruct S2 as [S2 _]. apply Z.ltb_lt in S2.
    destruct (Z.to_nat n) as [|j] eqn:J; [lia|].
    eexists _, _; split; [reflexivity|exact Dd]. }
  destruct ((-6 <? n) && _); [eexists _, _; split; reflexivity|].
  destruct ds'; eexists _, _; split; try reflexivity; exact Dd.
Qed.

(** [Number(String(x))] is [x] for a finite non-zero Number [x]. *)
Theorem NumberToString_reads_back neg m e :
  canonical m e = true ->
  let text := NumberToString (Fin neg m e) in
  StringToNumber text = Fin neg m e
  /\ trim text = text
  /\ exists c r, text = c :: r /\ (c = 45 \/ is_digit c = true).
Proof.
  intros C text. subst text. unfold NumberToString.
  destruct (shortest_represents m e C) as [S R].
  destruct (shortest m e) as [s E]. cbn [fst snd] in S, R.
  destruct (digits_of_spec s ltac:(lia)) as (N & D & V).
  set (ds := digits_of s) in *.
  set (n := E + Z.of_nat (List.length ds)).
  destruct (format_decimal_head ds n N D) as (d & rest & F & Dd).
  pose proof (format_decimal_plain ds n D) as P.
  destruct (parse_format_decimal neg ds n N D ltac:(lia)) as (M & E' & Pa & Va).
  rewrite V in Va. replace (n - Z.of_nat (List.length ds)) with E in Va
    by (subst n; lia).
  rewrite (decimal_to_number_sign neg s E), R in Va. cbn [with_sign] in Va.
  set (text := (if neg then [45] else []) ++ format_decimal ds n).
  assert (PT : Forall (fun c => plain c = true) text).
  { subst text. apply Forall_app. split; [|exact P].
    destruct neg; repeat constructor. }
  assert (ST : strip_sign text = (neg, format_decimal ds n)).
  { subst text. destruct neg; [reflexivity|]. cbn [app]. rewrite F.
    apply is_digit_range in Dd. unfold strip_sign.
    destruct (Z.eqb_spec d 43); [lia|]. destruct (Z.eqb_spec d 45); [lia|].
    reflexivity. }
  assert (HT : exists c r, text = c :: r /\ (c = 45 \/ is_digit c = true)).
  { subst text. destruct neg; cbn [app]; [eauto|]. rewrite F. eauto. }
  split; [|split; [apply trim_plain, PT|exact HT]].
  unfold StringToNumber. rewrite (trim_plain text PT).
  destruct HT as (c & r & HT & _). rewrite HT. rewrite <- HT.
  rewrite (parse_nondecimal_plain text PT), ST.
  replace (jstring_eqb (format_decimal ds n) (lit "Infinity")) with false.
  - rewrite Pa. exact Va.
  - rewrite F. apply is_digit_range in Dd. symmetry. cbn [lit jstring_eqb].
    simpl. destruct (Z.eqb_spec d 73); [lia|reflexivity].
Qed.

Lemma lower_unit_sign_or_digit c :
  c = 45 \/ is_digit c = true -> lower_unit c = c /\ c < 65.
Proof.
  rewrite is_digit_range. intros H. unfold lower_unit.
  destruct (Z.leb_spec 65 c); [lia|]. cbn [andb].
  destruct (Z.eqb_spec c 8490); [lia|]. lia.
Qed.

Lemma coerce_string_number_text neg m e h :
  canonical m e = true ->
  coerce_string (NumberToString (Fin neg m e)) h
  = (VNum (Fin neg m e), TNumber, h).
Proof.
  intros C.
  destruct (NumberToString_reads_back neg m e C) as (S & T & c & r & HT & Hc).
  cbv zeta in *. unfold coerce_string. rewrite T.
  revert S. rewrite HT. intros S.
  destruct (lower_unit_sign_or_digit c Hc) as [L B].
  cbn [matches_ignoring_case lit list_ascii_of_string map].
  rewrite L.
  replace (c =? _) with false by (symmetry; apply Z.eqb_neq; simpl; lia).
  replace (c =? _) with false by (symmetry; apply Z.eqb_neq; simpl; lia).
  cbn [andb]. unfold finite_number. rewrite S. reflexivity.
Qed.

(** C10. For an instance on a finite Number [n], [toString()] returns
    an instance of type ['number'] whose value is [n] again ([===]; the
    same Number, except that [-0] comes back as [+0]): the text of [n]
    is coerced back to the Number it denotes. *)
Theorem toString_reinfers_number (this : FlexType) (n : number) (h : store) :
  value this = VNum n ->
  wf_number n = true ->
  is_finite n = true ->
  exists r,
    toString this h = (Ok r, h)
    /\ strict_equals (value r) (VNum n) = true
    /\ (n <> Zero true -> value r = VNum n)
    /\ type r = TNumber.
Proof.
  intros V W F. unfold value in V. unfold toString, bind, read.
  rewrite V.
  change (host (ToString h (VNum n)) h) with (@Ok jstring (NumberToString n), h).
  cbv beta iota. rewrite new_FlexType_coerce. unfold coerce.
  cbn [Options.typeLock Options.stringLock merge_options no_options
       or_default arg_typeLock arg_stringLock].
  destruct n as [|s|s|neg m e]; try discriminate.
  - change (coerce_string (NumberToString (Zero s)) h)
      with (VNum (Zero false), TNumber, h).
    eexists. split; [reflexivity|]. repeat split.
    intros N. destruct s; [contradiction|reflexivity].
  - rewrite coerce_string_number_text by exact W.
    eexists. split; [reflexivity|]. repeat split.
    simpl. rewrite eqb_reflx, !Z.eqb_refl. reflexivity.
Qed.

Lemma toString_reinfers_number_witness :
  new_FlexType (VNum (of_Z 42)) (lit "n") no_options empty_store
    = (Ok forty_two, empty_store)
  /\ value forty_two = VNum (of_Z 42)
  /\ wf_number (of_Z 42) = true
  /\ is_finite (of_Z 42) = true
  /\ exists r,
       toString forty_two empty_store = (Ok r, empty_store)
       /\ strict_equals (value r) (VNum (of_Z 42)) = true
       /\ (of_Z 42 <> Zero true -> value r = VNum (of_Z 42))
       /\ type r = TNumber.
Proof.
  split; [reflexivity|]. split; [reflexivity|]. split; [reflexivity|].
  split; [reflexivity|].
  exact (toString_reinfers_number forty_two (of_Z 42) empty_store
           eq_refl eq_refl eq_refl).
Defined.

(** ** The examples of the README, run on the model *)

Example readme_number :
  value_and_type (flex (VStr (lit "age")) (VStr (lit "25")) no_options)
  = Some (VNum (of_Z 25), TNumber).
Proof. reflexivity. Qed.

Example readme_boolean :
  value_and_type (flex (VStr (lit "flag")) (VStr (lit "FALSE")) no_options)
  = Some (VBool false, TBoolean).
Proof. reflexivity. Qed.

Example readme_array :
  flex (VStr (lit "tags")) (VStr (lit "[1, 2]")) no_options empty_store
  = (Ok (mkFlexType (VStr (lit "[1, 2]")) (lit "tags")
           (merge_options no_options) [TArray] TArray (VArray 0)),
     mkStore [[VNum (of_Z 1); VNum (of_Z 2)]] []).
Proof. reflexivity. Qed.

Example malformed_json_stays_string :
  value_and_type (flex (VStr (lit "x")) (VStr (lit "{not json}")) no_options)
  = Some (VStr (lit "{not json}"), TString).
Proof. reflexivity. Qed.

Example readme_strLock :
  value_and_type
    (x <- flex (VStr (lit "id")) (VStr (lit "123")) no_options ;; strLock x)
  = Some (VStr (lit "123"), TString).
Proof. reflexivity. Qed.

Example readme_math :
  value_and_type
    (a <- flex (VStr (lit "a")) (VStr (lit "10")) no_options ;;
     b <- flex (VStr (lit "b")) (VNum (of_Z 5)) no_options ;;
     divide a (Wrapped b))
  = Some (VNum (of_Z 2), TNumber).
Proof. vm_compute. reflexivity. Qed.

Example readme_charShift :
  value_and_type
    (text <- flex (VStr (lit "text")) (VStr (lit "hello")) no_options ;;
     charShift text (VNum (of_Z 1)))
  = Some (VStr (lit "ifmmp"), TString).
Proof. vm_compute. reflexivity. Qed.

Example division_by_zero_is_not_clamped_to_a_number :
  value_and_type
    (flag <- flex (VStr (lit "flag")) (VBool false)
               (mkOptionsArg None (Some true) None) ;;
     divide flag (Raw (VNum (of_Z 0))))
  = Some (VNum NaN, TNan).
Proof. vm_compute. reflexivity. Qed.

(* ===================================================================== *)
(** * Further properties of the methods                                   *)
(* ===================================================================== *)

Import Laws.

(** ** The constructor on any value *)

Lemma new_FlexType_fields v name o h x h' :
  new_FlexType v name o h = (Ok x, h') ->
  _initialValue x = v /\ _name x = name /\ _options x = merge_options o
  /\ typeHistory x = [type x]
  /\ coerce (merge_options o) v h = (value x, type x, h').
Proof.
  rewrite new_FlexType_coerce.
  destruct (coerce (merge_options o) v h) as [[cv t] h1].
  intros E. injection E as <- <-. repeat split.
Qed.

Lemma new_FlexType_returns v name o h :
  exists x h', new_FlexType v name o h = (Ok x, h').
Proof.
  rewrite new_FlexType_coerce.
  destruct (coerce (merge_options o) v h) as [[cv t] h1]. eauto.
Qed.

(** X1. [flex] throws 'Variable name must be a string' exactly when the
    name is not a string, and leaves the store as it was; for a string
    name it returns an instance that carries the name and the initial
    value. *)
Theorem flex_requires_string_name (name value : jsval) (o : options_arg)
    (h : store) :
  match name with
  | VStr s =>
      exists x h', flex name value o h = (Ok x, h')
                   /\ Flex.name x = s /\ _initialValue x = value
                   /\ _options x = merge_options o
  | _ => flex name value o h = (Throw (lit "Variable name must be a string"), h)
  end.
Proof.
  destruct name; try reflexivity.
  destruct (new_FlexType_returns value s o h) as (x & h' & E).
  exists x, h'. split; [exact E|].
  apply new_FlexType_fields in E. destruct E as (A & B & C & _). auto.
Qed.

Lemma inferType_shape v : shape (_inferType v) v.
Proof.
  destruct v as [| |b|n|s|l|l|c text time]; simpl; eauto.
  - destruct n; simpl; eauto.
  - destruct c; simpl; eauto.
Qed.

Lemma shape_inferType t v : shape t v -> _inferType v = t.
Proof.
  destruct t; simpl; intros H;
    repeat match goal with
    | H : exists _, _ |- _ => destruct H
    | H : _ /\ _ |- _ => destruct H
    end; subst; try reflexivity.
  destruct x; try discriminate; reflexivity.
Qed.

(** X2. The tag [_inferType] returns tells the kind of the value, and
    only that tag does: 'null' and 'undefined' stand for these two
    values, 'nan' for the Number NaN, 'number' for every other Number,
    'array' for arrays, 'object' for plain objects, and 'date',
    'regexp', 'map', 'set' and 'function' for the host objects of that
    class. *)
Theorem inferType_classifies (v : jsval) :
  shape (_inferType v) v /\ forall t, shape t v <-> t = _inferType v.
Proof.
  split; [apply inferType_shape|].
  intros t. split.
  - intros S. symmetry. apply shape_inferType, S.
  - intros ->. apply inferType_shape.
Qed.

Lemma coerce_string_shape str h :
  let '(cv, t, _) := coerce_string str h in shape t cv.
Proof.
  pose proof (coerce_string_well_tagged str h) as W.
  destruct (coerce_string str h) as [[cv t] h'].
  destruct t; simpl in *; eauto; try contradiction.
  destruct W as (n & -> & F). exists n. split; [reflexivity|].
  destruct n; try discriminate; reflexivity.
Qed.

Lemma new_FlexType_well_typed v name o h x h' :
  new_FlexType v name o h = (Ok x, h') -> well_typed x.
Proof.
  intros E.
  apply new_FlexType_fields in E. destruct E as (_ & _ & O & _ & C).
  unfold well_typed. rewrite O. unfold coerce in C.
  destruct (Options.typeLock (merge_options o)).
  { injection C as <- <- _. left. apply inferType_shape. }
  destruct v as [| |b|n|s|l|l|c text time];
    try (injection C as <- <- _; left; apply inferType_shape).
  - destruct (Options.boolLock (merge_options o)); injection C as <- <- _.
    + right. destruct b; auto.
    + left. simpl. eauto.
  - destruct (Options.stringLock (merge_options o)).
    + injection C as <- <- _. left. simpl. eauto.
    + pose proof (coerce_string_shape s h) as W. rewrite C in W. left. exact W.
Qed.

(** X3. The constructor never throws. The instance it returns keeps the
    initial value and the name, holds the three flags with [false] for
    those left out, has a history of one entry, its type, and a value of
    the kind its type names; the one exception is a boolean under
    [boolLock], whose value is the number 1 or 0. *)
Theorem construction_well_typed (v : jsval) (name : jstring) (o : options_arg)
    (h : store) :
  exists x h',
    new_FlexType v name o h = (Ok x, h')
    /\ _initialValue x = v /\ Flex.name x = name
    /\ _options x = merge_options o
    /\ typeHistory x = [type x]
    /\ well_typed x.
Proof.
  destruct (new_FlexType_returns v name o h) as (x & h' & E).
  exists x, h'. split; [exact E|].
  pose proof (new_FlexType_well_typed _ _ _ _ _ _ E) as W.
  apply new_FlexType_fields in E. destruct E as (A & B & C & H & _).
  repeat split; auto.
Qed.

Lemma JSON_parse_none h1 h2 t :
  JSON_parse h1 t = None -> JSON_parse h2 t = None.
Proof.
  unfold JSON_parse. destruct (JSON_parse_tree t); [discriminate|reflexivity].
Qed.

(** A string the coercion keeps is kept in every store, and nothing is
    allocated for it. *)
Lemma coerce_string_kept str h cv h' :
  coerce_string str h = (cv, TString, h') ->
  cv = VStr str /\ h' = h
  /\ forall h2, coerce_string str h2 = (VStr str, TString, h2).
Proof.
  unfold coerce_string.
  destruct (trim str) as [|c r]; [intros E; injection E as <- <-; auto|].
  destruct (matches_ignoring_case _ _); [discriminate|].
  destruct (matches_ignoring_case _ _); [discriminate|].
  destruct (finite_number _); [discriminate|].
  destruct (bracket_delimited _); [|intros E; injection E as <- <-; auto].
  destruct (JSON_parse h (c :: r)) as [[h1 v]|] eqn:P.
  - destruct v; discriminate.
  - intros E. injection E as <- <-. repeat split.
    intros h2. rewrite (JSON_parse_none h h2 _ P). reflexivity.
Qed.

(** X4. Coercion is idempotent: wrapping the value of an instance built
    without options gives an instance of the same value and the same
    type, and allocates nothing. *)
Theorem coercion_is_idempotent (v : jsval) (name name' : jstring) (h : store) :
  exists x h',
    new_FlexType v name no_options h = (Ok x, h')
    /\ exists x',
         new_FlexType (value x) name' no_options h' = (Ok x', h')
         /\ value x' = value x /\ type x' = type x.
Proof.
  destruct (new_FlexType_returns v name no_options h) as (x & h' & E).
  exists x, h'. split; [exact E|].
  apply new_FlexType_fields in E. destruct E as (_ & _ & _ & _ & C).
  rewrite new_FlexType_coerce.
  assert (K : coerce (merge_options no_options) (value x) h'
              = (value x, type x, h')).
  { unfold coerce in *.
    cbn [Options.typeLock Options.stringLock Options.boolLock merge_options
         no_options or_default arg_typeLock arg_stringLock arg_boolLock] in *.
    destruct v as [| |b|n|s|l|l|c text time];
      try (injection C as <- <- _; reflexivity).
    pose proof (coerce_string_well_tagged s h) as W. rewrite C in W.
    destruct (type x) eqn:T; simpl in W; try contradiction.
    - destruct W as (l & W). rewrite W. reflexivity.
    - destruct W as (l & W). rewrite W. reflexivity.
    - destruct (coerce_string_kept s h _ _ C) as (_ & _ & A).
      rewrite W. apply A.
    - destruct W as (n & W & F). rewrite W.
      destruct n; try discriminate; reflexivity.
    - destruct W as (b & W). rewrite W. reflexivity. }
  rewrite K. eexists. repeat split.
Qed.

Lemma trim_start_head s :
  match trim_start s with c :: _ => is_whitespace c = false | [] => True end.
Proof.
  induction s as [|c r IH]; simpl; [exact I|].
  destruct (is_whitespace c) eqn:W; [exact IH|exact W].
Qed.

Lemma trim_start_snoc s c :
  is_whitespace c = false -> trim_start (s ++ [c]) = trim_start s ++ [c].
Proof.
  intros W. induction s as [|a s IH]; simpl; [rewrite W; reflexivity|].
  destruct (is_whitespace a); [exact IH|reflexivity].
Qed.

Lemma trim_end_head c r :
  is_whitespace c = false -> exists r', trim_end (c :: r) = c :: r'.
Proof.
  intros W. unfold trim_end. cbn [rev].
  rewrite trim_start_snoc by exact W. rewrite rev_app_distr.
  eexists. reflexivity.
Qed.

Lemma trim_idempotent s : trim (trim s) = trim s.
Proof.
  unfold trim at 1.
  assert (S : trim_start (trim s) = trim s).
  { apply trim_start_id. unfold trim.
    pose proof (trim_start_head s) as H.
    destruct (trim_start s) as [|c r]; [exact I|].
    destruct (trim_end_head c r H) as (r' & ->). exact H. }
  rewrite S. unfold trim, trim_end. rewrite rev_involutive.
  rewrite (trim_start_id (trim_start _)) by apply trim_start_head.
  reflexivity.
Qed.

Lemma coerce_string_trim s h :
  let '(cv, t, h1) := coerce_string s h in
  let '(cv', t', h1') := coerce_string (trim s) h in
  t' = t /\ h1' = h1
  /\ (t <> TString -> cv' = cv)
  /\ (t = TString -> cv = VStr s /\ cv' = VStr (trim s)).
Proof.
  unfold coerce_string. rewrite trim_idempotent.
  destruct (trim s) as [|c r]; [repeat split; congruence|].
  destruct (matches_ignoring_case _ _); [repeat split; congruence|].
  destruct (matches_ignoring_case _ _); [repeat split; congruence|].
  destruct (finite_number _); [repeat split; congruence|].
  destruct (bracket_delimited _); [|repeat split; congruence].
  destruct (JSON_parse h (c :: r)) as [[h1 v]|]; [|repeat split; congruence].
  destruct v; repeat split; congruence.
Qed.

(** X5. The coercion of a string looks at its trimmed text only: a
    string and its trimmed text give the same type, the same store and,
    unless the type is 'string', the same value. A string that stays a
    string keeps its surrounding whitespace. *)
Theorem coercion_ignores_outer_whitespace (s name name' : jstring)
    (h : store) :
  exists x x' h1,
    new_FlexType (VStr s) name no_options h = (Ok x, h1)
    /\ new_FlexType (VStr (trim s)) name' no_options h = (Ok x', h1)
    /\ type x' = type x
    /\ match type x with
       | TString => value x = VStr s /\ value x' = VStr (trim s)
       | _ => value x' = value x
       end.
Proof.
  rewrite !new_FlexType_coerce. unfold coerce.
  cbn [Options.typeLock Options.stringLock merge_options no_options
       or_default arg_typeLock arg_stringLock].
  pose proof (coerce_string_trim s h) as C.
  destruct (coerce_string s h) as [[cv t] h1].
  destruct (coerce_string (trim s) h) as [[cv' t'] h1'].
  destruct C as (-> & -> & N & S).
  eexists _, _, h1. split; [reflexivity|]. split; [reflexivity|].
  split; [reflexivity|].
  cbn [type value _inferredType _convertedValue].
  destruct t; try (apply N; discriminate). apply S. reflexivity.
Qed.

(** ** The type history *)

Lemma last_tag_cons a b l : last_tag (a :: b :: l) = last_tag (b :: l).
Proof.
  unfold last_tag. cbn [rev].
  destruct (rev l ++ [b]) as [|x r] eqn:E; [destruct (rev l); discriminate|].
  reflexivity.
Qed.

Lemma no_repeats_snoc t l :
  no_repeats (l ++ [t]) = no_repeats l && negb (same_tag (last_tag l) t).
Proof.
  induction l as [|a [|b l] IH]; [reflexivity| |].
  - simpl. destruct (tag_eqb a t); reflexivity.
  - change (no_repeats ((a :: b :: l) ++ [t]))
      with (negb (tag_eqb a b) && no_repeats ((b :: l) ++ [t])).
    rewrite IH, last_tag_cons.
    change (no_repeats (a :: b :: l))
      with (negb (tag_eqb a b) && no_repeats (b :: l)).
    rewrite andb_assoc. reflexivity.
Qed.

Lemma last_tag_snoc l t : last_tag (l ++ [t]) = Some t.
Proof. unfold last_tag. rewrite rev_app_distr. reflexivity. Qed.

(** X6. [_recordTypeChange] never throws and leaves the store, the
    value, the initial value, the name and the options as they were. Afterwards the type is
    the new type and the history ends with it; the history is the old
    one, or the old one with the new type appended, and it holds two
    equal consecutive entries only if it did before. Recording the same
    type again changes nothing. *)
Theorem recordTypeChange_keeps_history (this : FlexType) (newType : tag)
    (h : store) :
  exists this',
    _recordTypeChange newType (this, h) = (Ok tt, (this', h))
    /\ type this' = newType
    /\ last_tag (typeHistory this') = Some newType
    /\ (typeHistory this' = typeHistory this
        \/ typeHistory this' = typeHistory this ++ [newType])
    /\ no_repeats (typeHistory this') = no_repeats (typeHistory this)
    /\ value this' = value this /\ name this' = name this
    /\ _options this' = _options this
    /\ _initialValue this' = _initialValue this
    /\ _recordTypeChange newType (this', h) = (Ok tt, (this', h)).
Proof.
  unfold _recordTypeChange, bind, get_this, set_this, typeHistory, type.
  cbn [fst snd].
  destruct (same_tag (last_tag (_typeHistory this)) newType) eqn:S;
    cbn [negb]; eexists; (split; [reflexivity|]);
    cbn [with_type _inferredType _typeHistory _initialValue _name _options
         _convertedValue value name].
  - assert (L : last_tag (_typeHistory this) = Some newType).
    { destruct (last_tag (_typeHistory this)) as [t|]; [|discriminate].
      simpl in S. apply tag_eqb_eq in S. subst t. reflexivity. }
    rewrite S. cbn [negb]. repeat split; auto.
  - rewrite last_tag_snoc. cbn [same_tag]. rewrite tag_eqb_refl. cbn [negb].
    rewrite no_repeats_snoc, S, andb_true_r. repeat split; auto.
Qed.

(** ** The store under construction *)

Lemma json_nested_ind (P : json -> Prop) :
  P JNull -> (forall b, P (JBool b)) -> (forall n, P (JNum n)) ->
  (forall s, P (JStr s)) ->
  (forall elems, Forall P elems -> P (JArr elems)) ->
  (forall members, Forall (fun m => P (snd m)) members -> P (JObj members)) ->
  forall j, P j.
Proof.
  intros HN HB HM HS HA HO. fix IH 1.
  intros [|b|n|s|elems|members].
  - exact HN.
  - apply HB.
  - apply HM.
  - apply HS.
  - apply HA. revert elems. fix IHl 1.
    intros [|x l]; constructor; [apply IH|apply IHl].
  - apply HO. revert members. fix IHl 1.
    intros [|[k x] l]; constructor; [apply IH|apply IHl].
Qed.

Lemma extends_refl h : extends h h.
Proof. exists [], []. rewrite !app_nil_r. auto. Qed.

Lemma extends_trans a b c : extends a b -> extends b c -> extends a c.
Proof.
  intros (x & y & A & B) (x' & y' & A' & B').
  exists (x ++ x'), (y ++ y'). rewrite A', B', A, B, !app_assoc. auto.
Qed.

Lemma extends_live h h' v : extends h h' -> live h v -> live h' v.
Proof.
  intros (x & y & A & B). destruct v; simpl; auto; intros L;
    [rewrite A | rewrite B]; rewrite length_app; lia.
Qed.

Lemma extends_keeps h h' : extends h h' -> keeps_containers h h'.
Proof.
  intros E. split; [exact E|]. destruct E as (x & y & A & B).
  split; intros l L.
  - unfold array_at. rewrite A. apply app_nth1, L.
  - unfold object_at. rewrite B. apply app_nth1, L.
Qed.

Lemma alloc_array_extends h vs :
  extends h (fst (alloc_array h vs))
  /\ live (fst (alloc_array h vs)) (snd (alloc_array h vs)).
Proof.
  unfold alloc_array. cbn [fst snd live arrays]. split.
  - exists [vs], []. cbn [arrays objects]. rewrite app_nil_r. auto.
  - rewrite length_app. simpl. lia.
Qed.

Lemma alloc_object_extends h ps :
  extends h (fst (alloc_object h ps))
  /\ live (fst (alloc_object h ps)) (snd (alloc_object h ps)).
Proof.
  unfold alloc_object. cbn [fst snd live objects]. split.
  - exists [], [ps]. cbn [arrays objects]. rewrite app_nil_r. auto.
  - rewrite length_app. simpl. lia.
Qed.

(** Building a tree keeps every container of the store and returns a
    reference that the new store holds. *)
Lemma allocate_extends j : forall h,
  extends h (fst (allocate h j))
  /\ live (fst (allocate h j)) (snd (allocate h j)).
Proof.
  induction j as [|b|n|s|elems IH|members IH] using json_nested_ind;
    intros h; try (split; [apply extends_refl|exact I]).
  - pose (go := fix go (h : store) (l : list json) : store * list jsval :=
               match l with
               | [] => (h, [])
               | x :: l' =>
                   let '(h1, v) := allocate h x in
                   let '(h2, vs) := go h1 l' in
                   (h2, v :: vs)
               end).
    change (allocate h (JArr elems))
      with (let '(h', vs) := go h elems in alloc_array h' vs).
    assert (G : forall h0, extends h0 (fst (go h0 elems))).
    { induction IH as [|x l Hx _ IHl]; intros h0; [apply extends_refl|].
      cbn [go]. fold go. pose proof (proj1 (Hx h0)) as E1.
      destruct (allocate h0 x) as [h1 v]. specialize (IHl h1).
      destruct (go h1 l) as [h2 vs]. cbn [fst] in *.
      eapply extends_trans; eassumption. }
    specialize (G h). destruct (go h elems) as [h' vs]. cbn [fst] in G.
    destruct (alloc_array_extends h' vs) as [E L].
    split; [eapply extends_trans; eassumption|exact L].
  - pose (go := fix go (h : store) (l : list (jstring * json))
                  : store * list (jstring * jsval) :=
               match l with
               | [] => (h, [])
               | (k, x) :: l' =>
                   let '(h1, v) := allocate h x in
                   let '(h2, ps) := go h1 l' in
                   (h2, (k, v) :: ps)
               end).
    change (allocate h (JObj members))
      with (let '(h', ps) := go h members in alloc_object h' ps).
    assert (G : forall h0, extends h0 (fst (go h0 members))).
    { induction IH as [|[k x] l Hx _ IHl]; intros h0; [apply extends_refl|].
      cbn [go]. fold go. pose proof (proj1 (Hx h0)) as E1. cbn [snd] in E1.
      destruct (allocate h0 x) as [h1 v]. specialize (IHl h1).
      destruct (go h1 l) as [h2 ps]. cbn [fst] in *.
      eapply extends_trans; eassumption. }
    specialize (G h). destruct (go h members) as [h' ps]. cbn [fst] in G.
    destruct (alloc_object_extends h' ps) as [E L].
    split; [eapply extends_trans; eassumption|exact L].
Qed.

Lemma coerce_string_extends str h :
  let '(cv, _, h') := coerce_string str h in extends h h' /\ live h' cv.
Proof.
  unfold coerce_string, JSON_parse.
  destruct (trim str); [split; [apply extends_refl|exact I]|].
  destruct (matches_ignoring_case _ _); [split; [apply extends_refl|exact I]|].
  destruct (matches_ignoring_case _ _); [split; [apply extends_refl|exact I]|].
  destruct (finite_number _); [split; [apply extends_refl|exact I]|].
  destruct (bracket_delimited _); [|split; [apply extends_refl|exact I]].
  destruct (JSON_parse_tree _) as [tree|];
    [|split; [apply extends_refl|exact I]].
  pose proof (allocate_extends tree h) as A.
  destruct (allocate h tree) as [h' v]. cbn [fst snd] in A.
  destruct v; exact A.
Qed.

Lemma coerce_extends o v h :
  let '(cv, _, h') := coerce o v h in
  extends h h' /\ (live h v -> live h' cv).
Proof.
  unfold coerce. destruct (Options.typeLock o).
  { split; [apply extends_refl|auto]. }
  destruct v as [| |b|n|s|l|l|c text time];
    try (split; [apply extends_refl|auto]).
  - destruct (Options.boolLock o); (split; [apply extends_refl|auto]).
  - destruct (Options.stringLock o); [split; [apply extends_refl|auto]|].
    pose proof (coerce_string_extends s h) as S.
    destruct (coerce_string s h) as [[cv t] h']. destruct S as [S1 S2]. auto.
Qed.

Lemma new_FlexType_extends v name o h out h' :
  new_FlexType v name o h = (out, h') -> extends h h'.
Proof.
  rewrite new_FlexType_coerce.
  pose proof (coerce_extends (merge_options o) v h) as C.
  destruct (coerce (merge_options o) v h) as [[cv t] h1].
  intros E. injection E as _ <-. apply C.
Qed.

(** X7. Construction only adds to the store: every array and object
    that was there is still there, unchanged, also when the value is a
    text that [JSON.parse] builds new containers for; and a value that
    refers to a container of the store still does so afterwards. *)
Theorem construction_keeps_containers (v : jsval) (name : jstring)
    (o : options_arg) (h : store) :
  exists x h',
    new_FlexType v name o h = (Ok x, h')
    /\ keeps_containers h h'
    /\ (live h v -> live h' (value x)).
Proof.
  destruct (new_FlexType_returns v name o h) as (x & h' & E).
  exists x, h'. split; [exact E|].
  split; [apply extends_keeps, (new_FlexType_extends _ _ _ _ _ _ E)|].
  apply new_FlexType_fields in E. destruct E as (_ & _ & _ & _ & C).
  pose proof (coerce_extends (merge_options o) v h) as X. rewrite C in X.
  apply X.
Qed.

(** ** Lock methods *)

(** X8. Locks accumulate: [strLock], [boolLock] and [typeLock] never
    throw and return an instance of the same initial value and name with
    their own flag set and the other two as they were; [unlock] returns
    one with no flag set. *)
Theorem lock_flags_accumulate (x : FlexType) (h : store) :
  let o := _options x in
  (exists y h', strLock x h = (Ok y, h')
     /\ _initialValue y = _initialValue x /\ name y = name x
     /\ _options y
        = Options.mkOptions true (Options.boolLock o) (Options.typeLock o))
  /\ (exists y h', boolLock x h = (Ok y, h')
        /\ _initialValue y = _initialValue x /\ name y = name x
        /\ _options y
           = Options.mkOptions (Options.stringLock o) true (Options.typeLock o))
  /\ (exists y h', typeLock x h = (Ok y, h')
        /\ _initialValue y = _initialValue x /\ name y = name x
        /\ _options y
           = Options.mkOptions (Options.stringLock o) (Options.boolLock o) true)
  /\ (exists y h', unlock x h = (Ok y, h')
        /\ _initialValue y = _initialValue x /\ name y = name x
        /\ isLocked y = false).
Proof.
  intros o. unfold strLock, boolLock, typeLock, unlock.
  repeat split;
    match goal with
    | |- exists y h', new_FlexType ?v ?n ?a h = _ /\ _ =>
        destruct (new_FlexType_returns v n a h) as (y & h' & E);
        exists y, h'; split; [exact E|];
        apply new_FlexType_fields in E; destruct E as (A & B & C & _);
        unfold name, isLocked; rewrite ?C; auto
    end.
Qed.

(** X9. A lock is applied to the initial value, not to the converted
    one: [typeLock] returns the initial value as it was given, with the
    type inferred from it, and [strLock] on an initial value that is a
    string returns that string, with the type 'string', whatever the
    instance had converted it to. Neither touches the store. *)
Theorem lock_restores_raw_value (x : FlexType) (h : store) :
  (exists y, typeLock x h = (Ok y, h)
             /\ value y = _initialValue x
             /\ type y = _inferType (_initialValue x))
  /\ match _initialValue x with
     | VStr s =>
         exists y, strLock x h = (Ok y, h)
                   /\ value y = VStr s /\ type y = TString
     | v =>
         exists y, strLock x h = (Ok y, h) /\ type y = _inferType v
     end.
Proof.
  split.
  - unfold typeLock. rewrite new_FlexType_coerce. eexists. repeat split.
  - unfold strLock. rewrite new_FlexType_coerce. unfold coerce.
    cbn [merge_options spread or_default arg_stringLock arg_boolLock
         arg_typeLock Options.typeLock Options.stringLock Options.boolLock].
    destruct (_initialValue x) as [| |b|n|s|l|l|c text time];
      destruct (Options.typeLock (_options x));
      try (eexists; repeat split; fail).
    destruct (Options.boolLock (_options x)); eexists; repeat split.
Qed.

(** X10. [unlock] undoes the locks: on the instance any lock method
    returned it gives what it gives on the original instance, the
    instance the constructor builds from the initial value without
    options. *)
Theorem unlock_undoes_locks (x y : FlexType) (h h1 : store) :
  In (Ok y, h1) [strLock x h; boolLock x h; typeLock x h] ->
  unlock y h1 = unlock x h1
  /\ unlock x h1 = new_FlexType (_initialValue x) (name x) no_options h1.
Proof.
  intros L.
  assert (F : _initialValue y = _initialValue x /\ _name y = _name x).
  { unfold strLock, boolLock, typeLock in L.
    destruct L as [L|[L|[L|[]]]]; apply new_FlexType_fields in L;
      destruct L as (A & B & _); auto. }
  destruct F as [A B]. unfold unlock, name. rewrite A, B.
  split; [reflexivity|]. rewrite !new_FlexType_coerce. reflexivity.
Qed.

Lemma unlock_undoes_locks_witness :
  In (Ok true_boolLocked, empty_store)
    [strLock true_unlocked empty_store; boolLock true_unlocked empty_store;
     typeLock true_unlocked empty_store]
  /\ unlock true_boolLocked empty_store = (Ok true_unlocked, empty_store)
  /\ unlock true_unlocked empty_store = (Ok true_unlocked, empty_store).
Proof.
  assert (L : In (Ok true_boolLocked, empty_store)
                [strLock true_unlocked empty_store;
                 boolLock true_unlocked empty_store;
                 typeLock true_unlocked empty_store]).
  { right. left. reflexivity. }
  split; [exact L|].
  destruct (unlock_undoes_locks true_unlocked true_boolLocked empty_store
              empty_store L) as [A B].
  split; [rewrite A|]; exact B.
Defined.

(** ** The text of an array *)

Lemma filter_length_mono {A} (p q : A -> bool) xs :
  (forall y, q y = true -> p y = true) ->
  (List.length (filter q xs) <= List.length (filter p xs))%nat.
Proof.
  intros I. induction xs as [|a xs IH]; simpl; [lia|].
  destruct (q a) eqn:Q; [rewrite (I a Q); simpl; lia|].
  destruct (p a); simpl; lia.
Qed.

Lemma filter_length_lt {A} (p q : A -> bool) xs x :
  In x xs -> p x = true -> q x = false ->
  (forall y, q y = true -> p y = true) ->
  (List.length (filter q xs) < List.length (filter p xs))%nat.
Proof.
  intros M P Q I. induction xs as [|a xs IH]; [contradiction|].
  pose proof (filter_length_mono p q xs I) as LE. simpl.
  destruct M as [->|M].
  - rewrite P, Q. simpl. lia.
  - specialize (IH M). destruct (q a) eqn:Qa; [rewrite (I a Qa); simpl; lia|].
    destruct (p a); simpl; lia.
Qed.

(** An array of the store that is put in progress leaves fewer idle
    ones. *)
Lemma idle_joining h joining l :
  (l < List.length (arrays h))%nat -> existsb (Nat.eqb l) joining = false ->
  (idle h (l :: joining) < idle h joining)%nat.
Proof.
  intros L J. unfold idle. apply (filter_length_lt _ _ _ l).
  - apply in_seq. lia.
  - rewrite J. reflexivity.
  - cbn [existsb]. rewrite Nat.eqb_refl. reflexivity.
  - intros y. cbn [existsb]. rewrite negb_orb, andb_true_iff. tauto.
Qed.

(** The fuel of [ToString] does not matter once there is as much as
    there are idle arrays: the nesting of the arrays in progress cannot
    be deeper. *)
Lemma ToString_fuel_stable h : forall f1 f2 joining v,
  (idle h joining <= f1)%nat -> (idle h joining <= f2)%nat ->
  ToString_fuel f1 h joining v = ToString_fuel f2 h joining v.
Proof.
  induction f1 as [|f1 IH]; intros f2 joining v I1 I2;
    destruct v as [| |b|n|s|l|l|c text time]; try reflexivity;
    destruct f2 as [|f2]; try reflexivity; cbn [ToString_fuel];
    destruct (existsb (Nat.eqb l) joining) eqn:J; try reflexivity;
    destruct (Nat.lt_ge_cases l (List.length (arrays h))) as [L|L];
    try (pose proof (idle_joining h joining l L J); lia);
    try (unfold array_at; rewrite nth_overflow by exact L; reflexivity).
  f_equal. f_equal. apply map_ext. intros e.
  pose proof (idle_joining h joining l L J).
  destruct e; try reflexivity; apply IH; lia.
Qed.

Lemma ToString_fuel_enough h v fuel :
  (List.length (arrays h) <= fuel)%nat ->
  ToString_fuel fuel h [] v = ToString h v.
Proof.
  intros F. unfold ToString.
  assert (I : (idle h [] <= List.length (arrays h))%nat).
  { unfold idle.
    pose proof (List.filter_length_le
                  (fun l => negb (existsb (Nat.eqb l) []))
                  (seq 0 (List.length (arrays h)))) as LE.
    rewrite length_seq in LE. exact LE. }
  apply ToString_fuel_stable; lia.
Qed.

(** ** Math operations on any instance *)

Lemma new_FlexType_default v name h x h' :
  new_FlexType v name no_options h = (Ok x, h') ->
  name = Flex.name x /\ isLocked x = false /\ typeHistory x = [type x]
  /\ shape (type x) (value x).
Proof.
  intros E. pose proof (new_FlexType_well_typed _ _ _ _ _ _ E) as W.
  apply new_FlexType_fields in E. destruct E as (_ & N & O & H & _).
  unfold isLocked, Flex.name. rewrite O in *. repeat split; auto.
  destruct W as [W | (_ & B & _)]; [exact W|].
  rewrite O in B. discriminate B.
Qed.

(** X11. The string lock is the only [Error] that [add], [subtract],
    [multiply] and [divide] throw: on a string under [stringLock] each
    throws the error that names the instance. On every other instance
    each returns a new instance, named '(name operator operand-name)',
    when the host converts the value and the operand, which it does for
    all that are no arrays and no objects; with an abrupt conversion,
    the [TypeError] for an object whose own [toString] is not callable
    or the call at which the model stops, the method ends and the store
    is as it was. *)
Theorem math_throws_only_under_stringLock (this : FlexType) (other : operand)
    (h : store) :
  Forall
    (fun '(method, operator, operation) =>
       if Options.stringLock (_options this) && isString this
       then method this other h
            = (Throw (locked_math_message (name this)), h)
       else
         let left :=
           if clamps this then one_or_zero (value this) else value this in
         match operation h left (_unwrap other) with
         | Normal _ =>
             exists r h',
               method this other h = (Ok r, h')
               /\ name r = lit "(" ++ name this ++ lit " " ++ operator
                             ++ lit " " ++ _getName other ++ lit ")"
         | Abrupt e => method this other h = (Escapes e, h)
         end
         /\ (container (value this) = false ->
             container (_unwrap other) = false ->
             exists r h', method this other h = (Ok r, h')))
    math_methods.
Proof.
  destruct (Options.stringLock (_options this) && isString this) eqn:S.
  - unfold math_methods. repeat apply Forall_cons; try apply Forall_nil;
      unfold add, subtract, multiply, divide, _mathOperation; rewrite S;
      reflexivity.
  - pose proof (mathOperation_result this other h S) as M.
    rewrite Forall_forall in *. intros [[method operator] operation] I.
    specialize (M _ I). cbv beta iota zeta in *. rewrite M.
    unfold math_result.
    set (left := if clamps this then one_or_zero (value this) else value this).
    assert (R : forall result,
              exists r h',
                new_FlexType
                  (if clamps this then VNum (clamp01 result) else result)
                  (lit "(" ++ name this ++ lit " " ++ operator ++ lit " "
                     ++ _getName other ++ lit ")") no_options h
                = (Ok r, h')
                /\ name r = lit "(" ++ name this ++ lit " " ++ operator
                              ++ lit " " ++ _getName other ++ lit ")").
    { intros result.
      match goal with
      | |- exists r h', new_FlexType ?v ?n ?o h = _ /\ _ =>
          destruct (new_FlexType_returns v n o h) as (r & h' & E);
          exists r, h'; split; [exact E|];
          apply new_FlexType_fields in E; destruct E as (_ & N & _);
          exact N
      end. }
    split.
    + destruct (operation h left (_unwrap other)) as [result|e];
        [apply R|reflexivity].
    + intros V O.
      assert (L : container left = false).
      { unfold left. destruct (clamps this); [reflexivity|exact V]. }
      pose proof (operation_no_container h left (_unwrap other) L O) as N.
      rewrite Forall_forall in N. specialize (N _ I). cbv beta iota in N.
      destruct N as (result & ->).
      destruct (R result) as (r & h' & E & _). eauto.
Qed.

(** X12. [_mathOperation] with an operator other than '+', '-', '*' and
    '/' throws 'Unsupported operator: ' followed by the operator and
    leaves the store as it was; on a string under [stringLock] the lock
    error comes first. *)
Theorem unsupported_operator (this : FlexType) (operator : jstring)
    (other : operand) (h : store) :
  ~ In operator [lit "+"; lit "-"; lit "*"; lit "/"] ->
  _mathOperation this operator other h
  = (Throw (if Options.stringLock (_options this) && isString this
            then locked_math_message (name this)
            else lit "Unsupported operator: " ++ operator), h).
Proof.
  intros N. unfold _mathOperation.
  destruct (Options.stringLock (_options this) && isString this);
    [reflexivity|].
  unfold bind, read, throw.
  destruct (jstring_eqb operator (lit "+")) eqn:A;
    [apply jstring_eqb_eq in A; exfalso; apply N; simpl; auto|].
  destruct (jstring_eqb operator (lit "-")) eqn:B;
    [apply jstring_eqb_eq in B; exfalso; apply N; simpl; auto|].
  destruct (jstring_eqb operator (lit "*")) eqn:C;
    [apply jstring_eqb_eq in C; exfalso; apply N; simpl; auto|].
  destruct (jstring_eqb operator (lit "/")) eqn:D;
    [apply jstring_eqb_eq in D; exfalso; apply N; simpl; auto|].
  reflexivity.
Qed.

Lemma unsupported_operator_witness :
  ~ In (lit "%") [lit "+"; lit "-"; lit "*"; lit "/"]
  /\ _mathOperation forty_two (lit "%") (Raw (VNum (of_Z 5))) empty_store
     = (Throw (lit "Unsupported operator: %"), empty_store).
Proof.
  assert (N : ~ In (lit "%") [lit "+"; lit "-"; lit "*"; lit "/"]).
  { intros [H|[H|[H|[H|[]]]]]; discriminate H. }
  split; [exact N|].
  exact (unsupported_operator forty_two (lit "%") (Raw (VNum (of_Z 5)))
           empty_store N).
Defined.

(** X13. [add] on a string that is not under [stringLock] concatenates:
    when the host converts the operand to a primitive, the result is
    the instance the constructor builds, without options, from the
    string followed by the text of that primitive, so that its type is
    inferred afresh, and '1e' plus 3 is the number 1000; when the
    conversion of the operand is abrupt, the [TypeError] of the host or
    the call at which the model stops, the method ends with it and the
    store is as it was. *)
Theorem add_concatenates_onto_string (this : FlexType) (s : jstring)
    (other : operand) (h : store) :
  type this = TString -> value this = VStr s ->
  Options.stringLock (_options this) = false ->
  match ToPrimitive h HintDefault (_unwrap other) with
  | Normal p =>
      add this other h
      = new_FlexType (VStr (s ++ primitive_text p))
          (lit "(" ++ name this ++ lit " + " ++ _getName other ++ lit ")")
          no_options h
  | Abrupt e => add this other h = (Escapes e, h)
  end.
Proof.
  intros T V L. unfold type in T.
  assert (S : Options.stringLock (_options this) && isString this = false).
  { rewrite L. reflexivity. }
  pose proof (mathOperation_result this other h S) as M.
  rewrite Forall_forall in M.
  rewrite (M (add, lit "+", js_plus) (or_introl eq_refl)).
  unfold math_result, clamps, isBoolean. rewrite T. cbn [tag_eqb].
  rewrite andb_false_r, V. unfold js_plus. cbn [ToPrimitive and_then].
  destruct (ToPrimitive h HintDefault (_unwrap other)) as [p|e];
    reflexivity.
Qed.

Lemma add_concatenates_onto_string_witness :
  new_FlexType (VStr (lit "1e")) (lit "n") no_options empty_store
  = (Ok one_e, empty_store)
  /\ type one_e = TString /\ value one_e = VStr (lit "1e")
  /\ Options.stringLock (_options one_e) = false
  /\ value_and_type (add one_e (Raw (VNum (of_Z 3))))
     = Some (VNum (of_Z 1000), TNumber).
Proof.
  split; [vm_compute; reflexivity|].
  split; [reflexivity|]. split; [reflexivity|]. split; [reflexivity|].
  unfold value_and_type, run.
  rewrite (add_concatenates_onto_string one_e (lit "1e")
             (Raw (VNum (of_Z 3))) empty_store eq_refl eq_refl eq_refl
           : add one_e (Raw (VNum (of_Z 3))) empty_store = _).
  vm_compute. reflexivity.
Defined.

(** What a method that converts and then builds an instance returns is
    built by the constructor without options, in the store as it
    was. *)
Lemma results_built (this : FlexType) (other : operand) (offset : jsval)
    (property : jstring) (h : store) (out : outcome FlexType) (h' : store) :
  In (out, h') (results this other offset property h) ->
  (exists v n, new_FlexType v n no_options h = (out, h'))
  \/ ((exists message, out = Throw message) \/ (exists e, out = Escapes e))
     /\ h' = h.
Proof.
  assert (Mth : forall op, _mathOperation this op other h = (out, h') ->
              (exists v n, new_FlexType v n no_options h = (out, h'))
              \/ ((exists message, out = Throw message)
                  \/ (exists e, out = Escapes e)) /\ h' = h).
  { intros op. unfold _mathOperation.
    destruct (_ && isString this);
      [intros E; injection E as <- <-; right; eauto|].
    unfold bind at 1. unfold read at 1. cbv beta iota.
    assert (K : forall c : completion jsval,
              (r <- host c ;;
               result <-
                 (if Options.boolLock (_options this) && isBoolean this
                  then
                    one <- host (ToNumber h (VNum (of_Z 1))) ;;
                    num <- host (ToNumber h r) ;;
                    zero <- host (ToNumber h (VNum (of_Z 0))) ;;
                    ret (VNum (Math_max zero (Math_min one num)))
                  else ret r) ;;
               new_FlexType result
                 (lit "(" ++ _name this ++ lit " " ++ op ++ lit " "
                    ++ _getName other ++ lit ")") no_options) h
              = (out, h') ->
              (exists v n, new_FlexType v n no_options h = (out, h'))
              \/ ((exists message, out = Throw message)
                  \/ (exists e, out = Escapes e)) /\ h' = h).
    { intros [r|e]; unfold bind at 1; unfold host at 1;
        [|intros E; injection E as <- <-; right; eauto].
      destruct (Options.boolLock (_options this) && isBoolean this).
      - unfold bind, host, ret. rewrite !ToNumber_VNum.
        destruct (ToNumber h r);
          [intros E; left; eauto|intros E; injection E as <- <-; right; eauto].
      - unfold bind, ret. intros E. left. eauto. }
    repeat match goal with
           | |- context [if jstring_eqb ?a ?b then _ else _] =>
               destruct (jstring_eqb a b)
           end; try apply K.
    unfold bind, throw. intros E. injection E as <- <-. right. eauto. }
  unfold results.
  intros [I|[I|[I|[I|[I|[I|[I|[I|[I|[]]]]]]]]]].
  - apply (Mth _ I).
  - apply (Mth _ I).
  - apply (Mth _ I).
  - apply (Mth _ I).
  - revert I. unfold charShift.
    destruct (negb (isString this));
      [intros E; injection E as <- <-; right; eauto|].
    destruct (Options.stringLock _);
      [intros E; injection E as <- <-; right; eauto|].
    unfold bind, read, host.
    destruct (charShift_loop h offset _ []);
      [|intros E; injection E as <- <-; right; eauto].
    destruct (ToString h offset);
      [intros E; left; eauto|intros E; injection E as <- <-; right; eauto].
  - revert I. unfold get.
    destruct (negb (isArray this) && negb (isObject this));
      [intros E; injection E as <- <-; right; eauto|].
    unfold bind, read. intros E. left. eauto.
  - revert I. unfold toString, bind, read, host.
    destruct (ToString h _);
      [intros E; left; eauto|intros E; injection E as <- <-; right; eauto].
  - revert I. unfold toNumber, bind, read, host.
    destruct (ToNumber h _);
      [intros E; left; eauto|intros E; injection E as <- <-; right; eauto].
  - revert I. unfold toBoolean. intros E. left. eauto.
Qed.

(** X14. No result inherits a lock: the instance that a math operation,
    [charShift], [get], [toString], [toNumber] or [toBoolean] returns
    has no flag set, whatever the flags of the instance it was called
    on; its history is the single entry of its type, and its value is of
    the kind its type names. *)
Theorem results_do_not_inherit_locks (this : FlexType) (other : operand)
    (offset : jsval) (property : jstring) (h : store)
    (r : FlexType) (h' : store) :
  In (Ok r, h') (results this other offset property h) ->
  isLocked r = false
  /\ typeHistory r = [type r]
  /\ shape (type r) (value r).
Proof.
  intros I. apply results_built in I.
  destruct I as [(v & n & E)|[[(message & E)|(e & E)] _]];
    try discriminate E.
  apply new_FlexType_default in E. tauto.
Qed.

Lemma results_do_not_inherit_locks_witness :
  isLocked true_boolLocked = true
  /\ In (Ok true_minus_one, empty_store)
       (results true_boolLocked (Raw (VNum (of_Z 1))) (VNum (of_Z 1))
          (lit "k") empty_store)
  /\ isLocked true_minus_one = false
  /\ typeHistory true_minus_one = [type true_minus_one]
  /\ shape (type true_minus_one) (value true_minus_one).
Proof.
  assert (I : In (Ok true_minus_one, empty_store)
                (results true_boolLocked (Raw (VNum (of_Z 1))) (VNum (of_Z 1))
                   (lit "k") empty_store)).
  { right. left. vm_compute. reflexivity. }
  split; [reflexivity|]. split; [exact I|].
  exact (results_do_not_inherit_locks true_boolLocked (Raw (VNum (of_Z 1)))
           (VNum (of_Z 1)) (lit "k") empty_store true_minus_one empty_store I).
Defined.

(** X15. Only [set] and [push] write to a container. Whatever a lock
    method, a math operation, [charShift], [get] or a type conversion
    returns or throws, every array and object of the store is still
    there afterwards, unchanged; these methods can only add the
    containers of a JSON text. *)
Theorem only_set_and_push_write (this : FlexType) (other : operand)
    (offset : jsval) (property : jstring) (h : store)
    (out : outcome FlexType) (h' : store) :
  In (out, h') (relocked this h ++ results this other offset property h) ->
  keeps_containers h h'.
Proof.
  intros I. apply extends_keeps. apply in_app_or in I.
  destruct I as [I|I].
  - unfold relocked in I.
    destruct I as [I|[I|[I|[I|[]]]]];
      apply (new_FlexType_extends _ _ _ _ _ _ I).
  - apply results_built in I.
    destruct I as [(v & n & E)|[_ ->]];
      [apply (new_FlexType_extends _ _ _ _ _ _ E)|apply extends_refl].
Qed.

Lemma only_set_and_push_write_witness :
  In (Ok unlocked_list, lists_store)
    (relocked locked_list items_store
     ++ results locked_list (Raw VNull) VNull (lit "k") items_store)
  /\ keeps_containers items_store lists_store.
Proof.
  assert (I : In (Ok unlocked_list, lists_store)
                (relocked locked_list items_store
                 ++ results locked_list (Raw VNull) VNull (lit "k")
                      items_store)).
  { do 3 right. left. vm_compute. reflexivity. }
  split; [exact I|].
  exact (only_set_and_push_write locked_list (Raw VNull) VNull (lit "k")
           items_store (Ok unlocked_list) lists_store I).
Defined.

(** ** charShift on any string *)

Lemma ToString_no_container h v :
  container v = false -> exists text, ToString h v = Normal text.
Proof.
  destruct v; try discriminate; intros _; eexists; reflexivity.
Qed.

(** The loop of [charShift] ends when the host converts the offset. *)
Lemma charShift_loop_converts h offset p : forall units result,
  ToPrimitive h HintDefault offset = Normal p ->
  exists text, charShift_loop h offset units result = Normal text.
Proof.
  induction units as [|c units IH]; intros result P; cbn [charShift_loop].
  - eexists. reflexivity.
  - unfold js_plus. cbn [ToPrimitive and_then]. rewrite P. cbn [and_then].
    unfold String_fromCharCode, ToNumber.
    destruct p; cbn [ToPrimitive and_then]; apply IH; exact P.
Qed.

(** [charShift] on an unlocked string: the loop, the text of the offset
    and the constructor. *)
Lemma charShift_unlocked (this : FlexType) (offset : jsval) (h : store) :
  type this = TString -> Options.stringLock (_options this) = false ->
  charShift this offset h
  = match charShift_loop h offset (code_units (value this)) [] with
    | Normal result =>
        match ToString h offset with
        | Normal text =>
            new_FlexType (VStr result)
              (lit "charShift(" ++ name this ++ lit ", " ++ text ++ lit ")")
              no_options h
        | Abrupt e => (Escapes e, h)
        end
    | Abrupt e => (Escapes e, h)
    end.
Proof.
  intros T L. unfold type in T. unfold charShift, isString, value, name.
  rewrite T, L. cbn [tag_eqb negb]. unfold bind, read, host.
  destruct (charShift_loop h offset _ []); [|reflexivity].
  destruct (ToString h offset); reflexivity.
Qed.

(** X16. [charShift] checks the type before the lock: on an instance
    whose type is not 'string' it throws the error that names the
    current type, also under [stringLock]; on a string under
    [stringLock] it throws the lock error. On an unlocked string these
    are its only errors: when the host converts the offset, which it
    does for every offset that is no array and no object, it returns a
    new instance named 'charShift(name, offset)'; an abrupt conversion
    of the offset is no [Error] of the library. An error leaves the
    store as it was. *)
Theorem charShift_guard (this : FlexType) (offset : jsval) (h : store) :
  match type this with
  | TString =>
      if Options.stringLock (_options this)
      then charShift this offset h
           = (Throw (lit "String locked variable '" ++ name this
                       ++ lit "' cannot use charShift"), h)
      else
        match ToPrimitive h HintDefault offset, ToString h offset with
        | Normal _, Normal text =>
            exists r h',
              charShift this offset h = (Ok r, h')
              /\ name r = lit "charShift(" ++ name this ++ lit ", "
                            ++ text ++ lit ")"
        | _, _ =>
            forall message h',
              charShift this offset h <> (Throw message, h')
        end
        /\ (container offset = false ->
            exists r h', charShift this offset h = (Ok r, h'))
  | t =>
      charShift this offset h
      = (Throw (lit "charShift can only be used on string types. "
                  ++ lit "Current type: " ++ tag_name t), h)
  end.
Proof.
  destruct (type this) eqn:T;
    try (unfold charShift, isString; unfold type in T; rewrite T;
         reflexivity).
  destruct (Options.stringLock (_options this)) eqn:L.
  { unfold charShift, isString. unfold type in T. rewrite T, L. reflexivity. }
  rewrite (charShift_unlocked this offset h T L).
  assert (R : forall result text,
            exists r h',
              new_FlexType (VStr result)
                (lit "charShift(" ++ name this ++ lit ", " ++ text
                   ++ lit ")") no_options h = (Ok r, h')
              /\ name r = lit "charShift(" ++ name this ++ lit ", "
                            ++ text ++ lit ")").
  { intros result text.
    match goal with
    | |- exists r h', new_FlexType ?v ?n ?o h = _ /\ _ =>
        destruct (new_FlexType_returns v n o h) as (r & h' & E);
        exists r, h'; split; [exact E|];
        apply new_FlexType_fields in E; destruct E as (_ & N & _); exact N
    end. }
  assert (N : forall message h',
            match charShift_loop h offset (code_units (value this)) [] with
            | Normal result =>
                match ToString h offset with
                | Normal text =>
                    new_FlexType (VStr result)
                      (lit "charShift(" ++ name this ++ lit ", " ++ text
                         ++ lit ")") no_options h
                | Abrupt e => (Escapes e, h)
                end
            | Abrupt e => (Escapes e, h)
            end <> (Throw message, h')).
  { intros message h'.
    destruct (charShift_loop h offset _ []) as [result|e]; [|discriminate].
    destruct (ToString h offset) as [text|e]; [|discriminate].
    destruct (R result text) as (r & h1 & -> & _). discriminate. }
  split.
  - destruct (ToPrimitive h HintDefault offset) as [p|e] eqn:P; [|exact N].
    destruct (ToString h offset) as [text|e] eqn:E; [|exact N].
    destruct (charShift_loop_converts h offset p
                (code_units (value this)) [] P) as (result & ->).
    apply R.
  - intros C.
    destruct (ToPrimitive_no_container h HintDefault offset C) as (p & P & _).
    destruct (ToString_no_container h offset C) as (text & ->).
    destruct (charShift_loop_converts h offset p
                (code_units (value this)) [] P) as (result & ->).
    destruct (R result text) as (r & h' & E & _). eauto.
Qed.

(** X17. Shifting back restores the text of any string: when
    [charShift(k)] on an unlocked string [s] returns an instance that is
    still a string, its value is [s] with every code unit moved by [k]
    modulo 2^16, nothing was allocated, and [charShift(-k)] on it
    returns the instance the constructor builds from [s]. The offset is
    an integer for which every sum is exact. *)
Theorem charShift_back_restores_text (this : FlexType) (s : jstring) (k : Z)
    (h : store) (y : FlexType) (h1 : store) :
  type this = TString -> value this = VStr s ->
  Options.stringLock (_options this) = false ->
  Forall code_unit s -> safe_offset k ->
  charShift this (VNum (of_Z k)) h = (Ok y, h1) ->
  type y = TString ->
  h1 = h
  /\ value y = VStr (shift_units k s)
  /\ charShift y (VNum (of_Z (- k))) h
     = new_FlexType (VStr s)
         (lit "charShift(" ++ name y ++ lit ", "
            ++ NumberToString (of_Z (- k)) ++ lit ")")
         no_options h.
Proof.
  intros T V L F K C Ty.
  rewrite (charShift_string this s k h T L V F K) in C.
  apply new_FlexType_fields in C. destruct C as (_ & _ & O & _ & C).
  unfold coerce in C.
  cbn [Options.typeLock Options.stringLock merge_options no_options
       or_default arg_typeLock arg_stringLock] in C.
  rewrite Ty in C. apply coerce_string_kept in C.
  destruct C as (Vy & -> & _).
  split; [reflexivity|]. split; [exact Vy|].
  rewrite (charShift_string y (shift_units k s) (- k) h Ty).
  - rewrite shift_units_back by exact F. reflexivity.
  - rewrite O. reflexivity.
  - exact Vy.
  - apply shift_units_code_unit.
  - apply safe_offset_opp, K.
Qed.

Lemma charShift_back_restores_text_witness :
  type hello_x = TString /\ value hello_x = VStr hello
  /\ Options.stringLock (_options hello_x) = false
  /\ Forall code_unit hello /\ safe_offset 1
  /\ charShift hello_x (VNum (of_Z 1)) empty_store
     = (Ok hello_shifted, empty_store)
  /\ type hello_shifted = TString
  /\ value hello_shifted = VStr (lit "ifmmp")
  /\ value_and_type (charShift hello_shifted (VNum (of_Z (- 1))))
     = Some (VStr hello, TString).
Proof.
  assert (K : safe_offset 1) by (unfold safe_offset; simpl; lia).
  assert (C : charShift hello_x (VNum (of_Z 1)) empty_store
              = (Ok hello_shifted, empty_store))
    by (vm_compute; reflexivity).
  split; [reflexivity|]. split; [reflexivity|]. split; [reflexivity|].
  split; [exact hello_code_units|]. split; [exact K|]. split; [exact C|].
  split; [reflexivity|].
  destruct (charShift_back_restores_text hello_x hello 1 empty_store
              hello_shifted empty_store eq_refl eq_refl eq_refl
              hello_code_units K C eq_refl) as (_ & V & B).
  split; [exact V|].
  cbn [Z.opp] in B. unfold value_and_type, run. rewrite B.
  vm_compute. reflexivity.
Defined.

(** ** Arrays and objects *)

Lemma round_rat_not_nan neg p q : is_nan (round_rat neg p q) = false.
Proof.
  unfold round_rat.
  destruct (_ =? 0); [reflexivity|].
  destruct (_ =? 2 ^ 53); destruct (emax <? _); reflexivity.
Qed.

Lemma of_Z_not_nan z : is_nan (of_Z z) = false.
Proof.
  unfold of_Z, round_dyadic. destruct (z =? 0); [reflexivity|].
  apply round_rat_not_nan.
Qed.

Lemma jstring_eqb_refl s : jstring_eqb s s = true.
Proof. apply jstring_eqb_eq. reflexivity. Qed.

Lemma jstring_eqb_neq a b : a <> b -> jstring_eqb a b = false.
Proof.
  intros N. destruct (jstring_eqb a b) eqn:E; [|reflexivity].
  apply jstring_eqb_eq in E. contradiction.
Qed.

(** The text of an index is the key of that index. *)
Lemma array_index_key i : array_index (index_key i) = Some i.
Proof.
  unfold index_key, array_index.
  destruct (digits_of_spec (Z.of_nat i) ltac:(lia)) as (N & D & V).
  destruct (digits_of (Z.of_nat i)) as [|c r] eqn:E; [contradiction|].
  rewrite V, E, jstring_eqb_refl, andb_true_r.
  replace (forallb is_digit (c :: r)) with true.
  - rewrite Nat2Z.id. reflexivity.
  - symmetry. apply forallb_forall. intros x I.
    unfold digits in D. rewrite Forall_forall in D. apply D, I.
Qed.

Lemma new_FlexType_undefined name o h :
  new_FlexType VUndefined name o h
  = (Ok (mkFlexType VUndefined name (merge_options o) [TUndefined] TUndefined
           VUndefined), h).
Proof.
  rewrite new_FlexType_coerce. unfold coerce.
  destruct (Options.typeLock _); reflexivity.
Qed.


Lemma get_at_index (this : FlexType) (l i : nat) (h : store) :
  type this = TArray -> value this = VArray l ->
  get this (index_key i) h
  = new_FlexType (nth i (array_at h l) VUndefined)
      (name this ++ lit "." ++ index_key i) no_options h.
Proof.
  intros T V. unfold type in T. unfold value in V.
  unfold get, isArray. rewrite T, V. cbn [tag_eqb negb andb].
  unfold bind, read, get_property. rewrite array_index_key. reflexivity.
Qed.

Lemma get_length (this : FlexType) (l : nat) (h : store) :
  type this = TArray -> value this = VArray l ->
  get this (lit "length") h
  = (Ok (mkFlexType (VNum (of_Z (Z.of_nat (List.length (array_at h l)))))
           (name this ++ lit ".length") (merge_options no_options)
           [TNumber] TNumber
           (VNum (of_Z (Z.of_nat (List.length (array_at h l)))))), h).
Proof.
  intros T V. unfold type in T. unfold value in V.
  unfold get, isArray. rewrite T, V. cbn [tag_eqb negb andb].
  unfold bind, read, get_property.
  change (array_index (lit "length")) with (@None nat).
  change (jstring_eqb (lit "length") (lit "length")) with true. cbv iota.
  rewrite new_FlexType_number, inferType_VNum, of_Z_not_nan. reflexivity.
Qed.

(** X19. [get] of an index at or beyond the length of an array does not
    throw: it returns an instance of type 'undefined', named
    'name.index', and leaves the store as it was. *)
Theorem get_beyond_the_end (this : FlexType) (l i : nat) (h : store) :
  type this = TArray -> value this = VArray l ->
  (List.length (array_at h l) <= i)%nat ->
  exists r,
    get this (index_key i) h = (Ok r, h)
    /\ value r = VUndefined /\ type r = TUndefined
    /\ isUndefined r = true
    /\ name r = name this ++ lit "." ++ index_key i.
Proof.
  intros T V B. rewrite (get_at_index this l i h T V).
  rewrite nth_overflow by exact B.
  rewrite new_FlexType_undefined. eexists. repeat split.
Qed.

Lemma get_beyond_the_end_witness :
  type items_list = TArray /\ value items_list = VArray 0
  /\ (List.length (array_at items_store 0) <= 1)%nat
  /\ exists r,
       get items_list (lit "1") items_store = (Ok r, items_store)
       /\ value r = VUndefined /\ type r = TUndefined
       /\ isUndefined r = true
       /\ name r = lit "c.items.1".
Proof.
  split; [reflexivity|]. split; [reflexivity|].
  split; [simpl; lia|].
  exact (get_beyond_the_end items_list 0 1 items_store eq_refl eq_refl
           (le_n 1)).
Defined.

Lemma update_nth_length {A} (l : list A) i x :
  List.length (update_nth l i x) = List.length l.
Proof.
  revert i. induction l as [|a l IH]; intros [|i]; simpl; auto.
Qed.



Lemma update_nth_other {A} (l : list A) i j x d :
  i <> j -> nth j (update_nth l i x) d = nth j l d.
Proof.
  revert i j. induction l as [|a l IH]; intros [|i] [|j] N; simpl; auto;
    try contradiction.
Qed.

Lemma object_at_write h l props :
  (l < List.length (objects h))%nat ->
  object_at (write_object h l props) l = props.
Proof.
  intros H. unfold object_at, write_object. simpl. apply update_nth_same, H.
Qed.

Lemma lookup_define props key v :
  lookup_prop (define_prop props key v) key = Some v.
Proof.
  induction props as [|[k w] props IH]; simpl.
  - rewrite jstring_eqb_refl. reflexivity.
  - destruct (jstring_eqb k key) eqn:E; simpl; rewrite E; auto.
Qed.

Lemma array_store_nth elems i v d : nth i (array_store elems i v) d = v.
Proof.
  unfold array_store. destruct (Nat.ltb_spec i (List.length elems)) as [L|L].
  - apply update_nth_same, L.
  - rewrite app_assoc, app_nth2; rewrite length_app, repeat_length.
    + replace (i - (List.length elems + (i - List.length elems)))%nat
        with 0%nat by lia. reflexivity.
    + lia.
Qed.

Lemma array_store_length elems i v :
  List.length (array_store elems i v) = Nat.max (List.length elems) (S i).
Proof.
  unfold array_store. destruct (Nat.ltb_spec i (List.length elems)) as [L|L].
  - rewrite update_nth_length. lia.
  - rewrite !length_app, repeat_length. simpl. lia.
Qed.

Lemma array_store_other elems i j v :
  i <> j ->
  nth j (array_store elems i v) VUndefined = nth j elems VUndefined.
Proof.
  intros N. unfold array_store.
  destruct (Nat.ltb_spec i (List.length elems)) as [L|L].
  - apply update_nth_other, N.
  - destruct (Nat.lt_ge_cases j (List.length elems)) as [J|J].
    + apply app_nth1, J.
    + rewrite app_nth2, (nth_overflow elems) by lia.
      destruct (Nat.lt_ge_cases j i) as [K|K].
      * rewrite app_nth1 by (rewrite repeat_length; lia).
        apply nth_repeat_lt. lia.
      * rewrite app_nth2; rewrite repeat_length; [|lia].
        apply nth_overflow. simpl. lia.
Qed.






(** X22. What [set] writes as an element or as an own property, [get]
    reads back: for an index below 2^32 - 1 of an array of the store,
    and for every key but '__proto__' of a plain object of the store,
    [set(property, v)] returns the instance itself and [get(property)]
    then returns the instance the constructor builds from [v],
    unwrapped. The other keys, '__proto__' of an object and 'length'
    and the names of an array, are not written as own properties. *)
Theorem set_then_get (this : FlexType) (property : jstring) (v : operand)
    (h : store) :
  isArray this || isObject this = true ->
  live h (value this) -> writes_own (value this) property ->
  exists h1,
    set this property v h = Some (Ok this, h1)
    /\ get this property h1
       = new_FlexType (_unwrap v) (name this ++ lit "." ++ property)
           no_options h1.
Proof.
  intros T L W.
  assert (G : negb (isArray this) && negb (isObject this) = false).
  { rewrite <- negb_orb, T. reflexivity. }
  unfold set, get. rewrite G. unfold bind, read, put_property, get_property.
  unfold value in *.
  destruct (_convertedValue this) as [| |b|n|s|l|l|c text time];
    try contradiction; simpl in L, W.
  - destruct W as (i & -> & I).
    replace (Z.of_nat i <? 2 ^ 32 - 1) with true
      by (symmetry; apply Z.ltb_lt; exact I).
    eexists. split; [reflexivity|].
    rewrite array_at_write by exact L. rewrite array_store_nth. reflexivity.
  - rewrite jstring_eqb_neq by exact W.
    eexists. split; [reflexivity|].
    rewrite object_at_write by exact L. rewrite lookup_define. reflexivity.
Qed.

Lemma set_then_get_witness :
  isArray items_object || isObject items_object = true
  /\ live items_store (value items_object)
  /\ writes_own (value items_object) (lit "n")
  /\ exists h1,
       set items_object (lit "n") (Raw (VStr (lit "42"))) items_store
       = Some (Ok items_object, h1)
       /\ value_and_type (fun _ => get items_object (lit "n") h1)
          = Some (VNum (of_Z 42), TNumber).
Proof.
  assert (L : live items_store (value items_object)) by (simpl; lia).
  assert (W : writes_own (value items_object) (lit "n")) by discriminate.
  split; [reflexivity|]. split; [exact L|]. split; [exact W|].
  destruct (set_then_get items_object (lit "n") (Raw (VStr (lit "42")))
              items_store eq_refl L W) as (h1 & S & G).
  exists h1. split; [exact S|].
  unfold value_and_type, run. cbn beta. rewrite G.
  rewrite new_FlexType_coerce. reflexivity.
Defined.

(** X23. [set] of an index at or beyond the length of an array of the
    store lengthens the array: afterwards [length] is the index plus
    one, [get] of an index between the old length and the new element
    is an instance of type 'undefined', and the elements that were
    there are read as before. *)
Theorem set_beyond_the_end (this : FlexType) (l i : nat) (v : operand)
    (h : store) :
  type this = TArray -> value this = VArray l -> live h (VArray l) ->
  (List.length (array_at h l) <= i)%nat -> Z.of_nat i < 2 ^ 32 - 1 ->
  exists h1,
    set this (index_key i) v h = Some (Ok this, h1)
    /\ (exists r,
          get this (lit "length") h1 = (Ok r, h1)
          /\ type r = TNumber
          /\ value r = VNum (of_Z (Z.of_nat (S i))))
    /\ (forall j,
          (List.length (array_at h l) <= j < i)%nat ->
          exists r, get this (index_key j) h1 = (Ok r, h1)
                    /\ type r = TUndefined)
    /\ (forall j,
          (j < List.length (array_at h l))%nat ->
          get this (index_key j) h1
          = new_FlexType (nth j (array_at h l) VUndefined)
              (name this ++ lit "." ++ index_key j) no_options h1).
Proof.
  intros T V L B I. simpl in L.
  assert (S : set this (index_key i) v h
              = Some (Ok this,
                      write_array h l
                        (array_store (array_at h l) i (_unwrap v)))).
  { unfold set, isArray. unfold type in T. unfold value in V.
    rewrite T, V. cbn [tag_eqb negb andb]. unfold put_property.
    rewrite array_index_key.
    replace (Z.of_nat i <? 2 ^ 32 - 1) with true
      by (symmetry; apply Z.ltb_lt; exact I).
    reflexivity. }
  eexists. split; [exact S|].
  assert (A : array_at (write_array h l
                          (array_store (array_at h l) i (_unwrap v))) l
              = array_store (array_at h l) i (_unwrap v))
    by (apply array_at_write, L).
  split.
  { rewrite (get_length this l _ T V), A, array_store_length.
    rewrite Nat.max_r by lia. eexists. repeat split. }
  split.
  - intros j J. rewrite (get_at_index this l _ _ T V), A.
    rewrite array_store_other by lia.
    rewrite nth_overflow by lia. rewrite new_FlexType_undefined.
    eexists. split; reflexivity.
  - intros j J. rewrite (get_at_index this l _ _ T V), A.
    rewrite array_store_other by lia. reflexivity.
Qed.

Lemma set_beyond_the_end_witness :
  type items_list = TArray /\ value items_list = VArray 0
  /\ live items_store (VArray 0)
  /\ (List.length (array_at items_store 0) <= 3)%nat
  /\ Z.of_nat 3 < 2 ^ 32 - 1
  /\ exists h1,
       set items_list (lit "3") (Raw (VNum (of_Z 7))) items_store
       = Some (Ok items_list, h1)
       /\ array_at h1 0
          = [VNum (of_Z 1); VUndefined; VUndefined; VNum (of_Z 7)].
Proof.
  assert (L : live items_store (VArray 0)) by (simpl; lia).
  assert (B : (List.length (array_at items_store 0) <= 3)%nat)
    by (simpl; lia).
  assert (I : Z.of_nat 3 < 2 ^ 32 - 1) by reflexivity.
  split; [reflexivity|]. split; [reflexivity|]. split; [exact L|].
  split; [exact B|]. split; [exact I|].
  destruct (set_beyond_the_end items_list 0 3 (Raw (VNum (of_Z 7)))
              items_store eq_refl eq_refl L B I) as (h1 & S & _).
  exists h1. split; [exact S|].
  change (index_key 3) with (lit "3") in S. vm_compute in S.
  injection S as <-. reflexivity.
Defined.

(** ** Type conversions *)

Lemma new_FlexType_boolean b name h :
  new_FlexType (VBool b) name no_options h
  = (Ok (mkFlexType (VBool b) name (merge_options no_options) [TBoolean]
           TBoolean (VBool b)), h).
Proof. rewrite new_FlexType_coerce. reflexivity. Qed.

(** X24. [toBoolean] never throws and leaves the store as it was: it
    returns an instance of type 'boolean' whose value is the truthiness
    of the value, named 'Boolean(name)'; applied again it gives the same
    value. *)
Theorem toBoolean_is_truthiness (this : FlexType) (h : store) :
  exists r,
    toBoolean this h = (Ok r, h)
    /\ value r = VBool (ToBoolean (value this))
    /\ type r = TBoolean
    /\ name r = lit "Boolean(" ++ name this ++ lit ")"
    /\ exists r', toBoolean r h = (Ok r', h) /\ value r' = value r.
Proof.
  unfold toBoolean. rewrite new_FlexType_boolean.
  eexists. repeat split.
  cbn [_convertedValue]. rewrite new_FlexType_boolean.
  eexists. split; reflexivity.
Qed.

(** X25. [toNumber] throws no [Error] of the library. When the host
    converts the value to a Number, which it does for every value that
    is no array and no object, [toNumber] returns an instance on that
    Number, named 'Number(name)', of type 'nan' when the Number is NaN
    and 'number' otherwise, leaves the store as it was, and gives the
    same value when applied again; with an abrupt conversion, the
    [TypeError] of the host or the call at which the model stops, the
    method ends and the store is as it was. *)
Theorem toNumber_is_number_or_nan (this : FlexType) (h : store) :
  match ToNumber h (value this) with
  | Normal n =>
      exists r,
        toNumber this h = (Ok r, h)
        /\ value r = VNum n
        /\ type r = (if is_nan n then TNan else TNumber)
        /\ name r = lit "Number(" ++ name this ++ lit ")"
        /\ exists r', toNumber r h = (Ok r', h) /\ value r' = value r
  | Abrupt e => toNumber this h = (Escapes e, h)
  end
  /\ (container (value this) = false ->
      exists r, toNumber this h = (Ok r, h)).
Proof.
  unfold toNumber, bind, read, host, value.
  assert (N : forall n,
            exists r,
              new_FlexType (VNum n) (lit "Number(" ++ _name this ++ lit ")")
                no_options h = (Ok r, h)
              /\ _convertedValue r = VNum n
              /\ type r = (if is_nan n then TNan else TNumber)
              /\ name r = lit "Number(" ++ name this ++ lit ")"
              /\ exists r',
                   (let (o, s') :=
                      match ToNumber h (_convertedValue r) with
                      | Normal a => (Ok a, h)
                      | Abrupt e => (@Escapes number e, h)
                      end in
                    match o with
                    | Ok a =>
                        new_FlexType (VNum a)
                          (lit "Number(" ++ _name r ++ lit ")") no_options s'
                    | Throw message => (Throw message, s')
                    | Escapes e => (Escapes e, s')
                    end) = (Ok r', h)
                   /\ _convertedValue r' = _convertedValue r).
  { intros n. rewrite new_FlexType_number. eexists. split; [reflexivity|].
    cbn [value type name _convertedValue _inferredType _name].
    rewrite inferType_VNum. repeat split.
    rewrite ToNumber_VNum, new_FlexType_number. eexists. split; reflexivity. }
  split.
  - destruct (ToNumber h (_convertedValue this)) as [n|e];
      [apply N|reflexivity].
  - intros C. unfold ToNumber.
    destruct (ToPrimitive_no_container h HintNumber _ C) as (p & -> & _).
    cbn [and_then]. destruct (N (primitive_number p)) as (r & E & _). eauto.
Qed.

Lemma new_FlexType_string_kept s name h :
  keeps_string s = true ->
  exists r, new_FlexType (VStr s) name no_options h = (Ok r, h)
            /\ value r = VStr s /\ type r = TString.
Proof.
  intros K. rewrite new_FlexType_kept_string by exact K.
  eexists. repeat split.
Qed.

(** X26. [toString] does not always give a string: the text of the
    value goes through the constructor, which infers its type afresh.
    On a boolean it returns an instance of type 'boolean' with the same
    value; on [null] and [undefined] it returns the strings 'null' and
    'undefined'; on a plain object without an own property [toString]
    it returns the string '[object Object]'. On a plain object whose own
    [toString] is not callable the host throws its [TypeError], unless
    the object holds a function as [valueOf]; a function held as
    [toString] or [valueOf] is called by the host, where the model
    stops. *)
Theorem toString_reinfers_its_text (this : FlexType) (h : store) :
  match value this with
  | VBool b =>
      exists r, toString this h = (Ok r, h)
                /\ value r = VBool b /\ type r = TBoolean
  | VNull =>
      exists r, toString this h = (Ok r, h)
                /\ value r = VStr (lit "null") /\ type r = TString
  | VUndefined =>
      exists r, toString this h = (Ok r, h)
                /\ value r = VStr (lit "undefined") /\ type r = TString
  | VObject l =>
      match lookup_prop (object_at h l) (lit "toString"),
            lookup_prop (object_at h l) (lit "valueOf") with
      | None, _ =>
          exists r, toString this h = (Ok r, h)
                    /\ value r = VStr (lit "[object Object]")
                    /\ type r = TString
      | Some f, held =>
          toString this h
          = (Escapes
               (if IsCallable f then Calls f
                else match held with
                     | Some g => if IsCallable g then Calls g else TypeError
                     | None => TypeError
                     end), h)
      end
  | _ => True
  end.
Proof.
  unfold toString, bind, read, value.
  destruct (_convertedValue this) as [| |b|n|s|l|l|c text time];
    try exact I.
  - apply new_FlexType_string_kept. reflexivity.
  - apply new_FlexType_string_kept. reflexivity.
  - change (host (ToString h (VBool b)) h)
      with (@Ok jstring (if b then lit "true" else lit "false"), h).
    cbv beta iota. rewrite new_FlexType_coerce.
    destruct b; eexists; repeat split.
  - unfold ToString. cbn [ToString_fuel].
    unfold OrdinaryToPrimitive, method_result.
    destruct (lookup_prop (object_at h l) (lit "toString")) as [f|].
    + destruct (IsCallable f); [reflexivity|].
      destruct (lookup_prop (object_at h l) (lit "valueOf")) as [g|];
        [destruct (IsCallable g)|]; reflexivity.
    + apply new_FlexType_string_kept. reflexivity.
Qed.

(** ** declareFlex *)




